(** * AnyToolCall proxy (src/index.js): a shallow embedding and its properties

    The proxy synthesises OpenAI-style tool calls over an upstream that only
    produces text.  Tool calls travel as text blocks framed by rare Unicode
    markers.  This development embeds the marker generator, the regex-driven
    block parser, the request rewriter, the streaming transformer and the
    edge checks of [handleRequest], and states the properties of the
    specification about them.

    JavaScript strings are sequences of UTF-16 code units; they are modelled
    as [list N].  Every glyph used by the marker tables lies in the Basic
    Multilingual Plane outside the surrogate range, so for markers a code unit
    is a code point. *)

From Stdlib Require Import String Ascii NArith Bool Arith Lia DecimalN List.
Import ListNotations.

Set Warnings "-register-all".

(* ================================================================== *)
(** * JavaScript string primitives *)
(* ================================================================== *)

Definition jsstring := list N.

(** An ASCII literal of the source as a sequence of code units. *)
Definition lit (s : string) : jsstring :=
  map N_of_ascii (list_ascii_of_string s).

Definition LF : N := 10%N.
Definition QUOTE : N := 34%N.

Fixpoint str_eqb (a b : jsstring) : bool :=
  match a, b with
  | [], [] => true
  | x :: a', y :: b' => N.eqb x y && str_eqb a' b'
  | _, _ => false
  end.

(** [s.length === 0], the only way a string is falsy. *)
Definition is_empty (s : jsstring) : bool :=
  match s with [] => true | _ => false end.

(** [t.startsWith(p)] *)
Fixpoint startsWith (p t : jsstring) : bool :=
  match p, t with
  | [], _ => true
  | x :: p', y :: t' => N.eqb x y && startsWith p' t'
  | _ :: _, [] => false
  end.

(** The text after a literal prefix, when the prefix is there. *)
Fixpoint strip_prefix (p t : jsstring) : option jsstring :=
  match p, t with
  | [], _ => Some t
  | x :: p', y :: t' => if N.eqb x y then strip_prefix p' t' else None
  | _ :: _, [] => None
  end.

(** [t.indexOf(p)]; [None] stands for -1. *)
Fixpoint indexOf (p t : jsstring) : option nat :=
  if startsWith p t then Some 0
  else match t with
       | [] => None
       | _ :: t' => option_map S (indexOf p t')
       end.

(** [t.includes(p)] *)
Definition includes (p t : jsstring) : bool :=
  match indexOf p t with Some _ => true | None => false end.

(** [t.slice(0, k)] and [t.slice(k)] for [0 <= k]. *)
Definition slice_to (k : nat) (t : jsstring) : jsstring := firstn k t.
Definition slice_from (k : nat) (t : jsstring) : jsstring := skipn k t.

(** [s[0]]: the one-unit string at index 0 (for a non-empty [s]). *)
Definition char_at0 (s : jsstring) : jsstring := firstn 1 s.

(** White space of ECMAScript: the class [\s] of regular expressions and
    the characters removed by [String.prototype.trim] (WhiteSpace and
    LineTerminator). *)
Definition is_space (c : N) : bool :=
  ((9 <=? c) && (c <=? 13) || (c =? 32) || (c =? 160) || (c =? 5760)
   || (8192 <=? c) && (c <=? 8202) || (c =? 8232) || (c =? 8233)
   || (c =? 8239) || (c =? 8287) || (c =? 12288) || (c =? 65279))%N.

Fixpoint trimStart (t : jsstring) : jsstring :=
  match t with
  | c :: t' => if is_space c then trimStart t' else t
  | [] => []
  end.

Definition trimEnd (t : jsstring) : jsstring := rev (trimStart (rev t)).

Definition trim (t : jsstring) : jsstring := trimEnd (trimStart t).

(** [t.split(sep)] for a one-unit separator: never an empty array. *)
Fixpoint split (sep : N) (t : jsstring) : list jsstring :=
  match t with
  | [] => [[]]
  | c :: t' =>
      if N.eqb c sep then [] :: split sep t'
      else match split sep t' with
           | cur :: rest => (c :: cur) :: rest
           | [] => [[c]]
           end
  end.

(** [xs.join(sep)] *)
Fixpoint join (sep : jsstring) (xs : list jsstring) : jsstring :=
  match xs with
  | [] => []
  | [x] => x
  | x :: rest => x ++ sep ++ join sep rest
  end.

(** Decimal rendering of a non-negative integer, as template literals and
    string concatenation produce it. *)
Fixpoint uint_codes (u : Decimal.uint) : jsstring :=
  match u with
  | Decimal.Nil => []
  | Decimal.D0 u' => 48%N :: uint_codes u'
  | Decimal.D1 u' => 49%N :: uint_codes u'
  | Decimal.D2 u' => 50%N :: uint_codes u'
  | Decimal.D3 u' => 51%N :: uint_codes u'
  | Decimal.D4 u' => 52%N :: uint_codes u'
  | Decimal.D5 u' => 53%N :: uint_codes u'
  | Decimal.D6 u' => 54%N :: uint_codes u'
  | Decimal.D7 u' => 55%N :: uint_codes u'
  | Decimal.D8 u' => 56%N :: uint_codes u'
  | Decimal.D9 u' => 57%N :: uint_codes u'
  end.

Definition dec (n : N) : jsstring := uint_codes (N.to_uint n).

(* ================================================================== *)
(** * The delimiter system *)
(* ================================================================== *)

Record delimiter_set := { d_open : jsstring; d_close : jsstring; d_mid : jsstring }.

Definition DELIMITER_SETS : list delimiter_set :=
  [ {| d_open := [3858%N];  d_close := [3858%N];  d_mid := [4039%N] |};
    {| d_open := [43457%N]; d_close := [43458%N]; d_mid := [4052%N] |};
    {| d_open := [5010%N];  d_close := [5010%N];  d_mid := [5011%N] |};
    {| d_open := [41352%N]; d_close := [41352%N]; d_mid := [41648%N] |};
    {| d_open := [43612%N]; d_close := [43612%N]; d_mid := [43615%N] |};
    {| d_open := [42232%N]; d_close := [42232%N]; d_mid := [42233%N] |} ].

Definition SUFFIX_POOL : list jsstring :=
  [ [40856%N]; [38736%N]; [40777%N]; [40612%N]; [29224%N];
    [39531%N]; [40059%N]; [32692%N]; [29319%N]; [39561%N];
    [39133%N]; [21429%N]; [38727%N]; [39117%N]; [39339%N];
    [28773%N]; [21437%N]; [21458%N]; [21461%N]; [33428%N] ].

Record markers := {
  TC_START : jsstring;
  TC_END : jsstring;
  NAME_START : jsstring;
  NAME_END : jsstring;
  ARGS_START : jsstring;
  ARGS_END : jsstring;
  RESULT_START : jsstring;
  RESULT_END : jsstring
}.

(** [generateMarkers]: the three random draws are the arguments; each
    [Math.floor(Math.random() * xs.length)] selects a member of [xs]. *)
Definition generateMarkers (set : delimiter_set) (suffix1 suffix2 : jsstring)
  : markers :=
  {| TC_START := d_open set ++ suffix1 ++ [5125%N];
     TC_END := [5130%N] ++ suffix1 ++ d_close set;
     NAME_START := d_mid set ++ [9656%N];
     NAME_END := [9666%N] ++ d_mid set;
     ARGS_START := d_mid set ++ [9657%N];
     ARGS_END := [9667%N] ++ d_mid set;
     RESULT_START := d_open set ++ suffix2 ++ [10219%N];
     RESULT_END := [10218%N] ++ suffix2 ++ d_close set |}.

(** The marker records a process can start with. *)
Definition generated (m : markers) : Prop :=
  exists set suffix1 suffix2,
    In set DELIMITER_SETS /\ In suffix1 SUFFIX_POOL /\ In suffix2 SUFFIX_POOL /\
    m = generateMarkers set suffix1 suffix2.

Definition marker_list (m : markers) : list jsstring :=
  [ TC_START m; TC_END m; NAME_START m; NAME_END m;
    ARGS_START m; ARGS_END m; RESULT_START m; RESULT_END m ].

(* ================================================================== *)
(** * JSON values and the built-in [JSON.parse] *)
(* ================================================================== *)

(** A parsed JSON value.  A number keeps its lexeme: its numeric value is
    an IEEE double, which no function of the proxy inspects. *)
Inductive json :=
| JNull
| JBool (b : bool)
| JNum (lexeme : jsstring)
| JStr (s : jsstring)
| JArr (items : list json)
| JObj (fields : list (jsstring * json)).

(** The four white space characters of the JSON grammar. *)
Definition is_json_ws (c : N) : bool :=
  ((c =? 32) || (c =? 9) || (c =? 10) || (c =? 13))%N.

Fixpoint skip_ws (t : jsstring) : jsstring :=
  match t with
  | c :: t' => if is_json_ws c then skip_ws t' else t
  | [] => []
  end.

Definition is_digit (c : N) : bool := ((48 <=? c) && (c <=? 57))%N.

Definition hex_value (c : N) : option N :=
  if is_digit c then Some (c - 48)%N
  else if ((97 <=? c) && (c <=? 102))%N then Some (c - 87)%N
  else if ((65 <=? c) && (c <=? 70))%N then Some (c - 55)%N
  else None.

Definition hex4 (a b c d : N) : option N :=
  match hex_value a, hex_value b, hex_value c, hex_value d with
  | Some x, Some y, Some z, Some w => Some (((x * 16 + y) * 16 + z) * 16 + w)%N
  | _, _, _, _ => None
  end.

Definition escape_value (e : N) : option N :=
  if (e =? 34)%N then Some 34%N
  else if (e =? 92)%N then Some 92%N
  else if (e =? 47)%N then Some 47%N
  else if (e =? 98)%N then Some 8%N
  else if (e =? 102)%N then Some 12%N
  else if (e =? 110)%N then Some 10%N
  else if (e =? 114)%N then Some 13%N
  else if (e =? 116)%N then Some 9%N
  else None.

(** The characters of a string literal after its opening quote, up to and
    including the closing quote. *)
Fixpoint string_body (t : jsstring) : option (jsstring * jsstring) :=
  match t with
  | [] => None
  | c :: t' =>
      if (c =? 34)%N then Some ([], t')
      else if (c =? 92)%N then
        match t' with
        | e :: t'' =>
            if (e =? 117)%N then
              match t'' with
              | h1 :: h2 :: h3 :: h4 :: t4 =>
                  match hex4 h1 h2 h3 h4, string_body t4 with
                  | Some u, Some (s, r) => Some (u :: s, r)
                  | _, _ => None
                  end
              | _ => None
              end
            else
              match escape_value e, string_body t'' with
              | Some u, Some (s, r) => Some (u :: s, r)
              | _, _ => None
              end
        | [] => None
        end
      else if (c <? 32)%N then None
      else match string_body t' with
           | Some (s, r) => Some (c :: s, r)
           | None => None
           end
  end.

Fixpoint take_digits (t : jsstring) : jsstring * jsstring :=
  match t with
  | c :: t' =>
      if is_digit c then let (ds, r) := take_digits t' in (c :: ds, r)
      else ([], t)
  | [] => ([], [])
  end.

(** A number token: optional minus, then 0 or a non-zero digit followed by
    digits, then an optional fraction (a dot and one or more digits), then an
    optional exponent (e or E, an optional sign, one or more digits). *)
Definition number_lexeme (t : jsstring) : option (jsstring * jsstring) :=
  let (sign, t1) :=
    match t with
    | c :: t' => if (c =? 45)%N then ([c], t') else ([], t)
    | [] => ([], [])
    end in
  let int_part :=
    match t1 with
    | c :: t2 =>
        if (c =? 48)%N then Some ([c], t2)
        else if is_digit c then let (ds, r) := take_digits t2 in Some (c :: ds, r)
        else None
    | [] => None
    end in
  match int_part with
  | None => None
  | Some (ip, r1) =>
      let frac_part :=
        match r1 with
        | c :: r2 =>
            if (c =? 46)%N then
              match take_digits r2 with
              | ([], _) => None
              | (ds, r3) => Some (c :: ds, r3)
              end
            else Some ([], r1)
        | [] => Some ([], r1)
        end in
      match frac_part with
      | None => None
      | Some (fp, r3) =>
          let exp_part :=
            match r3 with
            | c :: r4 =>
                if ((c =? 101) || (c =? 69))%N then
                  let (es, r5) :=
                    match r4 with
                    | s :: r4' =>
                        if ((s =? 43) || (s =? 45))%N then ([s], r4') else ([], r4)
                    | [] => ([], [])
                    end in
                  match take_digits r5 with
                  | ([], _) => None
                  | (ds, r6) => Some (c :: es ++ ds, r6)
                  end
                else Some ([], r3)
            | [] => Some ([], r3)
            end in
          match exp_part with
          | None => None
          | Some (ep, r6) => Some (sign ++ ip ++ fp ++ ep, r6)
          end
      end
  end.

Definition keyword (w : string) (v : json) (t : jsstring)
  : option (json * jsstring) :=
  if startsWith (lit w) t then Some (v, skipn (String.length w) t) else None.

(** Recursive descent over the JSON grammar; [n] bounds the number of
    nested and sequenced calls. *)
Fixpoint json_value (n : nat) (t : jsstring) {struct n}
  : option (json * jsstring) :=
  match n with
  | 0 => None
  | S n' =>
      match skip_ws t with
      | [] => None
      | c :: r =>
          if (c =? 123)%N then
            match skip_ws r with
            | c2 :: r2 =>
                if (c2 =? 125)%N then Some (JObj [], r2)
                else json_members n' (c2 :: r2) []
            | [] => None
            end
          else if (c =? 91)%N then
            match skip_ws r with
            | c2 :: r2 =>
                if (c2 =? 93)%N then Some (JArr [], r2)
                else json_elements n' (c2 :: r2) []
            | [] => None
            end
          else if (c =? 34)%N then
            match string_body r with
            | Some (s, r') => Some (JStr s, r')
            | None => None
            end
          else if (c =? 116)%N then keyword "true" (JBool true) (c :: r)
          else if (c =? 102)%N then keyword "false" (JBool false) (c :: r)
          else if (c =? 110)%N then keyword "null" JNull (c :: r)
          else
            match number_lexeme (c :: r) with
            | Some (l, r') => Some (JNum l, r')
            | None => None
            end
      end
  end
with json_elements (n : nat) (t : jsstring) (acc : list json) {struct n}
  : option (json * jsstring) :=
  match n with
  | 0 => None
  | S n' =>
      match json_value n' t with
      | Some (v, r) =>
          match skip_ws r with
          | c :: r' =>
              if (c =? 44)%N then json_elements n' r' (v :: acc)
              else if (c =? 93)%N then Some (JArr (rev (v :: acc)), r')
              else None
          | [] => None
          end
      | None => None
      end
  end
with json_members (n : nat) (t : jsstring) (acc : list (jsstring * json))
  {struct n} : option (json * jsstring) :=
  match n with
  | 0 => None
  | S n' =>
      match skip_ws t with
      | c :: r =>
          if (c =? 34)%N then
            match string_body r with
            | Some (k, r1) =>
                match skip_ws r1 with
                | c1 :: r2 =>
                    if (c1 =? 58)%N then
                      match json_value n' r2 with
                      | Some (v, r3) =>
                          match skip_ws r3 with
                          | c3 :: r4 =>
                              if (c3 =? 44)%N then json_members n' r4 ((k, v) :: acc)
                              else if (c3 =? 125)%N then
                                Some (JObj (rev ((k, v) :: acc)), r4)
                              else None
                          | [] => None
                          end
                      | None => None
                      end
                    else None
                | [] => None
                end
            | None => None
            end
          else None
      | [] => None
      end
  end.

(** [JSON.parse(t)]: [None] when it throws a SyntaxError. *)
Definition JSON_parse (t : jsstring) : option json :=
  match json_value (2 * List.length t + 2) t with
  | Some (v, r) => if is_empty (skip_ws r) then Some v else None
  | None => None
  end.

(** Reading a named own property of a parsed value ([None]: undefined).
    A later duplicate key of an object literal overrides an earlier one. *)
Fixpoint lookup_last (k : jsstring) (fs : list (jsstring * json)) : option json :=
  match fs with
  | [] => None
  | (k', v) :: fs' =>
      match lookup_last k fs' with
      | Some v' => Some v'
      | None => if str_eqb k k' then Some v else None
      end
  end.

(** [v.name] for a name that is neither an index nor [length]. *)
Definition prop_named (v : json) (name : jsstring) : option json :=
  match v with
  | JObj fs => lookup_last name fs
  | _ => None
  end.

(** [v[0]] *)
Definition prop_index0 (v : json) : option json :=
  match v with
  | JArr xs => nth_error xs 0
  | JObj fs => lookup_last (lit "0") fs
  | JStr (c :: _) => Some (JStr [c])
  | _ => None
  end.

(** The optional-chaining step [x?.p]: undefined and null short-circuit. *)
Definition opt_chain (x : option json) (p : json -> option json) : option json :=
  match x with
  | None | Some JNull => None
  | Some v => p v
  end.

(* ================================================================== *)
(** * The host: clock and coercions of non-string values *)
(* ================================================================== *)

Definition fields := list (jsstring * json).

(** The TypeErrors that the code of the proxy can raise on parsed values:
    a value that cannot be converted to a primitive, a call of a method
    that the value does not have, a property read on null. *)
Inductive type_error :=
| CannotConvert
| NotAFunction
| NullProperty.

(** What the JavaScript engine supplies.  [now k] is the value of the
    [k]-th [Date.now()] read made by the transcoding code.  The numeric
    coercions work on IEEE doubles and [JSON.stringify] orders object keys
    by engine rules; they are left to the host, and so is the text of the
    [message] of a TypeError. *)
Class Host := {
  now : nat -> N;
  Number_toString : jsstring -> jsstring;
  Number_truthy : jsstring -> bool;
  JSON_stringify : json -> jsstring;
  TypeError_message : type_error -> jsstring
}.

(** The results of a list of computations, unless one of them throws. *)
Fixpoint all_some {A : Type} (l : list (option A)) : option (list A) :=
  match l with
  | [] => Some []
  | Some x :: l' =>
      match all_some l' with
      | Some xs => Some (x :: xs)
      | None => None
      end
  | None :: _ => None
  end.

(** [Object.hasOwn(o, name)] on the members of a parsed object. *)
Definition has_own (name : jsstring) (fs : fields) : bool :=
  match lookup_last name fs with
  | Some _ => true
  | None => false
  end.

(** The conversion to a string that string concatenation and template
    literals apply to a parsed value; [None] is the TypeError
    [CannotConvert].  A parsed object is converted by
    [Object.prototype.toString] unless it has an own property [toString]:
    a parsed value is never callable, so the conversion finds no method
    and throws.  A parsed array is converted by [Array.prototype.join],
    which renders null as empty and converts every other element. *)
Fixpoint ToString `{Host} (v : json) : option jsstring :=
  match v with
  | JNull => Some (lit "null")
  | JBool true => Some (lit "true")
  | JBool false => Some (lit "false")
  | JNum l => Some (Number_toString l)
  | JStr s => Some s
  | JArr xs =>
      option_map (join (lit ","))
        (all_some
           (map (fun x => match x with JNull => Some [] | _ => ToString x end) xs))
  | JObj fs =>
      if has_own (lit "toString") fs then None else Some (lit "[object Object]")
  end.

(** A property that may be absent: [None] as argument is undefined. *)
Definition value_text `{Host} (c : option json) : option jsstring :=
  match c with
  | None => Some (lit "undefined")
  | Some v => ToString v
  end.

(** [ToBoolean] *)
Definition truthy `{Host} (c : option json) : bool :=
  match c with
  | None => false
  | Some JNull => false
  | Some (JBool b) => b
  | Some (JNum l) => Number_truthy l
  | Some (JStr s) => negb (is_empty s)
  | Some (JArr _) => true
  | Some (JObj _) => true
  end.

(** [(c || '') + ...]: the text that [c || ''] contributes to a
    concatenation, [None] when its conversion throws. *)
Definition or_empty `{Host} (c : option json) : option jsstring :=
  if truthy c then value_text c else Some [].

(** [s || d] for an optional string property. *)
Definition str_or (s : option jsstring) (d : jsstring) : jsstring :=
  match s with
  | Some (c :: r) => c :: r
  | _ => d
  end.

(* ================================================================== *)
(** * The tool-call record and the delimiter-aware parser *)
(* ================================================================== *)

(** [{id, type, function: {name, arguments}}] *)
Record tool_call := {
  tc_id : jsstring;
  tc_type : jsstring;
  fn_name : jsstring;
  fn_arguments : jsstring
}.

(** The regular expression of [parse] uses three constructs: an escaped
    literal ([esc(marker)], which matches the marker itself: no marker
    holds a regex metacharacter), the greedy white space run [\s*] and the
    lazy capturing group [([\s\S]*?)]. *)
Inductive rx :=
| RxLit (s : jsstring)
| RxSpaces
| RxGroup.

Definition tool_regex (m : markers) : list rx :=
  [ RxLit (TC_START m); RxSpaces;
    RxLit (NAME_START m); RxGroup; RxLit (NAME_END m); RxSpaces;
    RxLit (ARGS_START m); RxGroup; RxLit (ARGS_END m); RxSpaces;
    RxLit (TC_END m) ].

(** Backtracking match of a pattern at the start of a text: the captures
    and the text left after the match.  A greedy run tries the longest
    white space prefix first; a lazy group tries the shortest capture
    first. *)
Fixpoint rx_match (p : list rx) : jsstring -> option (list jsstring * jsstring) :=
  match p with
  | [] => fun t => Some ([], t)
  | RxLit s :: p' =>
      fun t => match strip_prefix s t with
               | Some t' => rx_match p' t'
               | None => None
               end
  | RxSpaces :: p' =>
      fix spaces (t : jsstring) : option (list jsstring * jsstring) :=
        match t with
        | c :: t' =>
            if is_space c then
              match spaces t' with
              | Some r => Some r
              | None => rx_match p' t
              end
            else rx_match p' t
        | [] => rx_match p' []
        end
  | RxGroup :: p' =>
      fix lazy (t : jsstring) : option (list jsstring * jsstring) :=
        match rx_match p' t with
        | Some (caps, rest) => Some ([] :: caps, rest)
        | None =>
            match t with
            | c :: t' =>
                match lazy t' with
                | Some (cap :: caps, rest) => Some ((c :: cap) :: caps, rest)
                | _ => None
                end
            | [] => None
            end
        end
  end.

(** A left-to-right pass of a global regex over a text: the units outside
    every match and the captures of each match, in order.  [skip] counts
    the units of the current match still to pass (the regex's
    [lastIndex]).  No pattern used here matches the empty string. *)
Inductive segment :=
| SegUnit (c : N)
| SegMatch (caps : list jsstring).

Fixpoint scan (p : list rx) (skip : nat) (t : jsstring) : list segment :=
  match skip with
  | S k =>
      match t with
      | [] => []
      | _ :: t' => scan p k t'
      end
  | 0 =>
      match rx_match p t with
      | Some (caps, rest) =>
          SegMatch caps ::
            match t with
            | [] => []
            | _ :: t' => scan p (List.length t - List.length rest - 1) t'
            end
      | None =>
          match t with
          | [] => []
          | c :: t' => SegUnit c :: scan p 0 t'
          end
      end
  end.

(** The successive results of [regex.exec(content)] until null. *)
Fixpoint exec_all (segs : list segment) : list (list jsstring) :=
  match segs with
  | [] => []
  | SegMatch caps :: rest => caps :: exec_all rest
  | SegUnit _ :: rest => exec_all rest
  end.

(** [content.replace(regex, '')] *)
Fixpoint replace_all (segs : list segment) : jsstring :=
  match segs with
  | [] => []
  | SegMatch _ :: rest => replace_all rest
  | SegUnit c :: rest => c :: replace_all rest
  end.

(** The body of the [while] loop of [parse]: [k] is the count of clock
    reads made so far, [idx] the running index. *)
Fixpoint collect_calls `{Host} (k idx : nat) (ms : list (list jsstring))
  : list tool_call :=
  match ms with
  | [] => []
  | caps :: rest =>
      let name := trim (nth 0 caps []) in
      let argsStr := trim (nth 1 caps []) in
      match JSON_parse argsStr with
      | None => collect_calls k idx rest
      | Some _ =>
          {| tc_id := lit "call_" ++ dec (now k) ++ lit "_" ++ dec (N.of_nat idx);
             tc_type := lit "function";
             fn_name := name;
             fn_arguments := argsStr |}
          :: collect_calls (S k) (S idx) rest
      end
  end.

(** [ToolCallDelimiter.parse]: [(toolCalls, cleanContent)]. *)
Definition parse `{Host} (m : markers) (k : nat) (content : jsstring)
  : list tool_call * jsstring :=
  let segs := scan (tool_regex m) 0 content in
  (collect_calls k 0 (exec_all segs), trim (replace_all segs)).

(* ================================================================== *)
(** * The system prompt *)
(* ================================================================== *)

(** [{function: {name, description, parameters}}] *)
Record tool_spec := {
  t_name : jsstring;
  t_description : option jsstring;
  t_parameters : option json
}.

Definition describe_tool `{Host} (t : tool_spec) : jsstring :=
  lit "- **" ++ t_name t ++ lit "**: "
  ++ str_or (t_description t) (lit "No description") ++ [LF]
  ++ lit "  Parameters: "
  ++ match t_parameters t with
     | Some v => JSON_stringify v
     | None => lit "undefined"
     end.

Definition json_pair (k v : string) : jsstring :=
  [QUOTE] ++ lit k ++ [QUOTE] ++ lit ": " ++ [QUOTE] ++ lit v ++ [QUOTE].

Definition getSystemPrompt `{Host} (m : markers) (tools : list tool_spec)
  : jsstring :=
  [LF] ++ lit "## Tool Calling (AnyToolCall Protocol)" ++ [LF; LF]
  ++ lit "You have access to the following tools:" ++ [LF]
  ++ join [LF] (map describe_tool tools) ++ [LF; LF]
  ++ lit "### How to call tools" ++ [LF; LF]
  ++ lit "When you need to call a tool, use this EXACT format at the END of your response:"
  ++ [LF; LF]
  ++ TC_START m ++ [LF]
  ++ NAME_START m ++ lit "function_name" ++ NAME_END m ++ [LF]
  ++ ARGS_START m ++ lit "{" ++ json_pair "param" "value" ++ lit "}"
  ++ ARGS_END m ++ [LF]
  ++ TC_END m ++ [LF; LF]
  ++ lit "### Example" ++ [LF; LF]
  ++ lit "I'll search for that information:" ++ [LF; LF]
  ++ TC_START m ++ [LF]
  ++ NAME_START m ++ lit "web_search" ++ NAME_END m ++ [LF]
  ++ ARGS_START m ++ lit "{" ++ json_pair "query" "example" ++ lit ", "
  ++ [QUOTE] ++ lit "limit" ++ [QUOTE] ++ lit ": 5}" ++ ARGS_END m ++ [LF]
  ++ TC_END m ++ [LF; LF]
  ++ lit "### Rules" ++ [LF; LF]
  ++ lit "1. Tool calls MUST be at the END of your response" ++ [LF]
  ++ lit "2. Copy the delimiters EXACTLY as shown above" ++ [LF]
  ++ lit "3. Arguments must be valid JSON" ++ [LF]
  ++ lit "4. One tool per block" ++ [LF; LF]
  ++ lit "### Tool Results" ++ [LF; LF]
  ++ lit "Results appear in " ++ RESULT_START m ++ lit "..." ++ RESULT_END m
  ++ lit " blocks." ++ [LF].

(* ================================================================== *)
(** * Messages and the request transcoder *)
(* ================================================================== *)

(** A chat message.  [msg_content] is undefined ([None]), null, a string
    or another JSON value (content parts); [msg_extra] holds every other
    property. *)
Record message := {
  msg_role : jsstring;
  msg_content : option json;
  msg_tool_calls : option (list tool_call);
  msg_name : option jsstring;
  msg_tool_call_id : option jsstring;
  msg_extra : fields
}.

(** The object literal [{ role, content }]. *)
Definition plain_message (role content : jsstring) : message :=
  {| msg_role := role;
     msg_content := Some (JStr content);
     msg_tool_calls := None;
     msg_name := None;
     msg_tool_call_id := None;
     msg_extra := [] |}.

Definition set_content (msg : message) (content : jsstring) : message :=
  {| msg_role := msg_role msg;
     msg_content := Some (JStr content);
     msg_tool_calls := msg_tool_calls msg;
     msg_name := msg_name msg;
     msg_tool_call_id := msg_tool_call_id msg;
     msg_extra := msg_extra msg |}.

(** The loop of [mergeAdjacentMessages] from index [i] on, [current] being
    the message under construction; [merged.push(current)] puts it in
    front of what the rest of the loop produces.  [None]: a content that
    is concatenated cannot be converted and the function throws. *)
Fixpoint merge_from `{Host} (current : message) (rest : list message)
  : option (list message) :=
  match rest with
  | [] => Some [current]
  | msg :: rest' =>
      if str_eqb (msg_role msg) (msg_role current) then
        match or_empty (msg_content current), or_empty (msg_content msg) with
        | Some a, Some b =>
            merge_from (set_content current (a ++ [LF; LF] ++ b)) rest'
        | _, _ => None
        end
      else
        match merge_from msg rest' with
        | Some merged => Some (current :: merged)
        | None => None
        end
  end.

Definition mergeAdjacentMessages `{Host} (messages : list message)
  : option (list message) :=
  match messages with
  | [] => Some []
  | first :: rest => merge_from first rest
  end.

Record request := {
  req_messages : list message;
  req_tools : option (list tool_spec);
  req_tool_choice : option json;
  req_extra : fields
}.

(** The delimited text of one tool call of an assistant turn. *)
Definition encode_call (m : markers) (tc : tool_call) : jsstring :=
  [LF] ++ TC_START m ++ [LF]
  ++ NAME_START m ++ fn_name tc ++ NAME_END m ++ [LF]
  ++ ARGS_START m ++ fn_arguments tc ++ ARGS_END m ++ [LF]
  ++ TC_END m.

(** [for (const tc of msg.tool_calls) content += ...] *)
Definition encode_calls (m : markers) (tcs : list tool_call) : jsstring :=
  concat (map (encode_call m) tcs).

(** [msg.tool_calls?.length] as a condition. *)
Definition has_tool_calls (msg : message) : bool :=
  match msg_tool_calls msg with
  | Some (_ :: _) => true
  | _ => false
  end.

(** One iteration of the loop over [request.messages]: the message
    pushed, or [None] when the content of a system message or of an
    assistant message with tool calls cannot be converted and the
    concatenation throws. *)
Definition rewrite_message `{Host} (m : markers) (hasTools : bool)
  (toolSystemPrompt : jsstring) (msg : message) : option message :=
  if str_eqb (msg_role msg) (lit "system") then
    match value_text (msg_content msg) with
    | Some text =>
        Some (plain_message (lit "system")
                (text ++ (if is_empty toolSystemPrompt then []
                          else [LF; LF] ++ toolSystemPrompt)))
    | None => None
    end
  else if str_eqb (msg_role msg) (lit "assistant") && has_tool_calls msg then
    let tcs := match msg_tool_calls msg with Some l => l | None => [] end in
    match or_empty (msg_content msg) with
    | Some content =>
        Some (plain_message (lit "assistant")
                (if hasTools then content ++ encode_calls m tcs
                 else content ++ [LF; LF] ++ lit "[Called tools: "
                      ++ join (lit ", ") (map fn_name tcs) ++ lit "]"))
    | None => None
    end
  else if str_eqb (msg_role msg) (lit "tool") then
    let name := str_or (msg_name msg) (str_or (msg_tool_call_id msg) (lit "unknown")) in
    let result :=
      match msg_content msg with
      | Some (JStr s) => s
      | Some v => JSON_stringify v
      | None => lit "undefined"
      end in
    Some (plain_message (lit "user")
            (if hasTools then
               RESULT_START m ++ lit "[" ++ name ++ lit "]" ++ [LF] ++ result
               ++ RESULT_END m
             else lit "[Result from " ++ name ++ lit "]:" ++ [LF] ++ result))
  else Some msg.

(** [transformRequest]: the new request, or [None] when the loop over the
    messages or the merge throws. *)
Definition transformRequest `{Host} (m : markers) (req : request)
  (hasTools : bool) : option request :=
  let tools := match req_tools req with Some l => l | None => [] end in
  let toolSystemPrompt :=
    if hasTools && negb (Nat.eqb (List.length tools) 0)
    then getSystemPrompt m tools else [] in
  match all_some (map (rewrite_message m hasTools toolSystemPrompt)
                    (req_messages req)) with
  | None => None
  | Some messages =>
      let hasSystem :=
        existsb (fun msg => str_eqb (msg_role msg) (lit "system"))
          (req_messages req) in
      let messages :=
        if negb hasSystem && negb (is_empty toolSystemPrompt)
        then plain_message (lit "system") toolSystemPrompt :: messages
        else messages in
      match mergeAdjacentMessages messages with
      | None => None
      | Some merged =>
          Some {| req_messages := merged;
                  req_tools := None;
                  req_tool_choice := None;
                  req_extra := req_extra req |}
      end
  end.

(* ================================================================== *)
(** * The streaming transformer *)
(* ================================================================== *)

(** The [delta] object of an emitted chunk. *)
Inductive delta :=
| DeltaContent (text : jsstring)
| DeltaToolCalls (index : nat) (tc : tool_call)
| DeltaEmpty.

(** The object serialised after [data: ] in an emitted frame; [object] is
    always [chat.completion.chunk] and the choice index always 0. *)
Record chunk := {
  ck_id : jsstring;
  ck_created : N;
  ck_delta : delta;
  ck_finish_reason : option jsstring
}.

(** What is pushed downstream: a chunk frame or the sentinel frame. *)
Inductive sse_out :=
| OutChunk (c : chunk)
| OutDone.

Definition make_chunk `{Host} (k : nat) (d : delta) (fr : option jsstring)
  : chunk :=
  {| ck_id := lit "chatcmpl-" ++ dec (now k);
     ck_created := (now (S k) / 1000)%N;
     ck_delta := d;
     ck_finish_reason := fr |}.

(** [textChunk]: null for an empty text.  A chunk reads the clock twice. *)
Definition textChunk `{Host} (k : nat) (text : jsstring) : option chunk :=
  if is_empty text then None else Some (make_chunk k (DeltaContent text) None).

(** [toolCallChunks]: one frame per call, [i] being its array index. *)
Fixpoint toolCallChunks_from `{Host} (k i : nat) (tcs : list tool_call)
  : list chunk :=
  match tcs with
  | [] => []
  | tc :: rest =>
      make_chunk k (DeltaToolCalls i tc) None
      :: toolCallChunks_from (2 + k) (S i) rest
  end.

Definition toolCallChunks `{Host} (k : nat) (tcs : list tool_call) : list chunk :=
  toolCallChunks_from k 0 tcs.

Definition finishChunk `{Host} (k : nat) (reason : jsstring) : chunk :=
  make_chunk k DeltaEmpty (Some reason).

(** The closure state of [createStreamTransformer]; [ticks] counts the
    clock reads made so far. *)
Record stream_state := {
  lineBuffer : jsstring;
  contentBuffer : jsstring;
  isBuffering : bool;
  pendingText : jsstring;
  streamEnded : bool;
  ticks : nat
}.

(** The state at creation, [k] clock reads having been made before. *)
Definition initial_state (k : nat) : stream_state :=
  {| lineBuffer := []; contentBuffer := []; isBuffering := false;
     pendingText := []; streamEnded := false; ticks := k |}.

(** [const tc = textChunk(text); if (tc) push(tc);] *)
Definition push_text `{Host} (k : nat) (text : jsstring) : nat * list sse_out :=
  match textChunk k text with
  | Some c => (2 + k, [OutChunk c])
  | None => (k, [])
  end.

(** The statements shared by the [DONE] branch of [processLine] and by
    [flush]: flush [pendingText], settle [contentBuffer], push the
    sentinel.  The result is the new clock count and the frames pushed. *)
Definition settle `{Host} (m : markers) (st : stream_state) : nat * list sse_out :=
  let (k1, out1) :=
    if is_empty (pendingText st) then (ticks st, [])
    else push_text (ticks st) (pendingText st) in
  let (k2, out2) :=
    if is_empty (contentBuffer st) then
      (2 + k1, [OutChunk (finishChunk k1 (lit "stop"))])
    else
      let (toolCalls, cleanContent) := parse m k1 (contentBuffer st) in
      let ka := List.length toolCalls + k1 in
      let (kb, outb) :=
        if is_empty cleanContent then (ka, []) else push_text ka cleanContent in
      match toolCalls with
      | _ :: _ =>
          let kc := 2 * List.length toolCalls + kb in
          (2 + kc,
           outb ++ map OutChunk (toolCallChunks kb toolCalls)
           ++ [OutChunk (finishChunk kc (lit "tool_calls"))])
      | [] => (2 + kb, outb ++ [OutChunk (finishChunk kb (lit "stop"))])
      end in
  (k2, out1 ++ out2 ++ [OutDone]).

(** [parsed.choices?.[0]?.delta?.content]; the outer [None] is the
    TypeError of reading a property of null. *)
Definition delta_content (parsed : json) : option (option json) :=
  match parsed with
  | JNull => None
  | _ =>
      let choices := prop_named parsed (lit "choices") in
      let first := opt_chain choices prop_index0 in
      let delta := opt_chain first (fun v => prop_named v (lit "delta")) in
      Some (opt_chain delta (fun v => prop_named v (lit "content")))
  end.

(** The text handling of [processLine] for a content that is neither
    undefined nor null. *)
Definition handle_content `{Host} (m : markers) (st : stream_state)
  (content : jsstring) : stream_state * list sse_out :=
  let startMarker := TC_START m in
  if isBuffering st then
    ({| lineBuffer := lineBuffer st;
        contentBuffer := contentBuffer st ++ content;
        isBuffering := true;
        pendingText := pendingText st;
        streamEnded := streamEnded st;
        ticks := ticks st |}, [])
  else
    let combined := pendingText st ++ content in
    match indexOf startMarker combined with
    | Some startIdx =>
        let before := slice_to startIdx combined in
        let (k, out) :=
          if is_empty before then (ticks st, []) else push_text (ticks st) before in
        ({| lineBuffer := lineBuffer st;
            contentBuffer := slice_from startIdx combined;
            isBuffering := true;
            pendingText := [];
            streamEnded := streamEnded st;
            ticks := k |}, out)
    | None =>
        if includes (char_at0 startMarker) combined then
          ({| lineBuffer := lineBuffer st;
              contentBuffer := contentBuffer st;
              isBuffering := false;
              pendingText := combined;
              streamEnded := streamEnded st;
              ticks := ticks st |}, [])
        else
          let (k, out) := push_text (ticks st) combined in
          ({| lineBuffer := lineBuffer st;
              contentBuffer := contentBuffer st;
              isBuffering := false;
              pendingText := [];
              streamEnded := streamEnded st;
              ticks := k |}, out)
    end.

(** [processLine(line, push)]: the new state and the frames pushed, or
    [None] when the line makes it throw: its JSON is null, or its content
    cannot be converted to a string when it is concatenated. *)
Definition processLine `{Host} (m : markers) (st : stream_state) (line : jsstring)
  : option (stream_state * list sse_out) :=
  let trimmed := trim line in
  if is_empty trimmed then Some (st, [])
  else if str_eqb trimmed (lit "data: [DONE]") then
    let (k, out) := settle m st in
    Some ({| lineBuffer := lineBuffer st;
             contentBuffer := [];
             isBuffering := isBuffering st;
             pendingText := [];
             streamEnded := true;
             ticks := k |}, out)
  else if negb (startsWith (lit "data: ") trimmed) then Some (st, [])
  else
    match JSON_parse (skipn 6 trimmed) with
    | None => Some (st, [])
    | Some parsed =>
        match delta_content parsed with
        | None => None
        | Some None => Some (st, [])
        | Some (Some JNull) => Some (st, [])
        | Some (Some v) =>
            match ToString v with
            | Some content => Some (handle_content m st content)
            | None => None
            end
        end
    end.

(** [for (const line of lines) processLine(line, push);] *)
Fixpoint process_lines `{Host} (m : markers) (st : stream_state)
  (lines : list jsstring) : option (stream_state * list sse_out) :=
  match lines with
  | [] => Some (st, [])
  | line :: rest =>
      match processLine m st line with
      | None => None
      | Some (st1, out1) =>
          match process_lines m st1 rest with
          | None => None
          | Some (st2, out2) => Some (st2, out1 ++ out2)
          end
      end
  end.

Definition set_lineBuffer (st : stream_state) (b : jsstring) : stream_state :=
  {| lineBuffer := b;
     contentBuffer := contentBuffer st;
     isBuffering := isBuffering st;
     pendingText := pendingText st;
     streamEnded := streamEnded st;
     ticks := ticks st |}.

(** [transform(chunk, encoding, callback)] *)
Definition transform `{Host} (m : markers) (st : stream_state) (chunk : jsstring)
  : option (stream_state * list sse_out) :=
  let lines := split LF (lineBuffer st ++ chunk) in
  process_lines m (set_lineBuffer st (last lines [])) (removelast lines).

(** [flush(callback)] *)
Definition flush `{Host} (m : markers) (st : stream_state)
  : option (list sse_out) :=
  if streamEnded st then Some []
  else
    match (if is_empty (lineBuffer st) then Some (st, [])
           else processLine m st (lineBuffer st)) with
    | None => None
    | Some (st1, out1) =>
        let (_, out2) := settle m st1 in
        Some (out1 ++ out2)
    end.

(** The reader loop of [handleRequest]: every upstream chunk is written to
    the transformer, then the transformer is ended. *)
Fixpoint write_all `{Host} (m : markers) (st : stream_state)
  (chunks : list jsstring) : option (stream_state * list sse_out) :=
  match chunks with
  | [] => Some (st, [])
  | c :: rest =>
      match transform m st c with
      | None => None
      | Some (st1, out1) =>
          match write_all m st1 rest with
          | None => None
          | Some (st2, out2) => Some (st2, out1 ++ out2)
          end
      end
  end.

Definition run_stream `{Host} (m : markers) (k : nat) (chunks : list jsstring)
  : option (list sse_out) :=
  match write_all m (initial_state k) chunks with
  | None => None
  | Some (st, out1) =>
      match flush m st with
      | None => None
      | Some out2 => Some (out1 ++ out2)
      end
  end.

(* ================================================================== *)
(** * The HTTP edge *)
(* ================================================================== *)

(** What the network supplies: the WHATWG URL parser ([protocol] and
    [hostname] of the parsed URL, [None] when the constructor throws), the
    resolver ([None] when [dns.lookup] rejects) and the upstream. *)
Record parsed_url := { protocol : jsstring; hostname : jsstring }.

Record fetch_call := {
  f_url : jsstring;
  f_method : jsstring;
  f_headers : list (jsstring * jsstring);
  f_body : option request
}.

(** An upstream response: [up_json] is the parsed value that
    [upstreamRes.json()] resolves to, or the message of its rejection. *)
Record upstream_response := {
  up_ok : bool;
  up_status : nat;
  up_text : jsstring;
  up_json : json + jsstring;
  up_chunks : list jsstring
}.

Class Network := {
  URL_parse : jsstring -> option parsed_url;
  dns_lookup : jsstring -> option jsstring;
  fetch : fetch_call -> upstream_response + jsstring
}.

Inductive validation :=
| Valid
| Invalid (error : jsstring).

Fixpoint codes_uint (s : jsstring) : option Decimal.uint :=
  match s with
  | [] => Some Decimal.Nil
  | c :: s' =>
      match codes_uint s' with
      | None => None
      | Some u =>
          if (c =? 48)%N then Some (Decimal.D0 u)
          else if (c =? 49)%N then Some (Decimal.D1 u)
          else if (c =? 50)%N then Some (Decimal.D2 u)
          else if (c =? 51)%N then Some (Decimal.D3 u)
          else if (c =? 52)%N then Some (Decimal.D4 u)
          else if (c =? 53)%N then Some (Decimal.D5 u)
          else if (c =? 54)%N then Some (Decimal.D6 u)
          else if (c =? 55)%N then Some (Decimal.D7 u)
          else if (c =? 56)%N then Some (Decimal.D8 u)
          else if (c =? 57)%N then Some (Decimal.D9 u)
          else None
      end
  end.

(** [Number(part)] on a part of a resolved address: the value of a run of
    decimal digits (0 for the empty string).  Any other part of an address
    text holds a colon or a hexadecimal letter and converts to NaN
    ([None]), which equals no number. *)
Definition Number_of (part : jsstring) : option N :=
  option_map N.of_uint (codes_uint part).

Definition num_is (x : option N) (n : N) : bool :=
  match x with Some v => N.eqb v n | None => false end.

Definition num_between (x : option N) (lo hi : N) : bool :=
  match x with Some v => N.leb lo v && N.leb v hi | None => false end.

(** The private-range checks on [address.split('.').map(Number)]. *)
Definition private_range (address : jsstring) : option jsstring :=
  let parts := map Number_of (split 46%N address) in
  if Nat.eqb (List.length parts) 4 then
    let p0 := nth 0 parts None in
    let p1 := nth 1 parts None in
    if num_is p0 10 then Some (lit "Private IP range (10.x.x.x) denied")
    else if num_is p0 172 && num_between p1 16 31
    then Some (lit "Private IP range (172.16-31.x.x) denied")
    else if num_is p0 192 && num_is p1 168
    then Some (lit "Private IP range (192.168.x.x) denied")
    else if num_is p0 127 then Some (lit "Loopback IP denied")
    else None
  else None.

Definition one_of (x : jsstring) (xs : list jsstring) : bool :=
  existsb (str_eqb x) xs.

(** [validateUpstream]; [ALLOW_LOCAL_NET] is the configuration flag. *)
Definition validateUpstream `{Network} (ALLOW_LOCAL_NET : bool)
  (upstreamUrl : option jsstring) : validation :=
  match upstreamUrl with
  | None | Some [] => Invalid (lit "Missing upstream URL")
  | Some u =>
      match URL_parse u with
      | None => Invalid (lit "Invalid URL format")
      | Some parsed =>
          if negb (one_of (protocol parsed) [lit "http:"; lit "https:"]) then
            Invalid (lit "Invalid protocol (http/https only)")
          else if ALLOW_LOCAL_NET then Valid
          else if one_of (hostname parsed)
                    [lit "localhost"; lit "127.0.0.1"; lit "::1"; lit "0.0.0.0"]
          then Invalid (lit "Localhost access denied (Set ALLOW_LOCAL_NET=true to enable)")
          else
            match dns_lookup (hostname parsed) with
            | None => Valid
            | Some address =>
                match private_range address with
                | Some error => Invalid error
                | None => Valid
                end
            end
      end
  end.

Definition is_line_terminator (c : N) : bool :=
  ((c =? 10) || (c =? 13) || (c =? 8232) || (c =? 8233))%N.

(** [extractUpstream]: the regex is a slash, then [http://] or [https://]
    followed by one or more units that are not line terminators, up to the
    end of the input. *)
Definition extractUpstream (reqUrl : jsstring) : option jsstring :=
  match reqUrl with
  | c :: u =>
      if negb (c =? 47)%N then None
      else
        let tail :=
          match strip_prefix (lit "https://") u with
          | Some r => Some r
          | None => strip_prefix (lit "http://") u
          end in
        match tail with
        | Some (x :: r) =>
            if existsb is_line_terminator (x :: r) then None else Some u
        | _ => None
        end
  | [] => None
  end.

(** [o.name = v] on the members of a parsed object: the value of an
    existing property is replaced where it stands, a new property comes
    last. *)
Definition set_prop (name : jsstring) (v : json) (fs : fields) : fields :=
  if has_own name fs then
    map (fun p => if str_eqb name (fst p) then (fst p, v) else p) fs
  else fs ++ [(name, v)].

(** [o.name = v] *)
Definition assign (name : jsstring) (v : json) (o : json) : json :=
  match o with
  | JObj fs => JObj (set_prop name v fs)
  | _ => o
  end.

(** The value [o] after an assignment made through [o.name], when
    [o.name] is the object that [f] changes. *)
Definition update_prop (name : jsstring) (f : json -> json) (o : json) : json :=
  match o with
  | JObj fs =>
      match lookup_last name fs with
      | Some x => JObj (set_prop name (f x) fs)
      | None => o
      end
  | _ => o
  end.

(** The same through [o[0]]. *)
Definition update_index0 (f : json -> json) (o : json) : json :=
  match o with
  | JArr (x :: xs) => JArr (f x :: xs)
  | JObj fs =>
      match lookup_last (lit "0") fs with
      | Some x => JObj (set_prop (lit "0") (f x) fs)
      | None => o
      end
  | _ => o
  end.

(** A tool call of [parse] as a value of the response. *)
Definition tool_call_json (tc : tool_call) : json :=
  JObj [ (lit "id", JStr (tc_id tc));
         (lit "type", JStr (tc_type tc));
         (lit "function",
          JObj [ (lit "name", JStr (fn_name tc));
                 (lit "arguments", JStr (fn_arguments tc)) ]) ].

(** [data.choices?.[0]?.message?.content] for a [data] that is not
    null. *)
Definition message_content (data : json) : option json :=
  let choices := prop_named data (lit "choices") in
  let first := opt_chain choices prop_index0 in
  let message := opt_chain first (fun v => prop_named v (lit "message")) in
  opt_chain message (fun v => prop_named v (lit "content")).

(** Part C of [handleRequest]: the rewrite of a non-streaming completion,
    or the TypeError thrown: [data] is null and [data.choices] is read; the
    content is truthy and not a string, and [parse] converts it for
    [regex.exec] and then calls its [replace]. *)
Definition rewrite_completion `{Host} (m : markers) (k : nat) (hasTools : bool)
  (data : json) : json + type_error :=
  if negb hasTools then inl data
  else
    match data with
    | JNull => inr NullProperty
    | _ =>
        let content := message_content data in
        if truthy content then
          match content with
          | Some (JStr text) =>
              let (toolCalls, cleanContent) := parse m k text in
              match toolCalls with
              | _ :: _ =>
                  inl (update_prop (lit "choices")
                         (update_index0
                            (fun choice =>
                               assign (lit "finish_reason") (JStr (lit "tool_calls"))
                                 (update_prop (lit "message")
                                    (fun message =>
                                       assign (lit "content")
                                         (if is_empty cleanContent then JNull
                                          else JStr cleanContent)
                                         (assign (lit "tool_calls")
                                            (JArr (map tool_call_json toolCalls))
                                            message))
                                    choice)))
                         data)
              | [] => inl data
              end
          | Some v =>
              match ToString v with
              | Some _ => inr NotAFunction
              | None => inr CannotConvert
              end
          | None => inl data
          end
        else inl data
    end.

Record http_request := {
  originalUrl : jsstring;
  method : jsstring;
  h_authorization : option jsstring;
  h_x_api_key : option jsstring;
  h_anthropic_version : option jsstring;
  body : request
}.

(** What the client receives. *)
Inductive http_response :=
| RespError (status : nat) (message type : jsstring)
| RespText (status : nat) (text : jsstring)
| RespEvents (events : list sse_out)
| RespEventsFailed
| RespRaw (chunks : list jsstring)
| RespData (data : json).

Definition header (name : string) (v : option jsstring)
  : list (jsstring * jsstring) :=
  match v with
  | Some (c :: r) => [(lit name, c :: r)]
  | _ => []
  end.

Definition has_tool_history (messages : list message) : bool :=
  existsb (fun msg =>
             str_eqb (msg_role msg) (lit "tool")
             || (str_eqb (msg_role msg) (lit "assistant") && has_tool_calls msg))
    messages.

(** [handleRequest] with the two middlewares around it: the calls made to
    the upstream, in order, and the response sent.  [transformRequest]
    runs before the [try]: when it throws, the error middleware answers
    500 and no call is made.  What is thrown inside the [try] is answered
    with 502.  [RespEventsFailed] stands for a transformer that threw,
    whose effect on the open response is left to the stream library. *)
Definition handleRequest `{Host} `{Network} (m : markers) (ALLOW_LOCAL_NET : bool)
  (req : http_request) : list fetch_call * http_response :=
  let upstream := extractUpstream (originalUrl req) in
  match validateUpstream ALLOW_LOCAL_NET upstream with
  | Invalid error =>
      ([], RespError 403 (lit "Access denied: " ++ error) (lit "security_error"))
  | Valid =>
      let upstream := match upstream with Some u => u | None => [] end in
      let isChatCompletions := includes (lit "/chat/completions") upstream in
      let hasTools :=
        isChatCompletions &&
        match req_tools (body req) with Some (_ :: _) => true | _ => false end in
      let isStream :=
        match lookup_last (lit "stream") (req_extra (body req)) with
        | Some (JBool true) => true
        | _ => false
        end in
      let hasToolHistory := has_tool_history (req_messages (body req)) in
      let needsTransform := isChatCompletions && (hasTools || hasToolHistory) in
      match (if needsTransform then transformRequest m (body req) hasTools
             else Some (body req)) with
      | None =>
          ([], RespError 500 (TypeError_message CannotConvert) (lit "server_error"))
      | Some body' =>
      let call :=
        {| f_url := upstream;
           f_method := method req;
           f_headers :=
             header "Authorization" (h_authorization req)
             ++ header "x-api-key" (h_x_api_key req)
             ++ header "anthropic-version" (h_anthropic_version req)
             ++ [(lit "Content-Type", lit "application/json")];
           f_body :=
             if one_of (method req) [lit "GET"; lit "HEAD"] then None
             else Some body' |} in
      match fetch call with
      | inr message => ([call], RespError 502 message (lit "proxy_error"))
      | inl upstreamRes =>
          if negb (up_ok upstreamRes) then
            ([call], RespText (up_status upstreamRes) (up_text upstreamRes))
          else if isStream && hasTools then
            match run_stream m 0 (up_chunks upstreamRes) with
            | Some events => ([call], RespEvents events)
            | None => ([call], RespEventsFailed)
            end
          else if isStream then ([call], RespRaw (up_chunks upstreamRes))
          else
            match up_json upstreamRes with
            | inr message => ([call], RespError 502 message (lit "proxy_error"))
            | inl data =>
                match rewrite_completion m 0 hasTools data with
                | inl out => ([call], RespData out)
                | inr e =>
                    ([call], RespError 502 (TypeError_message e) (lit "proxy_error"))
                end
            end
      end
      end
  end.

(* ================================================================== *)
(** * Vocabulary of the properties *)
(* ================================================================== *)

(** A unit that is one code point outside ASCII: at least 128 and not a
    surrogate. *)
Definition non_ascii_point (c : N) : bool :=
  ((128 <=? c) && negb ((55296 <=? c) && (c <=? 57343)))%N.

(** The marker invariant as a decidable check on the eight markers. *)
Definition marker_check (ms : list jsstring) : bool :=
  forallb (fun a => (2 <=? List.length a) && forallb non_ascii_point a) ms
  && forallb
       (fun i =>
          forallb
            (fun j => Nat.eqb i j || negb (startsWith (nth i ms []) (nth j ms [])))
            (seq 0 (List.length ms)))
       (seq 0 (List.length ms)).

(** A pattern no proper non-empty prefix of which is also its suffix. *)
Definition unbordered (p : jsstring) : bool :=
  forallb
    (fun k => negb (str_eqb (firstn k p) (skipn (List.length p - k) p)))
    (seq 1 (List.length p - 1)).

Definition starts_solid (p : jsstring) : bool :=
  match p with
  | c :: _ => negb (is_space c)
  | [] => false
  end.

(** The facts about a marker record that the parser and the stream
    transformer rely on. *)
Definition markers_wf (m : markers) : bool :=
  unbordered (TC_START m) && unbordered (NAME_END m) && unbordered (ARGS_END m)
  && starts_solid (TC_START m) && starts_solid (NAME_START m)
  && starts_solid (ARGS_START m) && starts_solid (TC_END m)
  && Nat.eqb (List.length (TC_START m)) 3.

Definition all_choices (check : markers -> bool) : bool :=
  forallb
    (fun set =>
       forallb
         (fun s1 => forallb (fun s2 => check (generateMarkers set s1 s2)) SUFFIX_POOL)
         SUFFIX_POOL)
    DELIMITER_SETS.

(** A delimiter envelope: the text the regex of [parse] is written for,
    with white space runs [w1], [w2], [w3] between its parts. *)
Definition envelope (m : markers) (w1 w2 w3 name args : jsstring) : jsstring :=
  TC_START m ++ w1 ++ NAME_START m ++ name ++ NAME_END m ++ w2
  ++ ARGS_START m ++ args ++ ARGS_END m ++ w3 ++ TC_END m.

Definition all_space (w : jsstring) : bool := forallb is_space w.

(** The envelope as [transformRequest] writes it, after the separating
    line feed. *)
Definition encoded_envelope (m : markers) (name args : jsstring) : jsstring :=
  envelope m [LF] [LF] [LF] name args.

(** No two consecutive messages share a role. *)
Fixpoint adjacent_distinct (l : list message) : bool :=
  match l with
  | a :: (b :: _) as rest =>
      negb (str_eqb (msg_role a) (msg_role b)) && adjacent_distinct rest
  | _ => true
  end.

(** The tool name of a tool message, read as the words of the
    specification put it: the [name] field when present, otherwise the
    [tool_call_id], otherwise [unknown]. *)
Definition claimed_tool_name (msg : message) : jsstring :=
  match msg_name msg with
  | Some n => n
  | None =>
      match msg_tool_call_id msg with
      | Some i => i
      | None => lit "unknown"
      end
  end.

(** A request without its [tools] and [tool_choice] properties. *)
Definition without_tools (req : request) : request :=
  {| req_messages := req_messages req;
     req_tools := None;
     req_tool_choice := None;
     req_extra := req_extra req |}.

Definition declares_no_tools (req : request) : bool :=
  match req_tools req with
  | Some (_ :: _) => false
  | _ => true
  end.

(** The text that a conversion gives when it does not throw. *)
Definition text_of (r : option jsstring) : jsstring :=
  match r with
  | Some s => s
  | None => []
  end.

Definition value_text_pure `{Host} (c : option json) : jsstring :=
  text_of (value_text c).

Definition or_empty_pure `{Host} (c : option json) : jsstring :=
  text_of (or_empty c).

(** What [mergeAdjacentMessages], [rewrite_message] and [transformRequest]
    return when they return: the same computations with every conversion
    taken as done. *)
Fixpoint merge_from_pure `{Host} (current : message) (rest : list message)
  : list message :=
  match rest with
  | [] => [current]
  | msg :: rest' =>
      if str_eqb (msg_role msg) (msg_role current) then
        merge_from_pure
          (set_content current
             (or_empty_pure (msg_content current) ++ [LF; LF]
              ++ or_empty_pure (msg_content msg)))
          rest'
      else current :: merge_from_pure msg rest'
  end.

Definition mergeAdjacentMessages_pure `{Host} (messages : list message)
  : list message :=
  match messages with
  | [] => []
  | first :: rest => merge_from_pure first rest
  end.

Definition rewrite_message_pure `{Host} (m : markers) (hasTools : bool)
  (toolSystemPrompt : jsstring) (msg : message) : message :=
  if str_eqb (msg_role msg) (lit "system") then
    plain_message (lit "system")
      (value_text_pure (msg_content msg)
       ++ (if is_empty toolSystemPrompt then []
           else [LF; LF] ++ toolSystemPrompt))
  else if str_eqb (msg_role msg) (lit "assistant") && has_tool_calls msg then
    let tcs := match msg_tool_calls msg with Some l => l | None => [] end in
    let content := or_empty_pure (msg_content msg) in
    plain_message (lit "assistant")
      (if hasTools then content ++ encode_calls m tcs
       else content ++ [LF; LF] ++ lit "[Called tools: "
            ++ join (lit ", ") (map fn_name tcs) ++ lit "]")
  else
    match rewrite_message m hasTools toolSystemPrompt msg with
    | Some out => out
    | None => msg
    end.

Definition transformRequest_pure `{Host} (m : markers) (req : request)
  (hasTools : bool) : request :=
  let tools := match req_tools req with Some l => l | None => [] end in
  let toolSystemPrompt :=
    if hasTools && negb (Nat.eqb (List.length tools) 0)
    then getSystemPrompt m tools else [] in
  let messages :=
    map (rewrite_message_pure m hasTools toolSystemPrompt) (req_messages req) in
  let hasSystem :=
    existsb (fun msg => str_eqb (msg_role msg) (lit "system")) (req_messages req) in
  let messages :=
    if negb hasSystem && negb (is_empty toolSystemPrompt)
    then plain_message (lit "system") toolSystemPrompt :: messages
    else messages in
  {| req_messages := mergeAdjacentMessages_pure messages;
     req_tools := None;
     req_tool_choice := None;
     req_extra := req_extra req |}.

(** [toolSystemPrompt] in [transformRequest]. *)
Definition tool_prompt `{Host} (m : markers) (req : request) (hasTools : bool)
  : jsstring :=
  let tools := match req_tools req with Some l => l | None => [] end in
  if hasTools && negb (Nat.eqb (List.length tools) 0)
  then getSystemPrompt m tools else [].

(** A content that can be converted to a string: it holds no object with
    an own property [toString]. *)
Definition convertible `{Host} (c : option json) : bool :=
  match value_text c with
  | Some _ => true
  | None => false
  end.

Definition convertible_request `{Host} (req : request) : bool :=
  forallb (fun msg => convertible (msg_content msg)) (req_messages req).

(** A host and a marker record to run the definitions on. *)
Definition sample_host : Host :=
  {| now := fun k => (1700000000000 + N.of_nat k)%N;
     Number_toString := fun l => l;
     Number_truthy := fun l => negb (str_eqb l (lit "0"));
     JSON_stringify := fun v => lit "{}";
     TypeError_message := fun e =>
       match e with
       | CannotConvert => lit "Cannot convert object to primitive value"
       | NotAFunction => lit "content.replace is not a function"
       | NullProperty => lit "Cannot read properties of null (reading 'choices')"
       end |}.

Definition sample_markers : markers :=
  generateMarkers {| d_open := [3858%N]; d_close := [3858%N]; d_mid := [4039%N] |}
    [40856%N] [40856%N].

Definition text_message (role content : string) : message :=
  plain_message (lit role) (lit content).

(** The user message written for a tool result. *)
Definition tool_result_message (m : markers) (hasTools : bool)
  (name result : jsstring) : message :=
  plain_message (lit "user")
    (if hasTools then
       RESULT_START m ++ lit "[" ++ name ++ lit "]" ++ [LF] ++ result
       ++ RESULT_END m
     else lit "[Result from " ++ name ++ lit "]:" ++ [LF] ++ result).

Definition absent_or_empty (s : option jsstring) : Prop :=
  s = None \/ s = Some [].

(** A tool message whose [name] is present and empty. *)
Definition empty_name_tool_message : message :=
  {| msg_role := lit "tool";
     msg_content := Some (JStr (lit "42"));
     msg_tool_calls := None;
     msg_name := Some [];
     msg_tool_call_id := Some (lit "call_1");
     msg_extra := [] |}.

(** Two user turns in a row, no tools, no tool history. *)
Definition two_user_turns : request :=
  {| req_messages := [text_message "user" "a"; text_message "user" "b"];
     req_tools := None;
     req_tool_choice := None;
     req_extra := [] |}.

Definition plain_chat : request :=
  {| req_messages := [text_message "system" "be brief"; text_message "user" "hi";
                      text_message "assistant" "hello"; text_message "user" "bye"];
     req_tools := Some [];
     req_tool_choice := Some (JStr (lit "auto"));
     req_extra := [(lit "model", JStr (lit "m1"))] |}.

(** The text of an IPv4 address with octets [a], [b], [c], [d]. *)
Definition dotted (a b c d : N) : jsstring :=
  dec a ++ [46%N] ++ dec b ++ [46%N] ++ dec c ++ [46%N] ++ dec d.

(** 10/8, 172.16/12, 192.168/16 and 127/8, by the first two octets. *)
Definition in_private_range (a b : N) : Prop :=
  a = 10%N \/ (a = 172%N /\ (16 <= b <= 31)%N) \/ (a = 192%N /\ b = 168%N)
  \/ a = 127%N.

(** Conditions under which the upstream is refused: the URL is missing
    or does not parse, its scheme is not http or https, its host name, as
    the URL parser returns it, is [localhost], [127.0.0.1] or [0.0.0.0], or
    its host resolves into a private range. *)
Definition refused `{Network} (upstream : option jsstring) : Prop :=
  match upstream with
  | None => True
  | Some u =>
      match URL_parse u with
      | None => True
      | Some parsed =>
          ~ In (protocol parsed) [lit "http:"; lit "https:"]
          \/ In (hostname parsed)
               [lit "localhost"; lit "127.0.0.1"; lit "0.0.0.0"]
          \/ exists a b c d,
               dns_lookup (hostname parsed) = Some (dotted a b c d)
               /\ in_private_range a b
      end
  end.

(** [data.choices?.[0]] and [data.choices?.[0]?.message]. *)
Definition first_choice (data : json) : option json :=
  opt_chain (prop_named data (lit "choices")) prop_index0.

Definition first_message (data : json) : option json :=
  opt_chain (first_choice data) (fun v => prop_named v (lit "message")).

(** A property of a value that may be missing. *)
Definition prop_of (o : option json) (name : string) : option json :=
  match o with
  | Some v => prop_named v (lit name)
  | None => None
  end.

(** Two values of [choices] with the same choices after the first. *)
Definition same_but_first (a b : option json) : Prop :=
  match a, b with
  | Some (JArr (_ :: xs)), Some (JArr (_ :: ys)) => xs = ys
  | Some (JObj fa), Some (JObj fb) =>
      forall name, name <> lit "0" -> lookup_last name fa = lookup_last name fb
  | _, _ => False
  end.

(** [out] is [data] with the tool calls of its first message extracted:
    when the content of the first message is a string in which the parser
    finds calls, they become [tool_calls], the content becomes the
    residual text or null, the finish reason becomes [tool_calls], and
    every other property of the message, of the choice and of the
    response, and every other choice, is that of [data]; otherwise [out]
    is [data]. *)
Definition extracted_from `{Host} (m : markers) (k : nat) (data out : json)
  : Prop :=
  match message_content data with
  | Some (JStr text) =>
      match parse m k text with
      | ([], _) => out = data
      | (toolCalls, cleanContent) =>
          prop_of (first_message out) "tool_calls"
          = Some (JArr (map tool_call_json toolCalls))
          /\ prop_of (first_message out) "content"
             = Some (if is_empty cleanContent then JNull else JStr cleanContent)
          /\ prop_of (first_choice out) "finish_reason"
             = Some (JStr (lit "tool_calls"))
          /\ (forall name, name <> lit "tool_calls" -> name <> lit "content" ->
                           opt_chain (first_message out)
                             (fun v => prop_named v name)
                           = opt_chain (first_message data)
                               (fun v => prop_named v name))
          /\ (forall name, name <> lit "message" -> name <> lit "finish_reason" ->
                           opt_chain (first_choice out)
                             (fun v => prop_named v name)
                           = opt_chain (first_choice data)
                               (fun v => prop_named v name))
          /\ same_but_first (prop_named out (lit "choices"))
               (prop_named data (lit "choices"))
          /\ (forall name, name <> lit "choices" ->
                           prop_named out name = prop_named data name)
      end
  | _ => out = data
  end.

(** The content of the first message is a string, or is absent or
    falsy. *)
Definition text_content `{Host} (data : json) : bool :=
  match message_content data with
  | Some (JStr _) => true
  | c => negb (truthy c)
  end.

(** A network to run the edge on: every URL parses to the given scheme
    and host, the resolver answers with one address, the upstream with one
    response. *)
Definition sample_network (scheme host : string) (address : option jsstring)
  (answer : upstream_response) : Network :=
  {| URL_parse := fun _ => Some {| protocol := lit scheme; hostname := lit host |};
     dns_lookup := fun _ => address;
     fetch := fun _ => inl answer |}.

Definition sample_call_text : jsstring :=
  lit "Sure." ++ [LF]
  ++ encoded_envelope sample_markers (lit "add")
       (lit "{" ++ [QUOTE] ++ lit "a" ++ [QUOTE] ++ lit ":1}").

Definition sample_completion : json :=
  JObj [ (lit "model", JStr (lit "m1"));
         (lit "choices",
          JArr [ JObj [ (lit "index", JNum (lit "0"));
                        (lit "message",
                         JObj [ (lit "role", JStr (lit "assistant"));
                                (lit "content", JStr sample_call_text) ]);
                        (lit "finish_reason", JStr (lit "stop")) ] ]) ].

(** A completion whose content is an array of parts. *)
Definition parts_completion : json :=
  JObj [ (lit "choices",
          JArr [ JObj [ (lit "message",
                         JObj [ (lit "role", JStr (lit "assistant"));
                                (lit "content",
                                 JArr [ JObj [ (lit "type", JStr (lit "text"));
                                               (lit "text", JStr (lit "hi")) ] ]) ]);
                        (lit "finish_reason", JStr (lit "stop")) ] ]) ].

Definition sample_answer : upstream_response :=
  {| up_ok := true; up_status := 200; up_text := [];
     up_json := inl sample_completion; up_chunks := [] |}.

(** A response to run the edge on, with a given JSON value. *)
Definition json_answer (data : json) : upstream_response :=
  {| up_ok := true; up_status := 200; up_text := [];
     up_json := inl data; up_chunks := [] |}.

(** A network as a request for [http://[::1]:8080/...] meets it: the URL
    parser gives the host name of an IPv6 literal with its brackets, the
    resolver rejects that name, the upstream answers. *)
Definition ipv6_network : Network :=
  {| URL_parse := fun _ => Some {| protocol := lit "http:";
                                   hostname := lit "[::1]" |};
     dns_lookup := fun _ => None;
     fetch := fun _ => inl sample_answer |}.

Definition sample_tool : tool_spec :=
  {| t_name := lit "add"; t_description := None; t_parameters := None |}.

Definition sample_http_request (url : string) : http_request :=
  {| originalUrl := lit url;
     method := lit "POST";
     h_authorization := Some (lit "Bearer k");
     h_x_api_key := None;
     h_anthropic_version := None;
     body := {| req_messages := [text_message "user" "add 1"];
                req_tools := Some [sample_tool];
                req_tool_choice := None;
                req_extra := [] |} |}.

(** A request whose system message has an object with a [toString]
    member as content. *)
Definition stubborn_http_request (url : string) : http_request :=
  {| originalUrl := lit url;
     method := lit "POST";
     h_authorization := Some (lit "Bearer k");
     h_x_api_key := None;
     h_anthropic_version := None;
     body := {| req_messages :=
                  [ {| msg_role := lit "system";
                       msg_content := Some (JObj [(lit "toString", JNum (lit "1"))]);
                       msg_tool_calls := None; msg_name := None;
                       msg_tool_call_id := None; msg_extra := [] |};
                    text_message "user" "add 1" ];
                req_tools := Some [sample_tool];
                req_tool_choice := None;
                req_extra := [] |} |}.

(** [content.replace(regex, '')] with the regex of [parse]. *)
Definition strip_calls (m : markers) (content : jsstring) : jsstring :=
  replace_all (scan (tool_regex m) 0 content).

(** The id given to the call pushed at index [idx] when the clock reads
    [t]. *)
Definition call_id (t : N) (idx : nat) : jsstring :=
  lit "call_" ++ dec t ++ lit "_" ++ dec (N.of_nat idx).

(** The function of a tool call with the white space around its name and
    its arguments removed. *)
Definition trimmed_function (tc : tool_call) : jsstring * jsstring :=
  (trim (fn_name tc), trim (fn_arguments tc)).

Definition function_of (tc : tool_call) : jsstring * jsstring :=
  (fn_name tc, fn_arguments tc).

(** A tool call whose encoding the regex reads back: the name holds no
    [NAME_END], the arguments hold no [ARGS_END], and the arguments without
    the white space around them are JSON. *)
Definition readable_call (m : markers) (tc : tool_call) : bool :=
  match indexOf (NAME_END m) (fn_name tc),
        indexOf (ARGS_END m) (fn_arguments tc),
        JSON_parse (trim (fn_arguments tc)) with
  | None, None, Some _ => true
  | _, _, _ => false
  end.

Definition sample_args : jsstring :=
  lit "{" ++ [QUOTE] ++ lit "a" ++ [QUOTE] ++ lit ":1}".

Definition make_call (name : string) (args : jsstring) : tool_call :=
  {| tc_id := lit "call_0"; tc_type := lit "function";
     fn_name := lit name; fn_arguments := args |}.

(** An envelope whose arguments are not JSON, between two texts. *)
Definition malformed_envelope : jsstring :=
  encoded_envelope sample_markers (lit "add") (lit "{oops}").

Definition malformed_text : jsstring :=
  lit "Sure." ++ [LF] ++ malformed_envelope ++ lit " Done.".

(** A tool call whose arguments are JSON followed by a line feed. *)
Definition padded_call : tool_call := make_call "add" (sample_args ++ [LF]).

Definition two_calls : list tool_call :=
  [make_call "add" sample_args; make_call " lookup" (lit " [1, 2] ")].

(** What a line of the upstream stream is to [processLine]. *)
Inductive line_kind :=
| LineBlank
| LineDone
| LineIgnored
| LineContent (content : jsstring)
| LineThrows.

(** The kind of a line: blank; the sentinel; a data line whose JSON holds
    a [delta.content] that is neither undefined nor null and can be
    converted to a string (the string is the content); a data line on
    which [processLine] throws: its JSON is null and reading [choices]
    throws, or its content cannot be converted; anything else is
    ignored. *)
Definition classify `{Host} (line : jsstring) : line_kind :=
  let trimmed := trim line in
  if is_empty trimmed then LineBlank
  else if str_eqb trimmed (lit "data: [DONE]") then LineDone
  else if negb (startsWith (lit "data: ") trimmed) then LineIgnored
  else
    match JSON_parse (skipn 6 trimmed) with
    | None => LineIgnored
    | Some parsed =>
        match delta_content parsed with
        | None => LineThrows
        | Some None => LineIgnored
        | Some (Some JNull) => LineIgnored
        | Some (Some v) =>
            match ToString v with
            | Some content => LineContent content
            | None => LineThrows
            end
        end
    end.

(** The [delta.content] strings of the upstream, in order. *)
Definition upstream_contents `{Host} (lines : list jsstring) : list jsstring :=
  flat_map (fun line => match classify line with
                        | LineContent c => [c]
                        | _ => []
                        end) lines.

Definition upstream_text `{Host} (chunks : list jsstring) : jsstring :=
  concat (upstream_contents (split LF (concat chunks))).

(** A line that [processLine] passes over: blank, or ignored (a comment,
    an event field, a data line without a content). *)
Definition is_silent `{Host} (line : jsstring) : bool :=
  match classify line with LineBlank | LineIgnored => true | _ => false end.

(** A well-formed upstream stream, as the lines of its text: no line makes
    [processLine] throw, and the sentinel line, if any, is terminated by a
    line feed and followed only by lines that are passed over. *)
Fixpoint wf_lines `{Host} (lines : list jsstring) : bool :=
  match lines with
  | [] => true
  | line :: rest =>
      match classify line with
      | LineThrows => false
      | LineDone =>
          match rest with
          | [] => false
          | _ :: _ => forallb is_silent rest
          end
      | _ => wf_lines rest
      end
  end.

Definition wf_stream `{Host} (chunks : list jsstring) : bool :=
  wf_lines (split LF (concat chunks)).

(** The lines that follow a sentinel line terminated by a line feed.
    [processLine] still runs on the terminated lines, but [flush] returns
    at once: the unterminated tail of the stream is not read and what
    [pendingText] holds is not sent.  [held] says that [pendingText]
    holds text: a content with the first unit of [TC_START] has come since
    the last sentinel.  Nothing is lost when at the end nothing is held
    and the tail carries no text. *)
Fixpoint orderly_ended `{Host} (m : markers) (held : bool)
  (lines : list jsstring) : bool :=
  match lines with
  | [] => negb held
  | line :: rest =>
      match rest with
      | [] =>
          negb held
          && match classify line with
             | LineContent c => is_empty c
             | _ => true
             end
      | _ :: _ =>
          match classify line with
          | LineThrows => false
          | LineDone => orderly_ended m false rest
          | LineContent c =>
              orderly_ended m (held || includes (char_at0 (TC_START m)) c) rest
          | _ => orderly_ended m held rest
          end
      end
  end.

(** A stream that the transformer reads to its end and that leaves
    nothing behind its sentinel, as the lines of its text: no line that is
    read makes [processLine] throw, and once a sentinel line terminated by
    a line feed has come, a content that holds the first unit of
    [TC_START] is followed by another such sentinel line and the
    unterminated tail of the stream carries no text. *)
Fixpoint orderly_lines `{Host} (m : markers) (lines : list jsstring) : bool :=
  match lines with
  | [] => true
  | line :: rest =>
      match classify line with
      | LineThrows => false
      | LineDone =>
          match rest with
          | [] => true
          | _ :: _ => orderly_ended m false rest
          end
      | _ => orderly_lines m rest
      end
  end.

Definition orderly_stream `{Host} (m : markers) (chunks : list jsstring) : bool :=
  orderly_lines m (split LF (concat chunks)).

(** The content deltas of the frames sent downstream, in order. *)
Definition content_deltas (outs : list sse_out) : list jsstring :=
  flat_map (fun o => match o with
                     | OutChunk c =>
                         match ck_delta c with
                         | DeltaContent t => [t]
                         | _ => []
                         end
                     | OutDone => []
                     end) outs.

(** What the client observes of a frame. *)
Inductive event :=
| EvText (text : jsstring)
| EvToolCall (index : nat) (name arguments : jsstring)
| EvFinish (reason : jsstring)
| EvEmpty
| EvDone.

Definition observe (o : sse_out) : event :=
  match o with
  | OutDone => EvDone
  | OutChunk c =>
      match ck_finish_reason c, ck_delta c with
      | Some r, _ => EvFinish r
      | None, DeltaContent t => EvText t
      | None, DeltaToolCalls i tc => EvToolCall i (fn_name tc) (fn_arguments tc)
      | None, DeltaEmpty => EvEmpty
      end
  end.

(** The transformer on the lines of the whole upstream text: every line
    but the last goes through [processLine] inside [transform], the last,
    unterminated one is the [lineBuffer] that [flush] finds. *)
Definition run_lines `{Host} (m : markers) (st : stream_state)
  (lines : list jsstring) : option (list sse_out) :=
  match process_lines m st (removelast lines) with
  | None => None
  | Some (st', out1) =>
      match flush m (set_lineBuffer st' (last lines [])) with
      | None => None
      | Some out2 => Some (out1 ++ out2)
      end
  end.

(** The state after the [DONE] branch of [processLine]. *)
Definition done_state `{Host} (m : markers) (st : stream_state) : stream_state :=
  {| lineBuffer := lineBuffer st;
     contentBuffer := [];
     isBuffering := isBuffering st;
     pendingText := [];
     streamEnded := true;
     ticks := fst (settle m st) |}.

(** A JSON string literal for a text made of line feeds, quotes,
    backslashes and units that need no escape. *)
Definition json_quote (s : jsstring) : jsstring :=
  [QUOTE]
  ++ flat_map (fun c => if (c =? 10)%N then lit "\n"
                        else if (c =? 34)%N then [92%N; 34%N]
                        else if (c =? 92)%N then [92%N; 92%N]
                        else [c]) s
  ++ [QUOTE].

(** One upstream frame carrying a content delta. *)
Definition content_frame (content : jsstring) : jsstring :=
  lit "data: {" ++ json_quote (lit "choices") ++ lit ":[{"
  ++ json_quote (lit "delta") ++ lit ":{" ++ json_quote (lit "content")
  ++ lit ":" ++ json_quote content ++ lit "}}]}" ++ [LF; LF].

Definition done_frame : jsstring := lit "data: [DONE]" ++ [LF; LF].

(** The stream of scenario 3, cut into chunks that do not follow the
    frames. *)
Definition sample_stream : list jsstring :=
  [ content_frame (lit "Going to call ");
    firstn 30 (content_frame
                 (lit "a tool." ++ [LF] ++ TC_START sample_markers ++ [LF]
                  ++ NAME_START sample_markers ++ lit "add"
                  ++ NAME_END sample_markers ++ [LF]));
    skipn 30 (content_frame
                (lit "a tool." ++ [LF] ++ TC_START sample_markers ++ [LF]
                 ++ NAME_START sample_markers ++ lit "add"
                 ++ NAME_END sample_markers ++ [LF]));
    content_frame (ARGS_START sample_markers ++ sample_args
                   ++ ARGS_END sample_markers ++ [LF] ++ TC_END sample_markers);
    done_frame ].

(** A stream whose text holds no [TC_START] but holds its first unit. *)
Definition plain_stream : list jsstring :=
  [ content_frame (lit "a " ++ [3858%N] ++ lit " b");
    lit ": keep-alive" ++ [LF];
    content_frame (lit " c") ++ lit "data: [DO";
    lit "NE]" ++ [LF] ].

(** A stream that goes on after its sentinel. *)
Definition late_stream : list jsstring :=
  [ content_frame (lit "a" ++ [3858%N]); done_frame;
    content_frame (lit "b" ++ [3858%N]) ].

(** A stream with a data line that is the JSON null. *)
Definition null_stream : list jsstring :=
  [ content_frame (lit "a"); lit "data: null" ++ [LF; LF];
    content_frame (lit "b"); done_frame ].

(** A stream whose tool call has arguments that are not JSON. *)
Definition malformed_stream : list jsstring :=
  [ content_frame (lit "Sure." ++ [LF]);
    content_frame malformed_envelope;
    done_frame ].

(** The parts of a delimiter envelope: the three white space runs, the
    name and the argument blob. *)
Record envelope_parts := {
  ep_w1 : jsstring;
  ep_w2 : jsstring;
  ep_w3 : jsstring;
  ep_name : jsstring;
  ep_args : jsstring
}.

Definition envelope_text (m : markers) (e : envelope_parts) : jsstring :=
  envelope m (ep_w1 e) (ep_w2 e) (ep_w3 e) (ep_name e) (ep_args e).

(** An envelope the regex reads as one block: white space between its
    parts, no [NAME_END] in the name, no [ARGS_END] in the arguments. *)
Definition delimited (m : markers) (e : envelope_parts) : bool :=
  all_space (ep_w1 e) && all_space (ep_w2 e) && all_space (ep_w3 e)
  && match indexOf (NAME_END m) (ep_name e), indexOf (ARGS_END m) (ep_args e) with
     | None, None => true
     | _, _ => false
     end.

(** A text free of [TC_START]. *)
Definition plain (m : markers) (t : jsstring) : bool :=
  match indexOf (TC_START m) t with None => true | Some _ => false end.

(** A text made of plain parts, each followed by an envelope. *)
Definition blocks_text (m : markers) (ps : list (jsstring * envelope_parts))
  : jsstring :=
  concat (map (fun p => fst p ++ envelope_text m (snd p)) ps).

Definition blocks_ok (m : markers) (ps : list (jsstring * envelope_parts)) : bool :=
  forallb (fun p => plain m (fst p) && delimited m (snd p)) ps.

Definition sample_envelope (name : string) (args : jsstring) : envelope_parts :=
  {| ep_w1 := [LF]; ep_w2 := [LF]; ep_w3 := [LF];
     ep_name := lit name; ep_args := args |}.

(** The function that [parse] reads from a well-delimited envelope: none
    when the arguments, without the white space around them, are not
    JSON. *)
Definition envelope_function (e : envelope_parts) : list (jsstring * jsstring) :=
  match JSON_parse (trim (ep_args e)) with
  | Some _ => [(trim (ep_name e), trim (ep_args e))]
  | None => []
  end.

(** A text with an envelope whose arguments are JSON, one whose arguments
    are not, and plain parts around them. *)
Definition mixed_blocks : list (jsstring * envelope_parts) :=
  [ (lit "Sure." ++ [LF], sample_envelope " add " sample_args);
    (lit " then ", sample_envelope "sub" (lit "{oops}"));
    ([], sample_envelope "mul" (lit " [2, 3] ")) ].

(** A list of roles with every run of equal consecutive roles reduced to
    one. *)
Fixpoint collapse (roles : list jsstring) : list jsstring :=
  match roles with
  | a :: (b :: _) as rest =>
      if str_eqb b a then collapse rest else a :: collapse rest
  | _ => roles
  end.

Definition same_role (role : jsstring) (msgs : list message) : bool :=
  forallb (fun msg => str_eqb (msg_role msg) role) msgs.

Definition three_user_turns : list message :=
  [text_message "user" "a"; text_message "user" ""; text_message "user" "c"].


(** A message that is no part of a tool history: not a tool message and
    not an assistant message carrying tool calls. *)
Definition tool_free (msg : message) : bool :=
  negb (str_eqb (msg_role msg) (lit "tool")
        || (str_eqb (msg_role msg) (lit "assistant") && has_tool_calls msg)).

(** A system message that holds a role and a string content only. *)
Definition plain_system (msg : message) : bool :=
  if str_eqb (msg_role msg) (lit "system") then
    match msg_content msg, msg_tool_calls msg, msg_name msg,
          msg_tool_call_id msg, msg_extra msg with
    | Some (JStr _), None, None, None, [] => true
    | _, _, _, _, _ => false
    end
  else true.

(** What [transformRequest] leaves in a message list. *)
Definition settled (msg : message) : bool := tool_free msg && plain_system msg.

(** No unit of [TC_START] is white space. *)
Definition markers_solid (m : markers) : bool :=
  forallb (fun c => negb (is_space c)) (TC_START m).

(** A conversation with a tool turn: the assistant called two tools, one
    result came back. *)
Definition tool_conversation : request :=
  {| req_messages :=
       [ text_message "user" "add and look up";
         {| msg_role := lit "assistant";
            msg_content := Some (JStr (lit "On it."));
            msg_tool_calls := Some two_calls;
            msg_name := None; msg_tool_call_id := None; msg_extra := [] |};
         {| msg_role := lit "tool";
            msg_content := Some (JStr (lit "3"));
            msg_tool_calls := None;
            msg_name := None; msg_tool_call_id := Some (lit "call_0");
            msg_extra := [] |};
         text_message "user" "thanks" ];
     req_tools := Some [sample_tool];
     req_tool_choice := Some (JStr (lit "auto"));
     req_extra := [(lit "model", JStr (lit "m1"))] |}.

(** What [transformRequest] returns for [tool_conversation]. *)
Definition rewritten_conversation (hasTools : bool) : request :=
  match @transformRequest sample_host sample_markers tool_conversation hasTools with
  | Some out => out
  | None => tool_conversation
  end.

Definition assistant_turn (content : jsstring) (calls : list tool_call) : message :=
  {| msg_role := lit "assistant";
     msg_content := Some (JStr content);
     msg_tool_calls := Some calls;
     msg_name := None; msg_tool_call_id := None; msg_extra := [] |}.

(** The envelope that [transformRequest] writes for a tool call. *)
Definition call_envelope (tc : tool_call) : envelope_parts :=
  {| ep_w1 := [LF]; ep_w2 := [LF]; ep_w3 := [LF];
     ep_name := fn_name tc; ep_args := fn_arguments tc |}.

(** The tool-call events of a list of functions, numbered from [i]. *)
Fixpoint call_events (i : nat) (fs : list (jsstring * jsstring)) : list event :=
  match fs with
  | [] => []
  | (name, args) :: rest => EvToolCall i name args :: call_events (S i) rest
  end.

(** The event of a text delta: none for an empty text. *)
Definition text_event (t : jsstring) : list event :=
  if is_empty t then [] else [EvText t].

(** What the client observes when a buffered block is settled, given the
    functions and the residual text that [parse] finds in it: the residual
    text, the calls in order, and the finish that goes with them. *)
Definition block_events (fs : list (jsstring * jsstring)) (clean : jsstring)
  : list event :=
  text_event clean ++ call_events 0 fs
  ++ [EvFinish (match fs with [] => lit "stop" | _ :: _ => lit "tool_calls" end)].

(** What the client observes of [settle] in a state. *)
Definition settle_events `{Host} (m : markers) (st : stream_state) : list event :=
  text_event (pendingText st)
  ++ (if is_empty (contentBuffer st) then [EvFinish (lit "stop")]
      else block_events (map function_of (fst (parse m 0 (contentBuffer st))))
             (snd (parse m 0 (contentBuffer st))))
  ++ [EvDone].

(** The invariant of the transformer state until the sentinel: the line
    buffer holds no line feed; while buffering, the content buffer starts
    with [TC_START] and nothing is pending; otherwise the content buffer is
    empty and the pending text holds no [TC_START]. *)
Definition stream_inv (m : markers) (st : stream_state) : Prop :=
  ~ In LF (lineBuffer st)
  /\ (streamEnded st = false ->
      if isBuffering st
      then startsWith (TC_START m) (contentBuffer st) = true
           /\ pendingText st = []
      else contentBuffer st = []
           /\ indexOf (TC_START m) (pendingText st) = None).

(** The six markers of an envelope. *)
Definition envelope_markers (m : markers) : list jsstring :=
  [ TC_START m; NAME_START m; NAME_END m; ARGS_START m; ARGS_END m; TC_END m ].

Definition is_sentinel `{Host} (line : jsstring) : bool :=
  match classify line with LineDone => true | _ => false end.

Definition is_throwing `{Host} (line : jsstring) : bool :=
  match classify line with LineThrows => true | _ => false end.

(** A stream with two calls, one of them with arguments that are not
    JSON, and text before, between and after. *)
Definition mixed_stream : list jsstring :=
  [ content_frame (lit "Sure." ++ [LF]);
    content_frame (envelope_text sample_markers (sample_envelope " add " sample_args)
                   ++ lit " then ");
    content_frame (envelope_text sample_markers (sample_envelope "sub" (lit "{oops}")));
    content_frame (envelope_text sample_markers
                     (sample_envelope "mul" (lit " [2, 3] ")) ++ lit " end ");
    done_frame ].

(** A stream whose block is never closed. *)
Definition unclosed_stream : list jsstring :=
  [ content_frame (lit "Let me see. ");
    content_frame (TC_START sample_markers ++ [LF] ++ NAME_START sample_markers
                   ++ lit "add" ++ NAME_END sample_markers ++ lit "  ");
    done_frame ].

(** A stream whose sentinel line is not terminated. *)
Definition unterminated_stream : list jsstring :=
  [ content_frame (lit "hello"); lit "data: [DONE]" ].

(** The same text as [sample_stream], cut elsewhere. *)
Definition recut_stream : list jsstring :=
  [ firstn 7 (concat sample_stream); skipn 7 (concat sample_stream) ].

(** The state and the frames after the first three chunks of
    [sample_stream]. *)
Definition sample_partial : stream_state * list sse_out :=
  match @write_all sample_host sample_markers (initial_state 0)
          (firstn 3 sample_stream) with
  | Some r => r
  | None => (initial_state 0, [])
  end.

(** Lines that hold no sentinel and on which [processLine] does not throw. *)
Definition quiet_lines `{Host} (lines : list jsstring) : bool :=
  forallb (fun l => negb (is_sentinel l) && negb (is_throwing l)) lines.

(** A stream without the first unit of [TC_START], with an empty
    content. *)
Definition simple_stream : list jsstring :=
  [ content_frame (lit "Hello"); content_frame []; content_frame (lit " world");
    done_frame ].

(** [body?.stream === true] *)
Definition is_stream (req : request) : bool :=
  match lookup_last (lit "stream") (req_extra req) with
  | Some (JBool true) => true
  | _ => false
  end.

(** The answer of a proxy that changes nothing: the upstream's status and
    text when it is not ok, its chunks as they come for a stream, its JSON
    otherwise, and a 502 when the call or the reading of the JSON
    fails. *)
Definition relayed (stream : bool) (r : upstream_response + jsstring)
  : http_response :=
  match r with
  | inr message => RespError 502 message (lit "proxy_error")
  | inl up =>
      if up_ok up then
        if stream then RespRaw (up_chunks up)
        else match up_json up with
             | inl data => RespData data
             | inr message => RespError 502 message (lit "proxy_error")
             end
      else RespText (up_status up) (up_text up)
  end.

(** The body a proxy that changes nothing sends upstream. *)
Definition relayed_body (req : http_request) : option request :=
  if one_of (method req) [lit "GET"; lit "HEAD"] then None else Some (body req).

(** A request to another endpoint, with a history of tool calls. *)
Definition embeddings_request : http_request :=
  {| originalUrl := lit "/https://api.example.com/v1/embeddings";
     method := lit "POST";
     h_authorization := Some (lit "Bearer k");
     h_x_api_key := None;
     h_anthropic_version := None;
     body := tool_conversation |}.

(** A network whose upstream streams the chunks given. *)
Definition stream_network (chunks : list jsstring) : Network :=
  sample_network "https:" "api.example.com" (Some (lit "93.184.216.34"))
    {| up_ok := true; up_status := 200; up_text := [];
       up_json := inr (lit "Unexpected token d"); up_chunks := chunks |}.

Definition stream_http_request : http_request :=
  {| originalUrl := lit "/https://api.example.com/v1/chat/completions";
     method := lit "POST";
     h_authorization := Some (lit "Bearer k");
     h_x_api_key := None;
     h_anthropic_version := None;
     body := {| req_messages := [text_message "user" "add 1"];
                req_tools := Some [sample_tool];
                req_tool_choice := None;
                req_extra := [(lit "stream", JBool true)] |} |}.

(** The two blocks that the system prompt shows. *)
Definition prompt_format_block : envelope_parts :=
  {| ep_w1 := [LF]; ep_w2 := [LF]; ep_w3 := [LF];
     ep_name := lit "function_name";
     ep_args := lit "{" ++ json_pair "param" "value" ++ lit "}" |}.

Definition prompt_example_block : envelope_parts :=
  {| ep_w1 := [LF]; ep_w2 := [LF]; ep_w3 := [LF];
     ep_name := lit "web_search";
     ep_args := lit "{" ++ json_pair "query" "example" ++ lit ", "
                ++ [QUOTE] ++ lit "limit" ++ [QUOTE] ++ lit ": 5}" |}.

(** The fixed text of the system prompt around the list of tools and
    around the two blocks. *)
Definition prompt_head : jsstring :=
  [LF] ++ lit "## Tool Calling (AnyToolCall Protocol)" ++ [LF; LF]
  ++ lit "You have access to the following tools:" ++ [LF].

Definition prompt_how : jsstring :=
  [LF; LF] ++ lit "### How to call tools" ++ [LF; LF]
  ++ lit "When you need to call a tool, use this EXACT format at the END of your response:"
  ++ [LF; LF].

Definition prompt_between : jsstring :=
  [LF; LF] ++ lit "### Example" ++ [LF; LF]
  ++ lit "I'll search for that information:" ++ [LF; LF].

Definition prompt_rules (m : markers) : jsstring :=
  [LF; LF] ++ lit "### Rules" ++ [LF; LF]
  ++ lit "1. Tool calls MUST be at the END of your response" ++ [LF]
  ++ lit "2. Copy the delimiters EXACTLY as shown above" ++ [LF]
  ++ lit "3. Arguments must be valid JSON" ++ [LF]
  ++ lit "4. One tool per block" ++ [LF; LF]
  ++ lit "### Tool Results" ++ [LF; LF]
  ++ lit "Results appear in " ++ RESULT_START m ++ lit "..." ++ RESULT_END m
  ++ lit " blocks." ++ [LF].

(** What the reading of the prompt relies on, as a check on a marker
    record: the fixed text holds neither the first unit of [TC_START] nor
    [TC_START], and the two blocks are well delimited. *)
Definition prompt_check (m : markers) : bool :=
  match TC_START m with
  | x :: _ => negb (existsb (N.eqb x) (prompt_head ++ prompt_how))
  | [] => false
  end
  && plain m prompt_between && plain m (prompt_rules m)
  && delimited m prompt_format_block && delimited m prompt_example_block.

Definition described_tool : tool_spec :=
  {| t_name := lit "add"; t_description := Some (lit "Adds two numbers");
     t_parameters := Some (JObj []) |}.

(** What the client observes when the block is settled at the end of the
    stream. *)
Definition closing_events `{Host} (m : markers) (block : jsstring) : list event :=
  block_events (map function_of (fst (parse m 0 block))) (snd (parse m 0 block))
  ++ [EvDone].

(* ================================================================== *)
(** * Properties *)
(* ================================================================== *)

(** ** Strings *)

Lemma str_eqb_eq (a b : jsstring) : str_eqb a b = true <-> a = b.
Proof.
  revert b; induction a as [|x a IH]; intros [|y b]; simpl; split; intro E;
    try reflexivity; try discriminate.
  - apply andb_true_iff in E as [E1 E2]. apply N.eqb_eq in E1.
    apply IH in E2. congruence.
  - injection E as -> ->. rewrite N.eqb_refl. simpl. now apply IH.
Qed.

Lemma str_eqb_refl (a : jsstring) : str_eqb a a = true.
Proof. now apply str_eqb_eq. Qed.

Lemma str_eqb_neq (a b : jsstring) : str_eqb a b = false <-> a <> b.
Proof.
  split.
  - intros E ->. rewrite str_eqb_refl in E. discriminate.
  - intro N. destruct (str_eqb a b) eqn:E; [|reflexivity].
    apply str_eqb_eq in E. contradiction.
Qed.

Lemma startsWith_iff (p t : jsstring) :
  startsWith p t = true <-> exists r, t = p ++ r.
Proof.
  revert t; induction p as [|x p IH]; intros t; simpl.
  - split; [intros _; now exists t | reflexivity].
  - destruct t as [|y t].
    + split; [discriminate | intros [r E]; discriminate].
    + split.
      * intro E. apply andb_true_iff in E as [E1 E2]. apply N.eqb_eq in E1.
        apply IH in E2 as [r ->]. exists r. now subst.
      * intros [r E]. injection E as -> ->. rewrite N.eqb_refl. simpl.
        apply IH. now exists r.
Qed.

Lemma startsWith_app (p t : jsstring) : startsWith p (p ++ t) = true.
Proof. apply startsWith_iff. now exists t. Qed.

Lemma strip_prefix_app (p t : jsstring) : strip_prefix p (p ++ t) = Some t.
Proof.
  induction p as [|x p IH]; simpl; [reflexivity|].
  now rewrite N.eqb_refl.
Qed.

Lemma strip_prefix_startsWith (p t : jsstring) :
  startsWith p t = false -> strip_prefix p t = None.
Proof.
  revert t; induction p as [|x p IH]; intros [|y t]; simpl; try discriminate;
    try reflexivity.
  destruct (N.eqb x y); simpl; [apply IH | reflexivity].
Qed.

Lemma startsWith_long (p t u : jsstring) :
  startsWith p t = false -> List.length p <= List.length t ->
  startsWith p (t ++ u) = false.
Proof.
  revert t; induction p as [|x p IH]; intros [|y t]; simpl; try discriminate;
    try lia.
  intros E L. destruct (N.eqb x y); simpl in *; [|reflexivity].
  apply IH; [assumption | lia].
Qed.

(** A pattern that starts inside [x] and runs over the seam of
    [x ++ p ++ y] overlaps itself. *)
Lemma startsWith_seam (p x y : jsstring) :
  startsWith p (x ++ p ++ y) = true ->
  List.length x < List.length p ->
  firstn (List.length p - List.length x) p = skipn (List.length x) p.
Proof.
  intros E L. apply startsWith_iff in E as [r E].
  apply app_eq_app in E as [l [[Ex Er] | [Ep Er]]].
  - rewrite Ex, length_app in L. lia.
  - subst p. clear L.
    rewrite length_app, Nat.add_comm, Nat.add_sub.
    rewrite skipn_app, skipn_all, Nat.sub_diag. simpl.
    apply app_eq_app in Er as [l' [[E1 E2] | [E1 E2]]].
    + rewrite E1, firstn_app, firstn_all, Nat.sub_diag. simpl.
      apply app_nil_r.
    + assert (List.length l = List.length x + List.length l + List.length l')
        as C by (rewrite E1 at 1; now rewrite !length_app).
      assert (x = []) as -> by (destruct x; [reflexivity | simpl in C; lia]).
      simpl. apply firstn_all.
Qed.

Lemma unbordered_seam (p x y : jsstring) :
  unbordered p = true -> x <> [] -> List.length x < List.length p ->
  startsWith p (x ++ p ++ y) = false.
Proof.
  intros U Nx L. destruct (startsWith p (x ++ p ++ y)) eqn:E; [|reflexivity].
  apply startsWith_seam in E; [|assumption].
  unfold unbordered in U. rewrite forallb_forall in U.
  assert (0 < List.length x) by (destruct x; simpl; [congruence | lia]).
  specialize (U (List.length p - List.length x)).
  rewrite E in U.
  replace (List.length p - (List.length p - List.length x)) with (List.length x)
    in U by lia.
  rewrite str_eqb_refl in U. simpl in U.
  assert (false = true); [|discriminate].
  apply U. apply in_seq. lia.
Qed.

Lemma indexOf_None_startsWith (p t : jsstring) :
  indexOf p t = None -> startsWith p t = false.
Proof.
  destruct t; simpl; destruct (startsWith p _); congruence.
Qed.

Lemma indexOf_None_tail (p : jsstring) (c : N) (t : jsstring) :
  indexOf p (c :: t) = None -> indexOf p t = None.
Proof.
  simpl. destruct (startsWith p (c :: t)); [discriminate|].
  destruct (indexOf p t); simpl; congruence.
Qed.

(** The first occurrence of an unbordered pattern in [x ++ p ++ y], when
    [x] holds none, is at the end of [x]. *)
Lemma startsWith_before (p x y : jsstring) :
  unbordered p = true -> indexOf p x = None -> x <> [] ->
  startsWith p (x ++ p ++ y) = false.
Proof.
  intros U Hx Nx.
  destruct (Nat.le_gt_cases (List.length p) (List.length x)).
  - apply startsWith_long; [|assumption]. now apply indexOf_None_startsWith.
  - now apply unbordered_seam.
Qed.

Lemma indexOf_first (p x y : jsstring) :
  unbordered p = true -> indexOf p x = None ->
  indexOf p (x ++ p ++ y) = Some (List.length x).
Proof.
  intros U. induction x as [|c x IH]; intros Hx.
  - simpl app. destruct (p ++ y) eqn:E; simpl; rewrite <- E, startsWith_app;
      reflexivity.
  - change ((c :: x) ++ p ++ y) with (c :: (x ++ p ++ y)).
    assert (startsWith p (c :: (x ++ p ++ y)) = false) as F
      by (apply (startsWith_before p (c :: x) y); congruence).
    simpl. simpl in F. rewrite F.
    rewrite IH; [reflexivity|]. now apply indexOf_None_tail in Hx.
Qed.

(** ** The marker table *)

Lemma all_choices_generated (check : markers -> bool) :
  all_choices check = true -> forall m, generated m -> check m = true.
Proof.
  unfold all_choices. intros A m (set & s1 & s2 & Hset & H1 & H2 & ->).
  rewrite forallb_forall in A. specialize (A set Hset).
  rewrite forallb_forall in A. specialize (A s1 H1).
  rewrite forallb_forall in A. exact (A s2 H2).
Qed.

Lemma generated_wf (m : markers) : generated m -> markers_wf m = true.
Proof. apply all_choices_generated. vm_compute. reflexivity. Qed.

Lemma generated_check (m : markers) :
  generated m -> marker_check (marker_list m) = true.
Proof.
  apply (all_choices_generated (fun m => marker_check (marker_list m))).
  vm_compute. reflexivity.
Qed.

Lemma non_ascii_point_spec (c : N) :
  non_ascii_point c = true ->
  (128 <= c)%N /\ ~ (55296 <= c <= 57343)%N.
Proof.
  unfold non_ascii_point. intro E. apply andb_true_iff in E as [E1 E2].
  apply N.leb_le in E1. split; [assumption|]. intros [A B].
  apply N.leb_le in A, B. rewrite A, B in E2. discriminate.
Qed.

(** C9.  Whatever delimiter triple and suffix glyphs the random draws
    select (the two suffixes possibly equal), among the eight markers no
    marker is a prefix of another, no marker holds an ASCII code point
    (every unit is a single code point of value 128 or more), and every
    marker is at least two code points long. *)
Theorem marker_invariant (set : delimiter_set) (suffix1 suffix2 : jsstring) :
  In set DELIMITER_SETS -> In suffix1 SUFFIX_POOL -> In suffix2 SUFFIX_POOL ->
  let ms := marker_list (generateMarkers set suffix1 suffix2) in
  (forall i j a b, i <> j -> nth_error ms i = Some a -> nth_error ms j = Some b ->
                   startsWith a b = false)
  /\ (forall a c, In a ms -> In c a ->
                  (128 <= c)%N /\ ~ (55296 <= c <= 57343)%N)
  /\ (forall a, In a ms -> 2 <= List.length a).
Proof.
  intros Hset H1 H2 ms.
  assert (marker_check ms = true) as C.
  { apply generated_check. now exists set, suffix1, suffix2. }
  unfold marker_check in C. apply andb_true_iff in C as [C1 C2].
  rewrite forallb_forall in C1. rewrite forallb_forall in C2.
  split; [|split].
  - intros i j a b Nij Hi Hj.
    assert (i < List.length ms) as Li by (apply nth_error_Some; congruence).
    assert (j < List.length ms) as Lj by (apply nth_error_Some; congruence).
    specialize (C2 i). rewrite forallb_forall in C2.
    assert (In i (seq 0 (List.length ms))) as Ii by (apply in_seq; lia).
    assert (In j (seq 0 (List.length ms))) as Ij by (apply in_seq; lia).
    specialize (C2 Ii j Ij).
    apply nth_error_nth with (d := []) in Hi.
    apply nth_error_nth with (d := []) in Hj.
    rewrite Hi, Hj in C2.
    apply orb_true_iff in C2 as [C2 | C2].
    + apply Nat.eqb_eq in C2. contradiction.
    + now apply negb_true_iff in C2.
  - intros a c Ia Ic. specialize (C1 a Ia).
    apply andb_true_iff in C1 as [_ C1]. rewrite forallb_forall in C1.
    apply non_ascii_point_spec. now apply C1.
  - intros a Ia. specialize (C1 a Ia).
    apply andb_true_iff in C1 as [C1 _]. now apply Nat.leb_le in C1.
Qed.

Lemma marker_invariant_witness :
  let ms := marker_list
              (generateMarkers
                 {| d_open := [3858%N]; d_close := [3858%N]; d_mid := [4039%N] |}
                 [40856%N] [40856%N]) in
  (forall i j a b, i <> j -> nth_error ms i = Some a -> nth_error ms j = Some b ->
                   startsWith a b = false)
  /\ (forall a c, In a ms -> In c a ->
                  (128 <= c)%N /\ ~ (55296 <= c <= 57343)%N)
  /\ (forall a, In a ms -> 2 <= List.length a).
Proof.
  apply marker_invariant; simpl; auto.
Defined.

Lemma sample_generated : generated sample_markers.
Proof.
  exists {| d_open := [3858%N]; d_close := [3858%N]; d_mid := [4039%N] |},
         [40856%N], [40856%N].
  simpl. auto.
Qed.

(** ** The request transcoder *)

Lemma all_some_map {A B : Type} (f : A -> option B) (g : A -> B) (l : list A)
  (out : list B) :
  (forall x y, In x l -> f x = Some y -> y = g x) ->
  all_some (map f l) = Some out -> out = map g l.
Proof.
  revert out; induction l as [|x l IH]; intros out F E; simpl in E.
  - now injection E as <-.
  - destruct (f x) as [y|] eqn:Fx; [|discriminate].
    destruct (all_some (map f l)) as [ys|] eqn:Fl; [|discriminate].
    injection E as <-. simpl. f_equal.
    + apply F; [now left | exact Fx].
    + apply IH; [|reflexivity]. intros x' y' I. apply F. now right.
Qed.

Lemma all_some_map_total {A B : Type} (f : A -> option B) (l : list A) :
  (forall x, In x l -> f x <> None) -> all_some (map f l) <> None.
Proof.
  induction l as [|x l IH]; intro F; simpl; [discriminate|].
  destruct (f x) as [y|] eqn:Fx; [|now elim (F x (or_introl eq_refl))].
  destruct (all_some (map f l)) eqn:Fl; [discriminate|].
  elim IH; [|reflexivity]. intros x' I. apply F. now right.
Qed.

Section Request.
Context `{Host}.

(** *** What the functions return when they return *)

Lemma or_empty_pure_spec (c : option json) (s : jsstring) :
  or_empty c = Some s -> or_empty_pure c = s.
Proof. unfold or_empty_pure. now intros ->. Qed.

Lemma merge_from_pure_spec (current : message) (rest merged : list message) :
  merge_from current rest = Some merged -> merged = merge_from_pure current rest.
Proof.
  revert current merged; induction rest as [|msg rest IH]; intros current merged E;
    simpl in E |- *.
  - now injection E as <-.
  - destruct (str_eqb (msg_role msg) (msg_role current)).
    + destruct (or_empty (msg_content current)) as [a|] eqn:A; [|discriminate].
      destruct (or_empty (msg_content msg)) as [b|] eqn:B; [|discriminate].
      rewrite (or_empty_pure_spec _ _ A), (or_empty_pure_spec _ _ B).
      now apply IH.
    + destruct (merge_from msg rest) as [l|] eqn:M; [|discriminate].
      injection E as <-. f_equal. now apply IH.
Qed.

Lemma mergeAdjacentMessages_pure_spec (messages merged : list message) :
  mergeAdjacentMessages messages = Some merged ->
  merged = mergeAdjacentMessages_pure messages.
Proof.
  destruct messages as [|first rest]; simpl.
  - now intros [= <-].
  - apply merge_from_pure_spec.
Qed.

Lemma rewrite_message_pure_spec (m : markers) (hasTools : bool)
  (prompt : jsstring) (msg out : message) :
  rewrite_message m hasTools prompt msg = Some out ->
  out = rewrite_message_pure m hasTools prompt msg.
Proof.
  unfold rewrite_message_pure, rewrite_message, value_text_pure, or_empty_pure.
  destruct (str_eqb (msg_role msg) (lit "system")).
  - destruct (value_text (msg_content msg)); [|discriminate]. now intros [= <-].
  - destruct (_ && _).
    + destruct (or_empty (msg_content msg)); [|discriminate]. now intros [= <-].
    + now intros ->.
Qed.

Lemma transformRequest_unfold (m : markers) (req : request) (hasTools : bool) :
  transformRequest m req hasTools
  = let prompt := tool_prompt m req hasTools in
    match all_some (map (rewrite_message m hasTools prompt) (req_messages req)) with
    | None => None
    | Some messages =>
        match mergeAdjacentMessages
                (if negb (existsb (fun msg => str_eqb (msg_role msg) (lit "system"))
                            (req_messages req))
                    && negb (is_empty prompt)
                 then plain_message (lit "system") prompt :: messages
                 else messages) with
        | None => None
        | Some merged =>
            Some {| req_messages := merged;
                    req_tools := None;
                    req_tool_choice := None;
                    req_extra := req_extra req |}
        end
    end.
Proof. reflexivity. Qed.

Lemma transformRequest_pure_unfold (m : markers) (req : request)
  (hasTools : bool) :
  transformRequest_pure m req hasTools
  = let prompt := tool_prompt m req hasTools in
    {| req_messages :=
         mergeAdjacentMessages_pure
           (if negb (existsb (fun msg => str_eqb (msg_role msg) (lit "system"))
                       (req_messages req))
               && negb (is_empty prompt)
            then plain_message (lit "system") prompt
                 :: map (rewrite_message_pure m hasTools prompt) (req_messages req)
            else map (rewrite_message_pure m hasTools prompt) (req_messages req));
       req_tools := None;
       req_tool_choice := None;
       req_extra := req_extra req |}.
Proof. reflexivity. Qed.

Lemma transformRequest_pure_spec (m : markers) (req out : request)
  (hasTools : bool) :
  transformRequest m req hasTools = Some out ->
  out = transformRequest_pure m req hasTools.
Proof.
  rewrite transformRequest_unfold, transformRequest_pure_unfold.
  generalize (tool_prompt m req hasTools). intro prompt. cbv zeta.
  destruct (all_some (map (rewrite_message m hasTools prompt) (req_messages req)))
    as [messages|] eqn:A; [|discriminate].
  apply (all_some_map _ (rewrite_message_pure m hasTools prompt)) in A;
    [|intros x y _; apply rewrite_message_pure_spec].
  subst messages.
  destruct (mergeAdjacentMessages _) as [merged|] eqn:M; [|discriminate].
  apply mergeAdjacentMessages_pure_spec in M. subst merged.
  now intros [= <-].
Qed.

(** *** When they return *)

Lemma or_empty_convertible (c : option json) :
  convertible c = true -> or_empty c <> None.
Proof.
  unfold convertible, or_empty. destruct (truthy c); [|discriminate].
  now destruct (value_text c).
Qed.

Lemma merge_from_returns (current : message) (rest : list message) :
  convertible (msg_content current) = true ->
  forallb (fun msg => convertible (msg_content msg)) rest = true ->
  merge_from current rest <> None.
Proof.
  revert current; induction rest as [|msg rest IH]; intros current C R; simpl.
  - discriminate.
  - simpl in R. apply andb_true_iff in R as [R1 R2].
    destruct (str_eqb (msg_role msg) (msg_role current)).
    + pose proof (or_empty_convertible _ C) as A.
      pose proof (or_empty_convertible _ R1) as B.
      destruct (or_empty (msg_content current)) as [a|]; [|contradiction].
      destruct (or_empty (msg_content msg)) as [b|]; [|contradiction].
      apply IH; [reflexivity | exact R2].
    + specialize (IH msg R1 R2). now destruct (merge_from msg rest).
Qed.

Lemma rewrite_message_returns (m : markers) (hasTools : bool)
  (prompt : jsstring) (msg : message) :
  convertible (msg_content msg) = true ->
  exists out, rewrite_message m hasTools prompt msg = Some out
              /\ convertible (msg_content out) = true.
Proof.
  intro C. unfold rewrite_message.
  destruct (str_eqb (msg_role msg) (lit "system")).
  - unfold convertible in C.
    destruct (value_text (msg_content msg)); [|discriminate]. eexists.
    split; reflexivity.
  - destruct (_ && _).
    + pose proof (or_empty_convertible _ C) as A.
      destruct (or_empty (msg_content msg)); [|contradiction]. eexists.
      split; reflexivity.
    + destruct (str_eqb (msg_role msg) (lit "tool")); eexists;
        (split; [reflexivity|]); [reflexivity | exact C].
Qed.

Lemma transformRequest_returns (m : markers) (req : request) (hasTools : bool) :
  convertible_request req = true -> transformRequest m req hasTools <> None.
Proof.
  unfold convertible_request. rewrite transformRequest_unfold. intro C.
  generalize (tool_prompt m req hasTools). intro prompt. cbv zeta.
  destruct (all_some (map (rewrite_message m hasTools prompt) (req_messages req)))
    as [messages|] eqn:A.
  - assert (forallb (fun msg => convertible (msg_content msg)) messages = true)
      as Cm.
    { clear - A C. revert messages A.
      induction (req_messages req) as [|x l IH]; intros messages A; simpl in A.
      - now injection A as <-.
      - simpl in C. apply andb_true_iff in C as [C1 C2].
        destruct (rewrite_message_returns m hasTools prompt x C1)
          as (out & E & Co).
        rewrite E in A.
        destruct (all_some (map _ l)) as [ys|]; [|discriminate].
        injection A as <-. simpl. now rewrite Co, (IH C2 ys eq_refl). }
    match goal with
    | |- context [mergeAdjacentMessages ?l] =>
        assert (mergeAdjacentMessages l <> None) as Mg
    end.
    { destruct (negb _ && negb _); simpl.
      - apply merge_from_returns; [reflexivity | exact Cm].
      - destruct messages as [|first rest]; [discriminate|].
        simpl in Cm. apply andb_true_iff in Cm as [C1 C2].
        now apply merge_from_returns. }
    destruct (mergeAdjacentMessages _); [discriminate | contradiction].
  - exfalso. revert A. apply all_some_map_total.
    intros x I. rewrite forallb_forall in C.
    destruct (rewrite_message_returns m hasTools prompt x (C x I)) as (out & -> & _).
    discriminate.
Qed.

(** *** Roles *)

Lemma merge_from_role (current : message) (rest : list message) :
  exists first others,
    merge_from_pure current rest = first :: others /\
    msg_role first = msg_role current.
Proof.
  revert current; induction rest as [|msg rest IH]; intros current; simpl.
  - now exists current, [].
  - destruct (str_eqb (msg_role msg) (msg_role current)).
    + destruct (IH (set_content current
                      (or_empty_pure (msg_content current) ++ [LF; LF]
                       ++ or_empty_pure (msg_content msg))))
        as (first & others & E & R).
      exists first, others. now split.
    + now exists current, (merge_from_pure msg rest).
Qed.

Lemma merge_from_distinct (current : message) (rest : list message) :
  adjacent_distinct (merge_from_pure current rest) = true.
Proof.
  revert current; induction rest as [|msg rest IH]; intros current; simpl.
  - reflexivity.
  - destruct (str_eqb (msg_role msg) (msg_role current)) eqn:E.
    + apply IH.
    + destruct (merge_from_role msg rest) as (first & others & Em & R).
      specialize (IH msg). rewrite Em in *.
      change (negb (str_eqb (msg_role current) (msg_role first))
              && adjacent_distinct (first :: others) = true).
      rewrite IH, R, andb_true_r.
      apply negb_true_iff, str_eqb_neq. intro E'.
      rewrite E', str_eqb_refl in E. discriminate.
Qed.

Lemma adjacent_distinct_nth (l : list message) :
  adjacent_distinct l = true ->
  forall i a b, nth_error l i = Some a -> nth_error l (S i) = Some b ->
                msg_role a <> msg_role b.
Proof.
  induction l as [|x l IH]; intros D i a b Ha Hb.
  - destruct i; discriminate.
  - destruct l as [|y l]; [destruct i as [|[|i]]; discriminate|].
    simpl in D. apply andb_true_iff in D as [D1 D2].
    destruct i as [|i].
    + simpl in Ha, Hb. injection Ha as <-. injection Hb as <-.
      apply negb_true_iff in D1. now apply str_eqb_neq.
    + apply (IH D2 i a b); assumption.
Qed.

Lemma transformRequest_pure_distinct (m : markers) (req : request)
  (hasTools : bool) :
  adjacent_distinct (req_messages (transformRequest_pure m req hasTools)) = true.
Proof.
  unfold transformRequest_pure. cbn [req_messages].
  unfold mergeAdjacentMessages_pure.
  match goal with |- adjacent_distinct (match ?l with _ => _ end) = true =>
    destruct l as [|first rest] end.
  - reflexivity.
  - apply merge_from_distinct.
Qed.

(** C5.  Whatever the messages of the request and the value of
    [hasTools], no two consecutive messages of the request that
    [transformRequest] returns carry the same role; and it returns one
    whenever every message content can be converted to a string. *)
Theorem transformRequest_alternates (m : markers) (req : request)
  (hasTools : bool) :
  (convertible_request req = true -> transformRequest m req hasTools <> None)
  /\ forall out i a b,
       transformRequest m req hasTools = Some out ->
       nth_error (req_messages out) i = Some a ->
       nth_error (req_messages out) (S i) = Some b ->
       msg_role a <> msg_role b.
Proof.
  split; [apply transformRequest_returns|].
  intros out i a b E. apply transformRequest_pure_spec in E. subst out.
  apply adjacent_distinct_nth, transformRequest_pure_distinct.
Qed.

End Request.

Lemma transformRequest_alternates_witness :
  let req :=
    {| req_messages := [text_message "user" "a"; text_message "user" "b";
                        text_message "assistant" "c"];
       req_tools := None; req_tool_choice := None; req_extra := [] |} in
  let out :=
    {| req_messages :=
         [plain_message (lit "user") (lit "a" ++ [LF; LF] ++ lit "b");
          text_message "assistant" "c"];
       req_tools := None; req_tool_choice := None; req_extra := [] |} in
  @transformRequest sample_host sample_markers req false = Some out
  /\ lit "user" <> lit "assistant".
Proof.
  intros req out.
  assert (@transformRequest sample_host sample_markers req false = Some out) as E
    by reflexivity.
  split; [exact E|].
  exact (proj2 (@transformRequest_alternates sample_host sample_markers req false)
           out 0 _ _ E eq_refl eq_refl).
Defined.

Section Rewrite.
Context `{Host}.

Lemma str_or_cases (s : option jsstring) (d : jsstring) :
  (exists n, s = Some n /\ n <> [] /\ str_or s d = n)
  \/ (absent_or_empty s /\ str_or s d = d).
Proof.
  destruct s as [[|c r]|]; simpl.
  - right. split; [now right | reflexivity].
  - left. exists (c :: r). repeat split. discriminate.
  - right. split; [now left | reflexivity].
Qed.

Lemma absent_or_empty_not {s : option jsstring} {n : jsstring} :
  absent_or_empty s -> s = Some n -> n <> [] -> False.
Proof. intros [E | E] E' N; rewrite E in E'; congruence. Qed.

(** C10, amended.  A tool message is rewritten into a user message whose
    tool name is the [name] field when it is present and not empty,
    otherwise the [tool_call_id] when it is present and not empty,
    otherwise [unknown]; a string content is embedded as it is, any other
    content through [JSON.stringify], and an absent content as the text
    [undefined].  The rewrite is defined for every such message: it never
    throws. *)
Theorem tool_message_rewrite (m : markers) (hasTools : bool)
  (prompt : jsstring) (msg : message) :
  msg_role msg = lit "tool" ->
  exists name result,
    rewrite_message m hasTools prompt msg
    = Some (tool_result_message m hasTools name result)
    /\ (forall n, msg_name msg = Some n -> n <> [] -> name = n)
    /\ (forall i, absent_or_empty (msg_name msg) ->
                  msg_tool_call_id msg = Some i -> i <> [] -> name = i)
    /\ (absent_or_empty (msg_name msg) ->
        absent_or_empty (msg_tool_call_id msg) -> name = lit "unknown")
    /\ (forall s, msg_content msg = Some (JStr s) -> result = s)
    /\ (forall v, msg_content msg = Some v -> (forall s, v <> JStr s) ->
                  result = JSON_stringify v)
    /\ (msg_content msg = None -> result = lit "undefined").
Proof.
  intro R.
  exists (str_or (msg_name msg) (str_or (msg_tool_call_id msg) (lit "unknown"))).
  exists (match msg_content msg with
          | Some (JStr s) => s
          | Some v => JSON_stringify v
          | None => lit "undefined"
          end).
  split; [|split; [|split; [|split; [|split; [|split]]]]].
  - unfold rewrite_message. rewrite R. reflexivity.
  - intros n E N. rewrite E. destruct n; [contradiction | reflexivity].
  - intros i A E N.
    destruct (str_or_cases (msg_name msg)
                (str_or (msg_tool_call_id msg) (lit "unknown")))
      as [(n & En & Nn & _) | [_ ->]].
    + exfalso. exact (absent_or_empty_not A En Nn).
    + rewrite E. destruct i; [contradiction | reflexivity].
  - intros A B.
    destruct (str_or_cases (msg_name msg)
                (str_or (msg_tool_call_id msg) (lit "unknown")))
      as [(n & En & Nn & _) | [_ ->]].
    + exfalso. exact (absent_or_empty_not A En Nn).
    + destruct (str_or_cases (msg_tool_call_id msg) (lit "unknown"))
        as [(n & En & Nn & _) | [_ ->]]; [|reflexivity].
      exfalso. exact (absent_or_empty_not B En Nn).
  - intros s ->. reflexivity.
  - intros v -> N. destruct v; try reflexivity. now elim (N s).
  - intros ->. reflexivity.
Qed.

Lemma merge_from_id (current : message) (rest : list message) :
  adjacent_distinct (current :: rest) = true ->
  merge_from current rest = Some (current :: rest).
Proof.
  revert current; induction rest as [|msg rest IH]; intros current D.
  - reflexivity.
  - simpl in D. apply andb_true_iff in D as [D1 D2].
    apply negb_true_iff, str_eqb_neq in D1.
    simpl. destruct (str_eqb (msg_role msg) (msg_role current)) eqn:E.
    + apply str_eqb_eq in E. congruence.
    + now rewrite (IH msg D2).
Qed.

Lemma mergeAdjacentMessages_id (messages : list message) :
  adjacent_distinct messages = true ->
  mergeAdjacentMessages messages = Some messages.
Proof.
  destruct messages as [|first rest]; [reflexivity | apply merge_from_id].
Qed.

Lemma rewrite_message_id (m : markers) (hasTools : bool) (msg : message) :
  str_eqb (msg_role msg) (lit "tool")
  || (str_eqb (msg_role msg) (lit "assistant") && has_tool_calls msg) = false ->
  (msg_role msg = lit "system" -> exists s, msg = plain_message (lit "system") s) ->
  rewrite_message m hasTools [] msg = Some msg.
Proof.
  intros T S. apply orb_false_iff in T as [T1 T2].
  unfold rewrite_message. rewrite T1, T2.
  destruct (str_eqb (msg_role msg) (lit "system")) eqn:E; [|reflexivity].
  apply str_eqb_eq in E. destruct (S E) as [s ->].
  simpl. now rewrite app_nil_r.
Qed.

Lemma all_some_map_id {A : Type} (f : A -> option A) (l : list A) :
  (forall x, In x l -> f x = Some x) -> all_some (map f l) = Some l.
Proof.
  induction l as [|x l IH]; intro F; simpl; [reflexivity|].
  rewrite (F x (or_introl eq_refl)), IH; [reflexivity|].
  intros y I. apply F. now right.
Qed.

(** C6, amended.  For a chat request that declares no tools, whose history
    has no tool message and no assistant message carrying tool calls, in
    which no two consecutive messages share a role and every system
    message holds just a role and a string content, [transformRequest]
    returns the input except that [tools] and [tool_choice] are absent. *)
Theorem transformRequest_plain (m : markers) (req : request) (hasTools : bool) :
  declares_no_tools req = true ->
  has_tool_history (req_messages req) = false ->
  adjacent_distinct (req_messages req) = true ->
  (forall msg, In msg (req_messages req) -> msg_role msg = lit "system" ->
               exists s, msg = plain_message (lit "system") s) ->
  transformRequest m req hasTools = Some (without_tools req).
Proof.
  intros NT NH AD PS. unfold transformRequest, without_tools.
  assert ((if hasTools
              && negb (Nat.eqb (List.length match req_tools req with
                                            | Some l => l
                                            | None => []
                                            end) 0)
           then getSystemPrompt m match req_tools req with
                                  | Some l => l
                                  | None => []
                                  end
           else []) = []) as ->.
  { unfold declares_no_tools in NT.
    destruct (req_tools req) as [[|t l]|]; try discriminate;
      now rewrite andb_false_r. }
  simpl is_empty. rewrite andb_false_r.
  rewrite all_some_map_id.
  - now rewrite (mergeAdjacentMessages_id _ AD).
  - unfold has_tool_history in NH. intros msg I. apply rewrite_message_id.
    + destruct (_ || _) eqn:E; [|reflexivity].
      rewrite <- NH. symmetry. apply existsb_exists. now exists msg.
    + now apply PS.
Qed.

End Rewrite.

Lemma tool_message_rewrite_witness :
  exists name result,
    @rewrite_message sample_host sample_markers true [] empty_name_tool_message
    = Some (tool_result_message sample_markers true name result)
    /\ (forall n, msg_name empty_name_tool_message = Some n -> n <> [] -> name = n)
    /\ (forall i, absent_or_empty (msg_name empty_name_tool_message) ->
                  msg_tool_call_id empty_name_tool_message = Some i ->
                  i <> [] -> name = i)
    /\ (absent_or_empty (msg_name empty_name_tool_message) ->
        absent_or_empty (msg_tool_call_id empty_name_tool_message) ->
        name = lit "unknown")
    /\ (forall s, msg_content empty_name_tool_message = Some (JStr s) -> result = s)
    /\ (forall v, msg_content empty_name_tool_message = Some v ->
                  (forall s, v <> JStr s) ->
                  result = @JSON_stringify sample_host v)
    /\ (msg_content empty_name_tool_message = None -> result = lit "undefined").
Proof.
  apply (@tool_message_rewrite sample_host sample_markers true []
           empty_name_tool_message).
  reflexivity.
Defined.

(** C10 as worded fails on a tool message whose [name] is the empty
    string: the specification makes the written name the (empty) [name]
    field, the code writes the [tool_call_id]. *)
Lemma tool_name_empty_counterexample :
  @rewrite_message sample_host sample_markers false [] empty_name_tool_message
  = Some (tool_result_message sample_markers false (lit "call_1") (lit "42"))
  /\ @rewrite_message sample_host sample_markers false [] empty_name_tool_message
     <> Some (tool_result_message sample_markers false
                (claimed_tool_name empty_name_tool_message) (lit "42")).
Proof.
  split; [reflexivity | discriminate].
Qed.

Lemma transformRequest_plain_witness :
  @transformRequest sample_host sample_markers plain_chat false
  = Some (without_tools plain_chat).
Proof.
  apply (@transformRequest_plain sample_host sample_markers plain_chat false).
  - reflexivity.
  - reflexivity.
  - reflexivity.
  - intros msg I R. simpl in I.
    destruct I as [<- | [<- | [<- | [<- | []]]]];
      try (vm_compute in R; discriminate R).
    now exists (lit "be brief").
Defined.

(** C6 as worded fails on a request with two user turns in a row: they are
    merged into one message. *)
Lemma transformRequest_merge_counterexample :
  declares_no_tools two_user_turns = true
  /\ has_tool_history (req_messages two_user_turns) = false
  /\ @transformRequest sample_host sample_markers two_user_turns false
     <> Some (without_tools two_user_turns).
Proof.
  split; [reflexivity | split; [reflexivity | discriminate]].
Qed.

(** ** The HTTP edge *)

Lemma one_of_In (x : jsstring) (xs : list jsstring) :
  one_of x xs = true <-> In x xs.
Proof.
  unfold one_of. rewrite existsb_exists. split.
  - intros (y & I & E). apply str_eqb_eq in E. now subst.
  - intro I. exists x. split; [assumption | apply str_eqb_refl].
Qed.

Lemma uint_codes_no_dot (u : Decimal.uint) : ~ In 46%N (uint_codes u).
Proof.
  induction u; simpl; [tauto|..]; intros [E | I]; try discriminate;
    now apply IHu.
Qed.

Lemma split_no_sep (sep : N) (x : jsstring) :
  ~ In sep x -> split sep x = [x].
Proof.
  induction x as [|c x IH]; intro N; [reflexivity|].
  simpl. destruct (N.eqb c sep) eqn:E.
  - apply N.eqb_eq in E. elim N. now left.
  - rewrite IH; [reflexivity|]. intro I. apply N. now right.
Qed.

Lemma split_app (sep : N) (x y : jsstring) :
  ~ In sep x -> split sep (x ++ sep :: y) = x :: split sep y.
Proof.
  induction x as [|c x IH]; intro N; simpl.
  - now rewrite N.eqb_refl.
  - destruct (N.eqb c sep) eqn:E.
    + apply N.eqb_eq in E. elim N. now left.
    + rewrite IH; [reflexivity|]. intro I. apply N. now right.
Qed.

Lemma codes_uint_codes (u : Decimal.uint) : codes_uint (uint_codes u) = Some u.
Proof. induction u; simpl; try rewrite IHu; reflexivity. Qed.

Lemma Number_of_dec (n : N) : Number_of (dec n) = Some n.
Proof.
  unfold Number_of, dec. rewrite codes_uint_codes. simpl.
  now rewrite DecimalN.Unsigned.of_to.
Qed.

Lemma split_dotted (a b c d : N) :
  split 46%N (dotted a b c d) = [dec a; dec b; dec c; dec d].
Proof.
  unfold dotted. simpl app.
  rewrite !split_app by apply uint_codes_no_dot.
  rewrite split_no_sep by apply uint_codes_no_dot. reflexivity.
Qed.

Lemma private_range_dotted (a b c d : N) :
  in_private_range a b -> exists error, private_range (dotted a b c d) = Some error.
Proof.
  intro R. unfold private_range. rewrite split_dotted. simpl map.
  rewrite !Number_of_dec. simpl.
  destruct R as [-> | [[-> [L U]] | [[-> ->] | ->]]]; simpl; eauto.
  apply N.leb_le in L, U. rewrite L, U. simpl. eauto.
Qed.

Lemma extractUpstream_nonempty (reqUrl u : jsstring) :
  extractUpstream reqUrl = Some u -> u <> [].
Proof.
  unfold extractUpstream. destruct reqUrl as [|c r]; [discriminate|].
  destruct (negb (c =? 47)%N); [discriminate|].
  destruct r as [|y t]; [discriminate|].
  destruct (match strip_prefix (lit "https://") (y :: t) with
            | Some r => Some r
            | None => strip_prefix (lit "http://") (y :: t)
            end) as [[|x r']|]; try discriminate.
  destruct (existsb is_line_terminator (x :: r')); [discriminate|].
  intros E. injection E as <-. discriminate.
Qed.

(** *** Properties of a parsed object *)

Lemma lookup_last_app (k : jsstring) (a b : fields) :
  lookup_last k (a ++ b)
  = match lookup_last k b with
    | Some v => Some v
    | None => lookup_last k a
    end.
Proof.
  induction a as [|[k' v'] a IH]; simpl.
  - now destruct (lookup_last k b).
  - rewrite IH. destruct (lookup_last k b); [reflexivity|].
    reflexivity.
Qed.

Lemma lookup_last_replace (k : jsstring) (v : json) (fs : fields) :
  lookup_last k (map (fun p => if str_eqb k (fst p) then (fst p, v) else p) fs)
  = match lookup_last k fs with
    | Some _ => Some v
    | None => None
    end.
Proof.
  induction fs as [|[k' v'] fs IH]; [reflexivity|].
  cbn [map fst]. destruct (str_eqb k k') eqn:E; cbn [lookup_last];
    rewrite IH, E; now destruct (lookup_last k fs).
Qed.

Lemma lookup_last_replace_other (k k' : jsstring) (v : json) (fs : fields) :
  k' <> k ->
  lookup_last k' (map (fun p => if str_eqb k (fst p) then (fst p, v) else p) fs)
  = lookup_last k' fs.
Proof.
  intro N. induction fs as [|[k0 v0] fs IH]; [reflexivity|].
  cbn [map fst]. destruct (str_eqb k k0) eqn:E; cbn [lookup_last];
    rewrite IH; [|reflexivity].
  apply str_eqb_eq in E. subst k0.
  destruct (str_eqb k' k) eqn:E'; [|reflexivity].
  apply str_eqb_eq in E'. contradiction.
Qed.

Lemma lookup_last_set_prop (k : jsstring) (v : json) (fs : fields) :
  lookup_last k (set_prop k v fs) = Some v.
Proof.
  unfold set_prop, has_own. destruct (lookup_last k fs) eqn:E.
  - now rewrite lookup_last_replace, E.
  - rewrite lookup_last_app. simpl. now rewrite str_eqb_refl.
Qed.

Lemma lookup_last_set_prop_other (k k' : jsstring) (v : json) (fs : fields) :
  k' <> k -> lookup_last k' (set_prop k v fs) = lookup_last k' fs.
Proof.
  intro N. unfold set_prop. destruct (has_own k fs).
  - now apply lookup_last_replace_other.
  - rewrite lookup_last_app. simpl.
    destruct (str_eqb k' k) eqn:E; [|reflexivity].
    apply str_eqb_eq in E. contradiction.
Qed.

(** The shape of a response in which the content of the first message is
    found. *)
Lemma message_content_inv (data v : json) :
  message_content data = Some v ->
  exists dfs chs cfs mfs,
    data = JObj dfs
    /\ lookup_last (lit "choices") dfs = Some chs
    /\ prop_index0 chs = Some (JObj cfs)
    /\ lookup_last (lit "message") cfs = Some (JObj mfs)
    /\ lookup_last (lit "content") mfs = Some v.
Proof.
  unfold message_content, opt_chain. intro E.
  destruct data as [| | | | |dfs]; try discriminate. cbn [prop_named] in E.
  destruct (lookup_last (lit "choices") dfs) as [chs|] eqn:C; [|discriminate].
  assert (exists c0, prop_index0 chs = Some c0
                     /\ match c0 with
                        | JNull => None
                        | _ =>
                            match prop_named c0 (lit "message") with
                            | None | Some JNull => None
                            | Some msg => prop_named msg (lit "content")
                            end
                        end = Some v) as (c0 & I & E').
  { destruct chs; try discriminate;
      (destruct (prop_index0 _) as [c0|]; [|discriminate]);
      exists c0; (split; [reflexivity|]); destruct c0; try discriminate; exact E. }
  destruct c0 as [| | | | |cfs]; try discriminate. cbn [prop_named] in E'.
  destruct (lookup_last (lit "message") cfs) as [msg|] eqn:Mg; [|discriminate].
  destruct msg as [| | | | |mfs]; try discriminate. cbn [prop_named] in E'.
  now exists dfs, chs, cfs, mfs.
Qed.

Section Edge.
Context `{Host} `{Network}.

Lemma validateUpstream_refused (upstream : option jsstring) :
  refused upstream ->
  exists reason, validateUpstream false upstream = Invalid reason.
Proof.
  intro R. unfold refused in R. unfold validateUpstream.
  destruct upstream as [[|c u]|]; eauto.
  destruct (URL_parse (c :: u)) as [parsed|]; eauto.
  destruct (one_of (protocol parsed) [lit "http:"; lit "https:"]) eqn:P;
    cbn [negb]; eauto.
  match goal with
  | |- context [one_of (hostname parsed) ?l] =>
      destruct (one_of (hostname parsed) l) eqn:L; eauto
  end.
  destruct R as [R | [R | (a & b & c' & d & D & R)]].
  - elim R. now apply one_of_In.
  - assert (one_of (hostname parsed)
              [lit "localhost"; lit "127.0.0.1"; lit "::1"; lit "0.0.0.0"] = true)
      as L' by (apply one_of_In; simpl in R |- *; tauto).
    congruence.
  - rewrite D. destruct (private_range_dotted a b c' d R) as [e ->]. eauto.
Qed.

(** X28.  With [ALLOW_LOCAL_NET] off, a request whose upstream URL is
    missing, does not parse, has a scheme other than http or https, has a
    host name that the URL parser returns as [localhost], [127.0.0.1] or
    [0.0.0.0], or resolves to an IPv4 address in 10/8, 172.16/12,
    192.168/16 or 127/8 is answered with status 403 and the error object
    of type [security_error] whose message starts with [Access denied: ],
    and no call to the upstream is made.  With the flag on, a URL that
    parses with an http or https scheme is valid whatever its host name and
    its address, and the request is not answered with that refusal. *)
Theorem upstream_validation (m : markers) (req : http_request) :
  (refused (extractUpstream (originalUrl req)) ->
   exists reason,
     handleRequest m false req
     = ([], RespError 403 (lit "Access denied: " ++ reason) (lit "security_error")))
  /\ (forall u parsed,
        extractUpstream (originalUrl req) = Some u ->
        URL_parse u = Some parsed ->
        In (protocol parsed) [lit "http:"; lit "https:"] ->
        validateUpstream true (Some u) = Valid
        /\ forall message type,
             snd (handleRequest m true req) <> RespError 403 message type).
Proof.
  split.
  - intro R. destruct (validateUpstream_refused _ R) as [reason V].
    exists reason. unfold handleRequest. now rewrite V.
  - intros u parsed E P S.
    assert (validateUpstream true (Some u) = Valid) as V.
    { unfold validateUpstream.
      destruct u as [|c u]; [now apply extractUpstream_nonempty in E|].
      rewrite P. apply one_of_In in S. now rewrite S. }
    split; [exact V|]. intros message type.
    unfold handleRequest. rewrite E, V.
    destruct (if _ && _ then transformRequest _ _ _ else Some _);
      [|cbn [snd]; discriminate].
    destruct (fetch _) as [up | msg]; [|cbn [snd]; discriminate].
    destruct (negb (up_ok up)); [cbn [snd]; discriminate|].
    destruct (_ && _); [destruct (run_stream _ _ _); cbn [snd]; discriminate|].
    destruct (match lookup_last _ _ with Some (JBool true) => true | _ => false end);
      [cbn [snd]; discriminate|].
    destruct (up_json up); [|cbn [snd]; discriminate].
    destruct (rewrite_completion _ _ _ _); cbn [snd]; discriminate.
Qed.

Lemma parse_empty (m : markers) (k : nat) :
  generated m -> parse m k [] = ([], []).
Proof.
  intro G. apply generated_wf in G. unfold markers_wf in G.
  repeat (apply andb_true_iff in G as [G ?]).
  unfold parse. simpl.
  destruct (TC_START m) as [|c s]; [discriminate|]. reflexivity.
Qed.

Lemma rewrite_completion_extracted (m : markers) (k : nat) (data : json) :
  generated m -> data <> JNull -> text_content data = true ->
  exists out, rewrite_completion m k true data = inl out
              /\ extracted_from m k data out.
Proof.
  intros G Nn T. unfold rewrite_completion, extracted_from, text_content in *.
  cbn [negb].
  assert (match data with
          | JNull => inr NullProperty
          | _ => if truthy (message_content data)
                 then match message_content data with
                      | Some (JStr text) =>
                          let (toolCalls, cleanContent) := parse m k text in
                          match toolCalls with
                          | [] => inl data
                          | _ :: _ =>
                              inl (update_prop (lit "choices")
                                     (update_index0
                                        (fun choice =>
                                           assign (lit "finish_reason")
                                             (JStr (lit "tool_calls"))
                                             (update_prop (lit "message")
                                                (fun message =>
                                                   assign (lit "content")
                                                     (if is_empty cleanContent
                                                      then JNull
                                                      else JStr cleanContent)
                                                     (assign (lit "tool_calls")
                                                        (JArr (map tool_call_json
                                                                 toolCalls))
                                                        message))
                                                choice)))
                                     data)
                          end
                      | Some v => match ToString v with
                                  | Some _ => inr NotAFunction
                                  | None => inr CannotConvert
                                  end
                      | None => inl data
                      end
                 else inl data
          end
          = if truthy (message_content data)
            then match message_content data with
                 | Some (JStr text) =>
                     let (toolCalls, cleanContent) := parse m k text in
                     match toolCalls with
                     | [] => inl data
                     | _ :: _ =>
                         inl (update_prop (lit "choices")
                                (update_index0
                                   (fun choice =>
                                      assign (lit "finish_reason")
                                        (JStr (lit "tool_calls"))
                                        (update_prop (lit "message")
                                           (fun message =>
                                              assign (lit "content")
                                                (if is_empty cleanContent
                                                 then JNull
                                                 else JStr cleanContent)
                                                (assign (lit "tool_calls")
                                                   (JArr (map tool_call_json
                                                            toolCalls))
                                                   message))
                                           choice)))
                                data)
                     end
                 | Some v => match ToString v with
                             | Some _ => inr NotAFunction
                             | None => inr CannotConvert
                             end
                 | None => inl data
                 end
            else inl data) as ->
    by (destruct data; [contradiction | reflexivity..]).
  destruct (message_content data) as [c|] eqn:C;
    [|exists data; now destruct (truthy None)].
  destruct c as [| | |text| |];
    try (rewrite (proj1 (negb_true_iff _) T); now exists data).
  destruct (truthy (Some (JStr text))) eqn:Tr.
  2:{ exists data. split; [reflexivity|]. destruct text; [|discriminate].
      now rewrite (parse_empty m k G). }
  destruct (parse m k text) as [[|tc tcs] clean]; [now exists data|].
  destruct (message_content_inv _ _ C) as (dfs & chs & cfs & mfs & -> & Ch & I & Mg & Ct).
  eexists. split; [reflexivity|].
  pose (msg' := JObj (set_prop (lit "content")
                        (if is_empty clean then JNull else JStr clean)
                        (set_prop (lit "tool_calls")
                           (JArr (map tool_call_json (tc :: tcs))) mfs))).
  assert (update_prop (lit "message")
            (fun message =>
               assign (lit "content") (if is_empty clean then JNull else JStr clean)
                 (assign (lit "tool_calls") (JArr (map tool_call_json (tc :: tcs)))
                    message)) (JObj cfs)
          = JObj (set_prop (lit "message") msg' cfs)) as Um
    by (unfold update_prop; now rewrite Mg).
  pose (ch' := JObj (set_prop (lit "finish_reason") (JStr (lit "tool_calls"))
                       (set_prop (lit "message") msg' cfs))).
  assert (exists chs',
            update_index0
              (fun choice =>
                 assign (lit "finish_reason") (JStr (lit "tool_calls"))
                   (update_prop (lit "message")
                      (fun message =>
                         assign (lit "content")
                           (if is_empty clean then JNull else JStr clean)
                           (assign (lit "tool_calls")
                              (JArr (map tool_call_json (tc :: tcs))) message))
                      choice)) chs = chs'
            /\ prop_index0 chs' = Some ch'
            /\ chs' <> JNull
            /\ same_but_first (Some chs') (Some chs)) as (chs' & Uc & Ic & Nc & Sc).
  { destruct chs as [| | |s|xs|ofs]; try discriminate.
    - destruct s; discriminate.
    - destruct xs as [|x xs]; [discriminate|]. injection I as ->.
      eexists. split; [reflexivity|]. cbn [update_index0]. rewrite Um.
      repeat split. discriminate.
    - cbn [prop_index0] in I. eexists. split; [reflexivity|].
      cbn [update_index0]. rewrite I, Um. cbn [prop_index0 same_but_first].
      rewrite lookup_last_set_prop. repeat split; [discriminate|].
      intros name Nm. now apply lookup_last_set_prop_other. }
  match goal with
  | |- context [update_prop (lit "choices") ?F (JObj dfs)] =>
      assert (update_prop (lit "choices") F (JObj dfs)
              = JObj (set_prop (lit "choices") chs' dfs)) as Ud
        by (unfold update_prop at 1; now rewrite Ch, Uc);
      rewrite !Ud
  end.
  assert (first_choice (JObj (set_prop (lit "choices") chs' dfs)) = Some ch') as Fc.
  { unfold first_choice, opt_chain. cbn [prop_named].
    rewrite lookup_last_set_prop. destruct chs'; exact Ic. }
  assert (first_message (JObj (set_prop (lit "choices") chs' dfs)) = Some msg') as Fm.
  { unfold first_message. rewrite Fc. unfold opt_chain, ch'. cbn [prop_named].
    rewrite lookup_last_set_prop_other by discriminate.
    apply lookup_last_set_prop. }
  assert (first_choice (JObj dfs) = Some (JObj cfs)) as Fc0.
  { unfold first_choice, opt_chain. cbn [prop_named]. rewrite Ch.
    destruct chs; exact I. }
  assert (first_message (JObj dfs) = Some (JObj mfs)) as Fm0.
  { unfold first_message. rewrite Fc0. unfold opt_chain. cbn [prop_named].
    exact Mg. }
  rewrite Fc, Fm, Fc0, Fm0. unfold prop_of, opt_chain, msg', ch'.
  cbn [prop_named].
  split; [|split; [|split; [|split; [|split; [|split]]]]].
  - rewrite lookup_last_set_prop_other by discriminate.
    apply lookup_last_set_prop.
  - apply lookup_last_set_prop.
  - apply lookup_last_set_prop.
  - intros name N1 N2. now rewrite !lookup_last_set_prop_other.
  - intros name N1 N2. now rewrite !lookup_last_set_prop_other.
  - rewrite lookup_last_set_prop, Ch. exact Sc.
  - intros name N1. now apply lookup_last_set_prop_other.
Qed.

(** C8, amended.  For a chat-completions request that declares tools,
    does not stream and is rewritten without a throw, and an upstream that
    answers with a JSON value other than null in which the content of the
    first message is a string, or is absent or falsy: when the parser
    extracts tool calls from that content, the response carries them as
    [tool_calls], its content is the residual text (null when empty) and
    its finish reason is [tool_calls]; when the parser extracts none, the
    response is the upstream value unchanged; in both cases the other
    choices and every other property are those of the upstream value.  The
    markers are those of a started process. *)
Theorem nonstream_response (m : markers) (allow : bool) (req : http_request)
  (u : jsstring) (tool : tool_spec) (tools : list tool_spec)
  (up : upstream_response) (data : json) :
  generated m ->
  extractUpstream (originalUrl req) = Some u ->
  validateUpstream allow (Some u) = Valid ->
  includes (lit "/chat/completions") u = true ->
  req_tools (body req) = Some (tool :: tools) ->
  lookup_last (lit "stream") (req_extra (body req)) <> Some (JBool true) ->
  transformRequest m (body req) true <> None ->
  (forall call, fetch call = inl up) ->
  up_ok up = true ->
  up_json up = inl data ->
  data <> JNull ->
  text_content data = true ->
  exists out,
    snd (handleRequest m allow req) = RespData out
    /\ extracted_from m 0 data out.
Proof.
  intros G E V C T S R F O J Nn Tc.
  destruct (rewrite_completion_extracted m 0 data G Nn Tc) as (out & Rw & Ex).
  exists out. split; [|exact Ex].
  unfold handleRequest. rewrite E, V, C, T. cbn [andb orb].
  destruct (transformRequest m (body req) true) as [body'|]; [|contradiction].
  rewrite F, O, J, Rw. simpl.
  destruct (lookup_last (lit "stream") (req_extra (body req)))
    as [[| [|] | | | |]|]; try reflexivity.
  now elim S.
Qed.

End Edge.

Lemma upstream_validation_witness :
  let net := sample_network "http:" "127.0.0.1" None sample_answer in
  let req := sample_http_request "/http://127.0.0.1:8080/x" in
  @refused net (extractUpstream (originalUrl req))
  /\ exists reason,
       @handleRequest sample_host net sample_markers false req
       = ([], RespError 403 (lit "Access denied: " ++ reason) (lit "security_error")).
Proof.
  intros net req.
  assert (@refused net (extractUpstream (originalUrl req))) as R.
  { simpl. right. left. simpl. auto. }
  split; [exact R|].
  exact (proj1 (@upstream_validation sample_host net sample_markers req) R).
Defined.

(** C7.  The claim fails on the code for the host [::1].  The list of
    local names holds [::1], but a URL writes that host as [[::1]] and the
    URL parser returns the host name of an IPv6 literal with its brackets,
    so the comparison never holds; the resolver rejects the bracketed
    name, the rejection is caught, and the URL is declared valid.  For the
    request path [/http://[::1]:8080/v1/chat/completions] with
    [ALLOW_LOCAL_NET] off the proxy does not answer 403: it calls the
    upstream on the loopback interface. *)
Theorem ipv6_loopback_not_refused :
  let req := sample_http_request "/http://[::1]:8080/v1/chat/completions" in
  extractUpstream (originalUrl req)
  = Some (lit "http://[::1]:8080/v1/chat/completions")
  /\ @validateUpstream ipv6_network false (extractUpstream (originalUrl req))
     = Valid
  /\ exists call response,
       @handleRequest sample_host ipv6_network sample_markers false req
       = ([call], response)
       /\ f_url call = lit "http://[::1]:8080/v1/chat/completions"
       /\ forall message type, response <> RespError 403 message type.
Proof.
  intro req. split; [reflexivity | split; [reflexivity|]].
  eexists _, _. split; [vm_compute; reflexivity|].
  split; [reflexivity | discriminate].
Qed.

Lemma nonstream_response_witness :
  let net := sample_network "https:" "api.example.com"
               (Some (lit "93.184.216.34")) sample_answer in
  let req := sample_http_request "/https://api.example.com/v1/chat/completions" in
  exists out,
    snd (@handleRequest sample_host net sample_markers false req) = RespData out
    /\ @extracted_from sample_host sample_markers 0 sample_completion out.
Proof.
  intros net req.
  apply (@nonstream_response sample_host net sample_markers false req
           (lit "https://api.example.com/v1/chat/completions")
           sample_tool [] sample_answer sample_completion).
  - exact sample_generated.
  - reflexivity.
  - vm_compute. reflexivity.
  - vm_compute. reflexivity.
  - reflexivity.
  - discriminate.
  - vm_compute. discriminate.
  - reflexivity.
  - reflexivity.
  - reflexivity.
  - discriminate.
  - reflexivity.
Defined.

(** C8 as worded fails on an upstream response whose first message has an
    array of parts as content: the parser extracts no call from it, yet
    the response is not returned unchanged.  [parse] calls [replace] on
    the array, the TypeError is caught and the client gets a 502.  It
    fails as well when the upstream answers with the JSON null, on which
    [data.choices] throws, and when the request holds a system message
    whose content cannot be converted to a string: [transformRequest]
    throws before the upstream is called and the client gets a 500. *)
Lemma nonstream_response_counterexample :
  let url := "/https://api.example.com/v1/chat/completions"%string in
  let net answer := sample_network "https:" "api.example.com"
                      (Some (lit "93.184.216.34")) answer in
  (snd (@handleRequest sample_host (net (json_answer parts_completion))
          sample_markers false (sample_http_request url))
   = RespError 502 (lit "content.replace is not a function") (lit "proxy_error")
   /\ snd (@handleRequest sample_host (net (json_answer parts_completion))
             sample_markers false (sample_http_request url))
      <> RespData parts_completion)
  /\ snd (@handleRequest sample_host (net (json_answer JNull))
            sample_markers false (sample_http_request url))
     = RespError 502 (lit "Cannot read properties of null (reading 'choices')")
         (lit "proxy_error")
  /\ @handleRequest sample_host (net sample_answer) sample_markers false
       (stubborn_http_request url)
     = ([], RespError 500 (lit "Cannot convert object to primitive value")
              (lit "server_error")).
Proof.
  intros url net. split; [split|split].
  - vm_compute. reflexivity.
  - vm_compute. discriminate.
  - vm_compute. reflexivity.
  - vm_compute. reflexivity.
Qed.
(** ** The regex matcher on an envelope *)

Lemma rx_lit_app (s : jsstring) (p : list rx) (t : jsstring) :
  rx_match (RxLit s :: p) (s ++ t) = rx_match p t.
Proof. simpl. now rewrite strip_prefix_app. Qed.

Lemma rx_lit_fail (s : jsstring) (p : list rx) (t : jsstring) :
  startsWith s t = false -> rx_match (RxLit s :: p) t = None.
Proof. intro F. simpl. now rewrite strip_prefix_startsWith. Qed.

Lemma rx_spaces_cons (p : list rx) (c : N) (t : jsstring) :
  rx_match (RxSpaces :: p) (c :: t)
  = if is_space c then
      match rx_match (RxSpaces :: p) t with
      | Some r => Some r
      | None => rx_match p (c :: t)
      end
    else rx_match p (c :: t).
Proof. reflexivity. Qed.

Lemma rx_group_unfold (p : list rx) (t : jsstring) :
  rx_match (RxGroup :: p) t
  = match rx_match p t with
    | Some (caps, rest) => Some ([] :: caps, rest)
    | None =>
        match t with
        | c :: t' =>
            match rx_match (RxGroup :: p) t' with
            | Some (cap :: caps, rest) => Some ((c :: cap) :: caps, rest)
            | _ => None
            end
        | [] => None
        end
    end.
Proof. destruct t; reflexivity. Qed.

Lemma rx_group_cons (p : list rx) (c : N) (t : jsstring) :
  rx_match p (c :: t) = None ->
  rx_match (RxGroup :: p) (c :: t)
  = match rx_match (RxGroup :: p) t with
    | Some (cap :: caps, rest) => Some ((c :: cap) :: caps, rest)
    | _ => None
    end.
Proof. intro F. rewrite rx_group_unfold, F. reflexivity. Qed.

Lemma starts_solid_space (l : jsstring) (c : N) (t : jsstring) :
  starts_solid l = true -> is_space c = true -> startsWith l (c :: t) = false.
Proof.
  destruct l as [|x l]; [discriminate|]. simpl. intros S C.
  destruct (N.eqb x c) eqn:E; [|reflexivity].
  apply N.eqb_eq in E. subst. rewrite C in S. discriminate.
Qed.

(** A white space run before a literal that starts with a solid unit is
    consumed whole. *)
Lemma rx_spaces_lit (l : jsstring) (p : list rx) (w t : jsstring) :
  starts_solid l = true -> all_space w = true ->
  rx_match (RxSpaces :: RxLit l :: p) (w ++ l ++ t) = rx_match p t.
Proof.
  intros S. induction w as [|c w IH]; intro W.
  - simpl app. destruct l as [|x l]; [discriminate|].
    change ((x :: l) ++ t) with (x :: (l ++ t)).
    rewrite rx_spaces_cons. simpl in S. apply negb_true_iff in S. rewrite S.
    apply (rx_lit_app (x :: l)).
  - simpl in W. apply andb_true_iff in W as [C W].
    change ((c :: w) ++ l ++ t) with (c :: (w ++ l ++ t)).
    rewrite rx_spaces_cons, C, (IH W).
    destruct (rx_match p t); [reflexivity|].
    apply rx_lit_fail. now apply starts_solid_space.
Qed.

(** A lazy group before an unbordered literal captures the text up to the
    first occurrence of the literal, provided the rest of the pattern
    matches there. *)
Lemma rx_group_lit (l : jsstring) (p : list rx) (x t : jsstring)
  (caps : list jsstring) (rest : jsstring) :
  unbordered l = true -> indexOf l x = None ->
  rx_match p t = Some (caps, rest) ->
  rx_match (RxGroup :: RxLit l :: p) (x ++ l ++ t) = Some (x :: caps, rest).
Proof.
  intros U. induction x as [|c x IH]; intros Hx M.
  - simpl app. rewrite rx_group_unfold, rx_lit_app, M. reflexivity.
  - change ((c :: x) ++ l ++ t) with (c :: (x ++ l ++ t)).
    rewrite rx_group_cons.
    + rewrite IH; [reflexivity | | assumption].
      now apply indexOf_None_tail in Hx.
    + apply rx_lit_fail.
      apply (startsWith_before l (c :: x) t); congruence.
Qed.

Section Envelope.
Variable m : markers.
Hypothesis WF : markers_wf m = true.

Lemma wf_parts :
  unbordered (TC_START m) = true /\ unbordered (NAME_END m) = true
  /\ unbordered (ARGS_END m) = true /\ starts_solid (TC_START m) = true
  /\ starts_solid (NAME_START m) = true /\ starts_solid (ARGS_START m) = true
  /\ starts_solid (TC_END m) = true /\ List.length (TC_START m) = 3.
Proof.
  pose proof WF as G. unfold markers_wf in G.
  repeat (apply andb_true_iff in G as [G ?]).
  apply Nat.eqb_eq in H. tauto.
Qed.

Lemma rx_match_envelope (w1 w2 w3 name args post : jsstring) :
  all_space w1 = true -> all_space w2 = true -> all_space w3 = true ->
  indexOf (NAME_END m) name = None -> indexOf (ARGS_END m) args = None ->
  rx_match (tool_regex m) (envelope m w1 w2 w3 name args ++ post)
  = Some ([name; args], post).
Proof.
  intros W1 W2 W3 Hn Ha.
  destruct wf_parts as (_ & U2 & U3 & _ & S2 & S3 & S4 & _).
  unfold envelope, tool_regex. rewrite <- !app_assoc.
  rewrite rx_lit_app.
  rewrite (rx_spaces_lit _ _ _ _ S2 W1).
  apply rx_group_lit; [assumption | assumption |].
  rewrite (rx_spaces_lit _ _ _ _ S3 W2).
  apply rx_group_lit; [assumption | assumption |].
  rewrite (rx_spaces_lit _ _ _ _ S4 W3). reflexivity.
Qed.

Lemma scan_skip (p : list rx) (x y : jsstring) :
  scan p (List.length x) (x ++ y) = scan p 0 y.
Proof. induction x as [|c x IH]; [reflexivity | exact IH]. Qed.

Lemma scan_units (pre y : jsstring) :
  indexOf (TC_START m) pre = None ->
  scan (tool_regex m) 0 (pre ++ TC_START m ++ y)
  = map SegUnit pre ++ scan (tool_regex m) 0 (TC_START m ++ y).
Proof.
  destruct wf_parts as (U1 & _).
  induction pre as [|c pre IH]; intro Hp; [reflexivity|].
  change ((c :: pre) ++ TC_START m ++ y) with (c :: (pre ++ TC_START m ++ y)).
  assert (rx_match (tool_regex m) (c :: (pre ++ TC_START m ++ y)) = None) as F.
  { apply rx_lit_fail.
    apply (startsWith_before (TC_START m) (c :: pre) y); congruence. }
  cbn [scan]. rewrite F. cbn [map app]. f_equal.
  apply IH. now apply indexOf_None_tail in Hp.
Qed.

Lemma envelope_cons (w1 w2 w3 name args : jsstring) :
  exists c e, envelope m w1 w2 w3 name args = c :: e
              /\ envelope m w1 w2 w3 name args
                 = TC_START m
                   ++ (w1 ++ NAME_START m ++ name ++ NAME_END m ++ w2
                       ++ ARGS_START m ++ args ++ ARGS_END m ++ w3 ++ TC_END m).
Proof.
  destruct wf_parts as (_ & _ & _ & S1 & _).
  unfold envelope. destruct (TC_START m) as [|c s]; [discriminate|].
  simpl. eauto.
Qed.

Lemma scan_envelope (w1 w2 w3 name args post : jsstring) :
  all_space w1 = true -> all_space w2 = true -> all_space w3 = true ->
  indexOf (NAME_END m) name = None -> indexOf (ARGS_END m) args = None ->
  scan (tool_regex m) 0 (envelope m w1 w2 w3 name args ++ post)
  = SegMatch [name; args] :: scan (tool_regex m) 0 post.
Proof.
  intros W1 W2 W3 Hn Ha.
  pose proof (rx_match_envelope w1 w2 w3 name args post W1 W2 W3 Hn Ha) as M.
  destruct (envelope_cons w1 w2 w3 name args) as (c & e & E & _).
  rewrite E in *. change ((c :: e) ++ post) with (c :: (e ++ post)) in *.
  cbn [scan]. rewrite M. f_equal.
  replace (List.length (c :: e ++ post) - List.length post - 1)
    with (List.length e).
  - apply scan_skip.
  - change (List.length (c :: e ++ post)) with (S (List.length (e ++ post))).
    rewrite length_app. lia.
Qed.

(** An envelope after a text free of [TC_START]: the text is kept, the
    envelope is one match, the scan goes on after it. *)
Lemma scan_text_envelope (pre w1 w2 w3 name args post : jsstring) :
  indexOf (TC_START m) pre = None ->
  all_space w1 = true -> all_space w2 = true -> all_space w3 = true ->
  indexOf (NAME_END m) name = None -> indexOf (ARGS_END m) args = None ->
  scan (tool_regex m) 0 (pre ++ envelope m w1 w2 w3 name args ++ post)
  = map SegUnit pre ++ SegMatch [name; args] :: scan (tool_regex m) 0 post.
Proof.
  intros Hp W1 W2 W3 Hn Ha.
  destruct (envelope_cons w1 w2 w3 name args) as (c & e & _ & E).
  rewrite <- (scan_envelope w1 w2 w3 name args post W1 W2 W3 Hn Ha).
  rewrite E, <- !app_assoc. now apply scan_units.
Qed.

End Envelope.

Lemma exec_all_app (a b : list segment) :
  exec_all (a ++ b) = exec_all a ++ exec_all b.
Proof.
  induction a as [|[c|caps] a IH]; simpl; [reflexivity | assumption |].
  now rewrite IH.
Qed.

Lemma replace_all_app (a b : list segment) :
  replace_all (a ++ b) = replace_all a ++ replace_all b.
Proof.
  induction a as [|[c|caps] a IH]; simpl; [reflexivity | | assumption].
  now rewrite IH.
Qed.

Lemma exec_all_units (x : jsstring) : exec_all (map SegUnit x) = [].
Proof. induction x; simpl; auto. Qed.

Lemma replace_all_units (x : jsstring) : replace_all (map SegUnit x) = x.
Proof. induction x; simpl; congruence. Qed.

(** ** Call ids *)

Lemma uint_codes_digit (u : Decimal.uint) (c : N) :
  In c (uint_codes u) -> (48 <= c <= 57)%N.
Proof.
  induction u; simpl; [tauto|..]; (intros [<- | I]; [lia | now apply IHu]).
Qed.

Lemma dec_no_underscore (n : N) : ~ In 95%N (dec n).
Proof. intro I. apply uint_codes_digit in I. lia. Qed.

Lemma uint_codes_inj (u v : Decimal.uint) :
  uint_codes u = uint_codes v -> u = v.
Proof.
  intro E. apply (f_equal codes_uint) in E.
  rewrite !codes_uint_codes in E. congruence.
Qed.

Lemma dec_inj (a b : N) : dec a = dec b -> a = b.
Proof.
  intro E. apply uint_codes_inj in E. now apply DecimalN.Unsigned.to_uint_inj.
Qed.

Lemma split_at_separator (sep : N) (x x' y y' : jsstring) :
  ~ In sep x -> ~ In sep x' -> x ++ sep :: y = x' ++ sep :: y' ->
  x = x' /\ y = y'.
Proof.
  revert x'; induction x as [|c x IH]; intros [|c' x'] N N' E; simpl in E.
  - injection E as <-. now split.
  - injection E as <- _. elim N'. now left.
  - injection E as -> _. elim N. now left.
  - injection E as <- E.
    destruct (IH x') as [-> ->]; auto.
    + intro I. apply N. now right.
    + intro I. apply N'. now right.
Qed.

Lemma call_id_index (t t' : N) (i j : nat) :
  call_id t i = call_id t' j -> i = j.
Proof.
  unfold call_id. intro E. apply app_inv_head in E.
  change (lit "_") with [95%N] in E. simpl app in E.
  apply split_at_separator in E as [_ E]; try apply dec_no_underscore.
  apply dec_inj in E. now apply Nat2N.inj.
Qed.

(** ** The parser on envelopes *)

Lemma trimStart_line_feeds (n : nat) : trimStart (repeat LF n) = [].
Proof. induction n; simpl; auto. Qed.

Lemma trim_line_feeds (n : nat) : trim (repeat LF n) = [].
Proof. unfold trim. now rewrite trimStart_line_feeds. Qed.

Section Parser.
Context `{Host}.

Lemma collect_calls_ids (k idx : nat) (ms : list (list jsstring)) (c : tool_call) :
  In c (collect_calls k idx ms) ->
  exists t j, idx <= j /\ tc_id c = call_id t j.
Proof.
  revert k idx; induction ms as [|caps ms IH]; intros k idx I; simpl in I.
  - contradiction.
  - destruct (JSON_parse (trim (nth 1 caps []))) as [v|].
    + destruct I as [<- | I].
      * exists (now k), idx. split; [lia | reflexivity].
      * destruct (IH _ _ I) as (t & j & L & E). exists t, j. split; [lia | exact E].
    + exact (IH _ _ I).
Qed.

Lemma collect_calls_NoDup (k idx : nat) (ms : list (list jsstring)) :
  NoDup (map tc_id (collect_calls k idx ms)).
Proof.
  revert k idx; induction ms as [|caps ms IH]; intros k idx; simpl.
  - constructor.
  - destruct (JSON_parse (trim (nth 1 caps []))) as [v|]; [|apply IH].
    simpl. constructor; [|apply IH].
    intro I. apply in_map_iff in I as (c & E & I).
    apply collect_calls_ids in I as (t & j & L & E').
    rewrite E' in E. apply call_id_index in E. lia.
Qed.

Lemma collect_calls_readable (m : markers) (k idx : nat) (L : list tool_call) :
  forallb (readable_call m) L = true ->
  map function_of
    (collect_calls k idx (map (fun tc => [fn_name tc; fn_arguments tc]) L))
  = map trimmed_function L.
Proof.
  revert k idx; induction L as [|tc L IH]; intros k idx R; [reflexivity|].
  simpl in R. apply andb_true_iff in R as [R1 R2].
  unfold readable_call in R1. simpl.
  destruct (indexOf (NAME_END m) (fn_name tc)); [discriminate|].
  destruct (indexOf (ARGS_END m) (fn_arguments tc)); [discriminate|].
  destruct (JSON_parse (trim (fn_arguments tc))); [|discriminate].
  simpl. f_equal. now apply IH.
Qed.

Lemma readable_call_parts (m : markers) (tc : tool_call) :
  readable_call m tc = true ->
  indexOf (NAME_END m) (fn_name tc) = None
  /\ indexOf (ARGS_END m) (fn_arguments tc) = None.
Proof.
  unfold readable_call.
  destruct (indexOf (NAME_END m) (fn_name tc)); [discriminate|].
  destruct (indexOf (ARGS_END m) (fn_arguments tc)); [discriminate|]. auto.
Qed.

Lemma line_feed_free (m : markers) :
  markers_wf m = true -> indexOf (TC_START m) [LF] = None.
Proof.
  intro WF. destruct (wf_parts m WF) as (_ & _ & _ & _ & _ & _ & _ & L).
  destruct (TC_START m) as [|a [|b [|c [|d s]]]]; try discriminate.
  simpl. now rewrite andb_false_r.
Qed.

Lemma scan_encode_calls (m : markers) (L : list tool_call) :
  markers_wf m = true ->
  forallb (readable_call m) L = true ->
  scan (tool_regex m) 0 (encode_calls m L)
  = flat_map (fun tc => [SegUnit LF; SegMatch [fn_name tc; fn_arguments tc]]) L.
Proof.
  intros WF. induction L as [|tc L IH]; intro R.
  - simpl. destruct (wf_parts m WF) as (_ & _ & _ & S & _).
    destruct (TC_START m); [discriminate | reflexivity].
  - simpl in R. apply andb_true_iff in R as [R1 R2].
    apply readable_call_parts in R1 as [Hn Ha].
    unfold encode_calls. cbn [map concat flat_map].
    fold (encode_calls m L). unfold encode_call.
    change ([LF] ++ TC_START m ++ [LF] ++ NAME_START m ++ fn_name tc
            ++ NAME_END m ++ [LF] ++ ARGS_START m ++ fn_arguments tc
            ++ ARGS_END m ++ [LF] ++ TC_END m)
      with ([LF] ++ envelope m [LF] [LF] [LF] (fn_name tc) (fn_arguments tc)).
    rewrite <- app_assoc.
    rewrite (scan_text_envelope m WF); auto using line_feed_free.
    rewrite (IH R2). reflexivity.
Qed.

Lemma exec_all_encoded (L : list tool_call) :
  exec_all (flat_map (fun tc => [SegUnit LF; SegMatch [fn_name tc; fn_arguments tc]]) L)
  = map (fun tc => [fn_name tc; fn_arguments tc]) L.
Proof. induction L; simpl; congruence. Qed.

Lemma replace_all_encoded (L : list tool_call) :
  replace_all
    (flat_map (fun tc => [SegUnit LF; SegMatch [fn_name tc; fn_arguments tc]]) L)
  = repeat LF (List.length L).
Proof. induction L; simpl; congruence. Qed.

Lemma scan_empty (m : markers) :
  markers_wf m = true -> scan (tool_regex m) 0 [] = [].
Proof.
  intro WF. destruct (wf_parts m WF) as (_ & _ & _ & S & _). simpl.
  destruct (TC_START m); [discriminate | reflexivity].
Qed.

Lemma delimited_parts (m : markers) (e : envelope_parts) :
  delimited m e = true ->
  all_space (ep_w1 e) = true /\ all_space (ep_w2 e) = true
  /\ all_space (ep_w3 e) = true
  /\ indexOf (NAME_END m) (ep_name e) = None
  /\ indexOf (ARGS_END m) (ep_args e) = None.
Proof.
  unfold delimited. intro D.
  apply andb_true_iff in D as [D D4]. apply andb_true_iff in D as [D D3].
  apply andb_true_iff in D as [D1 D2].
  destruct (indexOf (NAME_END m) (ep_name e)); [discriminate|].
  destruct (indexOf (ARGS_END m) (ep_args e)); [discriminate|]. auto.
Qed.

Lemma plain_spec (m : markers) (t : jsstring) :
  plain m t = true -> indexOf (TC_START m) t = None.
Proof. unfold plain. now destruct (indexOf (TC_START m) t). Qed.

(** A plain part and an envelope in front of any text: the part is kept,
    the envelope is one match, whatever follows is scanned on its own. *)
Lemma scan_block (m : markers) (t : jsstring) (e : envelope_parts)
  (post : jsstring) :
  markers_wf m = true -> plain m t = true -> delimited m e = true ->
  scan (tool_regex m) 0 (t ++ envelope_text m e ++ post)
  = map SegUnit t ++ SegMatch [ep_name e; ep_args e] :: scan (tool_regex m) 0 post.
Proof.
  intros WF P D. apply plain_spec in P.
  apply delimited_parts in D as (W1 & W2 & W3 & Hn & Ha).
  now apply scan_text_envelope.
Qed.

Lemma scan_blocks (m : markers) (ps : list (jsstring * envelope_parts))
  (post : jsstring) :
  markers_wf m = true -> blocks_ok m ps = true ->
  scan (tool_regex m) 0 (blocks_text m ps ++ post)
  = scan (tool_regex m) 0 (blocks_text m ps) ++ scan (tool_regex m) 0 post.
Proof.
  intros WF. induction ps as [|[t e] ps IH]; intro B.
  - unfold blocks_text. cbn [map concat app]. now rewrite scan_empty.
  - simpl in B. apply andb_true_iff in B as [B1 B2].
    apply andb_true_iff in B1 as [P D].
    unfold blocks_text. cbn [map concat fst snd]. fold (blocks_text m ps).
    rewrite <- !app_assoc.
    rewrite !(scan_block m t e _ WF P D), (IH B2), <- app_assoc. reflexivity.
Qed.

Lemma collect_calls_functions (k idx k' idx' : nat) (ms : list (list jsstring)) :
  map function_of (collect_calls k idx ms)
  = map function_of (collect_calls k' idx' ms).
Proof.
  revert k idx k' idx'; induction ms as [|caps ms IH]; intros; simpl;
    [reflexivity|].
  destruct (JSON_parse (trim (nth 1 caps []))) as [v|]; [|apply IH].
  simpl. f_equal. apply IH.
Qed.

Lemma collect_calls_app (k idx : nat) (a b : list (list jsstring)) :
  map function_of (collect_calls k idx (a ++ b))
  = map function_of (collect_calls k idx a)
    ++ map function_of (collect_calls k idx b).
Proof.
  revert k idx; induction a as [|caps a IH]; intros k idx; simpl;
    [reflexivity|].
  destruct (JSON_parse (trim (nth 1 caps []))) as [v|].
  - simpl. f_equal. rewrite IH. f_equal. apply collect_calls_functions.
  - apply IH.
Qed.

(** C1, amended.  Take a text made of well-delimited envelopes, each
    after a part free of [TC_START], then a part free of [TC_START], then
    a well-delimited envelope (white space between its parts, no
    [NAME_END] in the name, no [ARGS_END] in the arguments) whose
    arguments, without the white space around them, are not JSON, then
    any text.  The parser does not extract that envelope as a tool call:
    the functions it returns are those of the text before followed by
    those of the text after.  The whole block, delimiters included, is
    removed from the residual text it returns: the residual is the trimmed
    concatenation of what remains of the text before, the part, and what
    remains of the text after. *)
Theorem malformed_envelope_removed (m : markers) (k : nat)
  (before : list (jsstring * envelope_parts)) (pre : jsstring)
  (bad : envelope_parts) (post : jsstring) :
  generated m ->
  blocks_ok m before = true ->
  plain m pre = true ->
  delimited m bad = true ->
  JSON_parse (trim (ep_args bad)) = None ->
  let content := blocks_text m before ++ pre ++ envelope_text m bad ++ post in
  map function_of (fst (parse m k content))
  = map function_of (fst (parse m k (blocks_text m before)))
    ++ map function_of (fst (parse m k post))
  /\ snd (parse m k content)
     = trim (strip_calls m (blocks_text m before) ++ pre ++ strip_calls m post).
Proof.
  intros G B P D J content. apply generated_wf in G.
  unfold content, parse, strip_calls. cbn [fst snd].
  rewrite (scan_blocks m before _ G B), (scan_block m pre bad post G P D).
  rewrite !exec_all_app, !replace_all_app, exec_all_units, replace_all_units.
  cbn [exec_all replace_all app].
  rewrite collect_calls_app. cbn [collect_calls nth]. rewrite J.
  split; reflexivity.
Qed.

(** C4, amended.  For a list of tool calls in which no name holds
    [NAME_END], no arguments string holds [ARGS_END] and every arguments
    string is JSON once the white space around it is removed, encoding the
    list and parsing the result yields tool calls whose names and arguments
    are those of the list with the white space around them removed,
    pairwise and in order, an empty residual text, and pairwise distinct
    ids. *)
Theorem encode_parse_roundtrip (m : markers) (k : nat) (L : list tool_call) :
  generated m ->
  forallb (readable_call m) L = true ->
  map function_of (fst (parse m k (encode_calls m L))) = map trimmed_function L
  /\ snd (parse m k (encode_calls m L)) = []
  /\ NoDup (map tc_id (fst (parse m k (encode_calls m L)))).
Proof.
  intros G R. apply generated_wf in G.
  unfold parse. cbn [fst snd].
  rewrite (scan_encode_calls m L G R), exec_all_encoded, replace_all_encoded.
  split; [|split].
  - now apply (collect_calls_readable m).
  - apply trim_line_feeds.
  - apply collect_calls_NoDup.
Qed.

End Parser.

Lemma malformed_envelope_removed_witness :
  let before := [(lit "Sure." ++ [LF], sample_envelope "add" sample_args)] in
  let bad := sample_envelope "add" (lit "{oops}") in
  let content :=
    blocks_text sample_markers before ++ lit " Then "
    ++ envelope_text sample_markers bad ++ lit " Done." in
  map function_of (fst (@parse sample_host sample_markers 0 content))
  = map function_of
      (fst (@parse sample_host sample_markers 0 (blocks_text sample_markers before)))
    ++ map function_of (fst (@parse sample_host sample_markers 0 (lit " Done.")))
  /\ snd (@parse sample_host sample_markers 0 content)
     = trim (strip_calls sample_markers (blocks_text sample_markers before)
             ++ lit " Then " ++ strip_calls sample_markers (lit " Done.")).
Proof.
  intros before bad.
  apply (@malformed_envelope_removed sample_host sample_markers 0 before
           (lit " Then ") bad (lit " Done.")).
  - exact sample_generated.
  - vm_compute. reflexivity.
  - vm_compute. reflexivity.
  - vm_compute. reflexivity.
  - vm_compute. reflexivity.
Defined.

(** C1 as worded fails on an envelope whose arguments are [{oops}]: the
    envelope is in the input, it is not extracted, and it is absent from
    the residual text. *)
Lemma malformed_envelope_counterexample :
  JSON_parse (lit "{oops}") = None
  /\ includes malformed_envelope malformed_text = true
  /\ fst (@parse sample_host sample_markers 0 malformed_text) = []
  /\ includes malformed_envelope
       (snd (@parse sample_host sample_markers 0 malformed_text)) = false.
Proof. vm_compute. auto. Qed.

Lemma encode_parse_roundtrip_witness :
  map function_of
    (fst (@parse sample_host sample_markers 0 (encode_calls sample_markers two_calls)))
  = map trimmed_function two_calls
  /\ snd (@parse sample_host sample_markers 0 (encode_calls sample_markers two_calls))
     = []
  /\ NoDup (map tc_id
              (fst (@parse sample_host sample_markers 0
                      (encode_calls sample_markers two_calls)))).
Proof.
  apply (@encode_parse_roundtrip sample_host sample_markers 0 two_calls).
  - exact sample_generated.
  - vm_compute. reflexivity.
Defined.

(** C4 as worded fails on a call whose arguments are JSON followed by a
    line feed: the arguments are valid JSON, and the parsed arguments lack
    the line feed. *)
Lemma encode_parse_counterexample :
  JSON_parse (fn_arguments padded_call) <> None
  /\ map function_of
       (fst (@parse sample_host sample_markers 0
               (encode_calls sample_markers [padded_call])))
     <> map function_of [padded_call].
Proof. vm_compute. split; discriminate. Qed.

(** ** Lines and chunks *)

Lemma split_nonempty (sep : N) (t : jsstring) : split sep t <> [].
Proof.
  induction t as [|c t IH]; simpl; [discriminate|].
  destruct (N.eqb c sep); [discriminate|].
  destruct (split sep t); [contradiction | discriminate].
Qed.

Lemma removelast_cons2 {A : Type} (x y : A) (l : list A) :
  removelast (x :: y :: l) = x :: removelast (y :: l).
Proof. reflexivity. Qed.

Lemma last_cons2 {A : Type} (x y : A) (l : list A) (d : A) :
  last (x :: y :: l) d = last (y :: l) d.
Proof. reflexivity. Qed.

(** Splitting a text that arrives in two pieces: the complete lines of
    the first piece, then the split of its unterminated tail followed by
    the second piece. *)
Lemma split_app_tail (sep : N) (a b : jsstring) :
  split sep (a ++ b)
  = removelast (split sep a) ++ split sep (last (split sep a) [] ++ b).
Proof.
  induction a as [|c a IH]; [reflexivity|].
  change ((c :: a) ++ b) with (c :: (a ++ b)). cbn [split].
  destruct (N.eqb c sep) eqn:E.
  - rewrite IH. destruct (split sep a) as [|x l] eqn:S.
    + now apply split_nonempty in S.
    + rewrite removelast_cons2, last_cons2. reflexivity.
  - rewrite IH. destruct (split sep a) as [|x [|y l]] eqn:S.
    + now apply split_nonempty in S.
    + simpl removelast. simpl last. simpl app.
      change ((c :: x) ++ b) with (c :: (x ++ b)). cbn [split]. now rewrite E.
    + rewrite !removelast_cons2, !last_cons2. reflexivity.
Qed.

Lemma split_last_no_sep (sep : N) (t : jsstring) :
  ~ In sep (last (split sep t) []).
Proof.
  induction t as [|c t IH]; simpl; [tauto|].
  destruct (N.eqb c sep) eqn:E.
  - destruct (split sep t) as [|x l] eqn:S; [now apply split_nonempty in S|].
    exact IH.
  - destruct (split sep t) as [|x [|y l]] eqn:S.
    + now apply split_nonempty in S.
    + simpl in *. intros [C | I]; [|now apply IH].
      subst. rewrite N.eqb_refl in E. discriminate.
    + exact IH.
Qed.

Lemma removelast_app_nonempty {A : Type} (a b : list A) :
  b <> [] -> removelast (a ++ b) = a ++ removelast b.
Proof. intro N. now apply removelast_app. Qed.

Lemma last_app_nonempty {A : Type} (a b : list A) (d : A) :
  b <> [] -> last (a ++ b) d = last b d.
Proof.
  intro N. induction a as [|x a IH]; [reflexivity|].
  simpl. destruct (a ++ b) eqn:E; [|exact IH].
  apply app_eq_nil in E as [_ E]. contradiction.
Qed.

(** ** The streaming transformer, line by line *)

Section Stream.
Context `{Host}.
Variable m : markers.

Lemma processLine_classify (st : stream_state) (line : jsstring) :
  processLine m st line
  = match classify line with
    | LineBlank | LineIgnored => Some (st, [])
    | LineDone => Some (done_state m st, snd (settle m st))
    | LineContent c => Some (handle_content m st c)
    | LineThrows => None
    end.
Proof.
  unfold processLine, classify, done_state.
  destruct (is_empty (trim line)); [reflexivity|].
  destruct (str_eqb (trim line) (lit "data: [DONE]")).
  - destruct (settle m st); reflexivity.
  - destruct (negb (startsWith (lit "data: ") (trim line))); [reflexivity|].
    destruct (JSON_parse (skipn 6 (trim line))) as [parsed|]; [|reflexivity].
    destruct (delta_content parsed) as [[v|]|]; try reflexivity.
    destruct v; try reflexivity; now destruct (ToString _).
Qed.

Lemma settle_lineBuffer (st : stream_state) (b : jsstring) :
  settle m (set_lineBuffer st b) = settle m st.
Proof. reflexivity. Qed.

Lemma handle_content_lineBuffer (st : stream_state) (b c : jsstring) :
  handle_content m (set_lineBuffer st b) c
  = (set_lineBuffer (fst (handle_content m st c)) b, snd (handle_content m st c)).
Proof.
  unfold handle_content, set_lineBuffer. cbn [isBuffering pendingText ticks
    contentBuffer streamEnded lineBuffer].
  destruct (isBuffering st); [reflexivity|].
  destruct (indexOf (TC_START m) (pendingText st ++ c)).
  - destruct (is_empty _); [reflexivity|]. destruct (push_text _ _); reflexivity.
  - destruct (includes _ _); [reflexivity|]. destruct (push_text _ _); reflexivity.
Qed.

Lemma processLine_lineBuffer (st : stream_state) (b line : jsstring) :
  processLine m (set_lineBuffer st b) line
  = match processLine m st line with
    | Some (s, o) => Some (set_lineBuffer s b, o)
    | None => None
    end.
Proof.
  rewrite !processLine_classify. destruct (classify line); try reflexivity.
  rewrite handle_content_lineBuffer. now destruct (handle_content m st content).
Qed.

Lemma set_lineBuffer_same (st : stream_state) :
  set_lineBuffer st (lineBuffer st) = st.
Proof. now destruct st. Qed.

Lemma process_lines_lineBuffer (lines : list jsstring) (st : stream_state)
  (b : jsstring) :
  process_lines m (set_lineBuffer st b) lines
  = match process_lines m st lines with
    | Some (s, o) => Some (set_lineBuffer s b, o)
    | None => None
    end.
Proof.
  revert st; induction lines as [|line lines IH]; intro st; [reflexivity|].
  cbn [process_lines]. rewrite processLine_lineBuffer.
  destruct (processLine m st line) as [[s1 o1]|]; [|reflexivity].
  rewrite IH. destruct (process_lines m s1 lines) as [[s2 o2]|]; reflexivity.
Qed.

Lemma process_lines_app (a b : list jsstring) (st : stream_state) :
  process_lines m st (a ++ b)
  = match process_lines m st a with
    | None => None
    | Some (s1, o1) =>
        match process_lines m s1 b with
        | None => None
        | Some (s2, o2) => Some (s2, o1 ++ o2)
        end
    end.
Proof.
  revert st; induction a as [|line a IH]; intro st.
  - simpl. now destruct (process_lines m st b) as [[s o]|].
  - cbn [app process_lines].
    destruct (processLine m st line) as [[s1 o1]|]; [|reflexivity].
    rewrite IH. destruct (process_lines m s1 a) as [[s2 o2]|]; [|reflexivity].
    destruct (process_lines m s2 b) as [[s3 o3]|]; [|reflexivity].
    now rewrite app_assoc.
Qed.

(** Writing the chunks one by one processes the complete lines of the
    whole text and leaves its unterminated tail in [lineBuffer]. *)
Lemma write_all_lines (chunks : list jsstring) (st : stream_state) :
  ~ In LF (lineBuffer st) ->
  write_all m st chunks
  = match process_lines m st
            (removelast (split LF (lineBuffer st ++ concat chunks))) with
    | None => None
    | Some (s, o) =>
        Some (set_lineBuffer s (last (split LF (lineBuffer st ++ concat chunks)) []),
              o)
    end.
Proof.
  revert st; induction chunks as [|c chunks IH]; intros st N.
  - simpl. rewrite app_nil_r, split_no_sep by assumption. simpl.
    now rewrite set_lineBuffer_same.
  - cbn [write_all concat]. unfold transform.
    rewrite app_assoc, (split_app_tail LF (lineBuffer st ++ c)).
    set (P1 := removelast (split LF (lineBuffer st ++ c))).
    set (T1 := last (split LF (lineBuffer st ++ c)) []).
    rewrite removelast_app_nonempty, last_app_nonempty by apply split_nonempty.
    rewrite process_lines_app, process_lines_lineBuffer.
    destruct (process_lines m st P1) as [[s1 o1]|]; [|reflexivity].
    rewrite IH by apply split_last_no_sep.
    cbn [lineBuffer set_lineBuffer].
    change {| lineBuffer := T1; contentBuffer := contentBuffer s1;
              isBuffering := isBuffering s1; pendingText := pendingText s1;
              streamEnded := streamEnded s1; ticks := ticks s1 |}
      with (set_lineBuffer s1 T1).
    rewrite process_lines_lineBuffer.
    destruct (process_lines m s1 _) as [[s2 o2]|]; reflexivity.
Qed.

Lemma run_stream_lines (k : nat) (chunks : list jsstring) :
  run_stream m k chunks = run_lines m (initial_state k) (split LF (concat chunks)).
Proof.
  unfold run_stream, run_lines.
  rewrite write_all_lines by (simpl; tauto). simpl app.
  destruct (process_lines m (initial_state k) _) as [[s o]|]; reflexivity.
Qed.

Lemma run_lines_cons (st : stream_state) (line next : jsstring)
  (rest : list jsstring) :
  run_lines m st (line :: next :: rest)
  = match processLine m st line with
    | None => None
    | Some (s, o) =>
        match run_lines m s (next :: rest) with
        | None => None
        | Some o' => Some (o ++ o')
        end
    end.
Proof.
  unfold run_lines. rewrite removelast_cons2, last_cons2. cbn [process_lines].
  destruct (processLine m st line) as [[s o]|]; [|reflexivity].
  destruct (process_lines m s (removelast (next :: rest))) as [[s' o']|];
    [|reflexivity].
  destruct (flush m _); [|reflexivity]. now rewrite app_assoc.
Qed.

Lemma run_lines_last (st : stream_state) (tail : jsstring) :
  streamEnded st = false ->
  run_lines m st [tail]
  = match classify tail with
    | LineBlank | LineIgnored => Some (snd (settle m st))
    | LineDone =>
        Some (snd (settle m st) ++ snd (settle m (done_state m st)))
    | LineContent c =>
        Some (snd (handle_content m st c)
              ++ snd (settle m (fst (handle_content m st c))))
    | LineThrows => None
    end.
Proof.
  intro E. destruct st as [lb cb ib pt se k]. simpl in E. subst se.
  set (st0 := {| lineBuffer := lb; contentBuffer := cb; isBuffering := ib;
                 pendingText := pt; streamEnded := false; ticks := k |}).
  unfold run_lines. cbn [removelast last process_lines]. unfold flush.
  change (streamEnded (set_lineBuffer st0 tail)) with false.
  change (lineBuffer (set_lineBuffer st0 tail)) with tail. cbv iota.
  destruct (is_empty tail) eqn:T.
  - destruct tail; [|discriminate].
    change (classify []) with LineBlank.
    rewrite settle_lineBuffer. now destruct (settle m st0).
  - rewrite processLine_lineBuffer, processLine_classify.
    destruct (classify tail).
    + rewrite settle_lineBuffer. now destruct (settle m st0).
    + rewrite settle_lineBuffer. now destruct (settle m (done_state m st0)).
    + rewrite settle_lineBuffer. now destruct (settle m st0).
    + destruct (handle_content m st0 content) as [s o]. rewrite settle_lineBuffer.
      simpl. now destruct (settle m s).
    + reflexivity.
Qed.

(** *** Occurrences *)

Lemma startsWith_app_r (p t u : jsstring) :
  startsWith p t = true -> startsWith p (t ++ u) = true.
Proof.
  intro E. apply startsWith_iff in E as [r ->]. rewrite <- app_assoc.
  apply startsWith_app.
Qed.

Lemma indexOf_None_app_l (p a b : jsstring) :
  indexOf p (a ++ b) = None -> indexOf p a = None.
Proof.
  induction a as [|c a IH]; intro E.
  - destruct p as [|x p]; [|reflexivity].
    simpl in E. destruct b; discriminate.
  - pose proof (indexOf_None_startsWith _ _ E) as F.
    apply indexOf_None_tail in E. apply IH in E.
    simpl. destruct (startsWith p (c :: a)) eqn:S.
    + apply (startsWith_app_r _ _ b) in S. simpl in S, F. congruence.
    + now rewrite E.
Qed.

Lemma indexOf_None_app_r (p a b : jsstring) :
  indexOf p (a ++ b) = None -> indexOf p b = None.
Proof.
  induction a as [|c a IH]; intro E; [exact E|].
  apply IH. exact (indexOf_None_tail _ _ _ E).
Qed.

(** *** Frames and their content *)

Lemma content_deltas_app (a b : list sse_out) :
  content_deltas (a ++ b) = content_deltas a ++ content_deltas b.
Proof. apply flat_map_app. Qed.

Lemma push_text_spec (k : nat) (t : jsstring) :
  map observe (snd (push_text k t)) = map EvText (content_deltas (snd (push_text k t)))
  /\ concat (content_deltas (snd (push_text k t))) = t.
Proof.
  unfold push_text, textChunk. destruct t as [|c t]; simpl; [auto|].
  now rewrite app_nil_r.
Qed.

(** Outside a block and with no full marker in sight, a content is either
    held back whole or sent on whole. *)
Lemma handle_content_quiet (st : stream_state) (c : jsstring) :
  isBuffering st = false ->
  indexOf (TC_START m) (pendingText st ++ c) = None ->
  exists s o,
    handle_content m st c = (s, o)
    /\ isBuffering s = false /\ contentBuffer s = contentBuffer st
    /\ streamEnded s = streamEnded st
    /\ map observe o = map EvText (content_deltas o)
    /\ ((pendingText s = pendingText st ++ c /\ o = [])
        \/ (pendingText s = [] /\ concat (content_deltas o) = pendingText st ++ c
            /\ includes (char_at0 (TC_START m)) (pendingText st ++ c) = false)).
Proof.
  intros B N. unfold handle_content. rewrite B, N.
  destruct (includes (char_at0 (TC_START m)) (pendingText st ++ c)) eqn:I.
  - eexists _, _. split; [reflexivity|]. simpl. auto 10.
  - destruct (push_text_spec (ticks st) (pendingText st ++ c)) as [O C].
    destruct (push_text (ticks st) (pendingText st ++ c)) as [k o].
    eexists _, _. split; [reflexivity|]. simpl in *. auto 10.
Qed.

(** When the marker shows up, the text before it is sent on and the rest
    opens the block. *)
Lemma handle_content_found (st : stream_state) (c : jsstring) (idx : nat) :
  isBuffering st = false ->
  indexOf (TC_START m) (pendingText st ++ c) = Some idx ->
  exists s o,
    handle_content m st c = (s, o)
    /\ isBuffering s = true
    /\ contentBuffer s = skipn idx (pendingText st ++ c)
    /\ pendingText s = [] /\ streamEnded s = streamEnded st
    /\ map observe o = map EvText (content_deltas o)
    /\ concat (content_deltas o) = firstn idx (pendingText st ++ c).
Proof.
  intros B F. unfold handle_content, slice_to, slice_from. rewrite B, F.
  destruct (push_text_spec (ticks st) (firstn idx (pendingText st ++ c)))
    as [O C].
  destruct (is_empty (firstn idx (pendingText st ++ c))) eqn:E.
  - eexists _, _. split; [reflexivity|]. simpl.
    destruct (firstn idx (pendingText st ++ c)); [auto 10 | discriminate].
  - destruct (push_text (ticks st) (firstn idx (pendingText st ++ c))) as [k o].
    eexists _, _. split; [reflexivity|]. simpl in *. auto 10.
Qed.

(** Settling with an empty [contentBuffer]: the pending text, a [stop]
    finish, the sentinel. *)
Lemma settle_quiet (st : stream_state) :
  contentBuffer st = [] ->
  exists o k,
    snd (settle m st) = o ++ [OutChunk (finishChunk k (lit "stop")); OutDone]
    /\ map observe o = map EvText (content_deltas o)
    /\ concat (content_deltas o) = pendingText st.
Proof.
  intro C. unfold settle. rewrite C. cbn [is_empty].
  destruct (pendingText st) as [|c t] eqn:P.
  - exists [], (ticks st). simpl. auto.
  - cbn [is_empty]. unfold push_text, textChunk. cbn [is_empty].
    eexists [_], _. cbn [snd app]. split; [reflexivity | split].
    + reflexivity.
    + simpl. now rewrite app_nil_r.
Qed.

Lemma upstream_contents_blank (ls : list jsstring) :
  forallb is_silent ls = true -> upstream_contents ls = [].
Proof.
  induction ls as [|l ls IH]; intro B; [reflexivity|].
  simpl in B. apply andb_true_iff in B as [B1 B2].
  unfold upstream_contents. cbn [flat_map]. unfold is_silent in B1.
  destruct (classify l); try discriminate; now apply IH.
Qed.

Lemma includes_unit_app (x : N) (a b : jsstring) :
  includes [x] (a ++ b) = includes [x] a || includes [x] b.
Proof.
  unfold includes. induction a as [|c a IH];
    [cbn [app]; now destruct (indexOf [x] b)|].
  simpl. destruct (N.eqb x c); [reflexivity|]. simpl.
  destruct (indexOf [x] (a ++ b)), (indexOf [x] a); simpl in *;
    try reflexivity; try discriminate; exact IH.
Qed.

(** After the sentinel, the lines that are passed over change nothing and
    [flush] is silent. *)
Lemma run_lines_ended (ls : list jsstring) (st : stream_state) :
  ls <> [] -> streamEnded st = true -> forallb is_silent ls = true ->
  run_lines m st ls = Some [].
Proof.
  revert st; induction ls as [|l ls IH]; intros st N E B; [contradiction|].
  simpl in B. apply andb_true_iff in B as [B1 B2].
  destruct ls as [|next rest].
  - unfold run_lines. simpl. unfold flush.
    change (streamEnded (set_lineBuffer st l)) with (streamEnded st).
    now rewrite E.
  - rewrite run_lines_cons, processLine_classify. unfold is_silent in B1.
    destruct (classify l); try discriminate;
      (rewrite IH; [reflexivity | discriminate | assumption | assumption]).
Qed.

(** After a terminated sentinel every content that is read is sent, at
    once or by the next sentinel, as long as the stream leaves nothing
    held at its end. *)
Lemma run_lines_ended_text (x : N) (s : jsstring) (ls : list jsstring)
  (st : stream_state) (held : bool) :
  TC_START m = x :: s ->
  ls <> [] -> streamEnded st = true ->
  isBuffering st = false -> contentBuffer st = [] ->
  includes [x] (pendingText st) = held ->
  (held = false -> pendingText st = []) ->
  orderly_ended m held ls = true ->
  indexOf (TC_START m) (pendingText st ++ concat (upstream_contents ls)) = None ->
  exists outs,
    run_lines m st ls = Some outs
    /\ concat (content_deltas outs)
       = pendingText st ++ concat (upstream_contents ls).
Proof.
  intro U. revert st held; induction ls as [|l ls IH];
    intros st held N E B C I P W F; [contradiction|].
  unfold upstream_contents in *. cbn [flat_map] in *. cbn [orderly_ended] in W.
  destruct ls as [|next rest].
  - apply andb_true_iff in W as [Wh Wt]. apply negb_true_iff in Wh.
    rewrite (P Wh). unfold run_lines. simpl removelast. simpl last.
    cbn [process_lines]. unfold flush.
    change (streamEnded (set_lineBuffer st l)) with (streamEnded st).
    rewrite E. exists []. split; [reflexivity|].
    destruct (classify l) as [| | |c|]; try reflexivity.
    destruct c; [reflexivity | discriminate].
  - rewrite run_lines_cons, processLine_classify.
    destruct (classify l) as [| | |c|]; try discriminate.
    + destruct (IH st held) as (outs & -> & T); try assumption; [discriminate|].
      exists outs. split; [reflexivity | exact T].
    + destruct (IH (done_state m st) false) as (outs & -> & T);
        try reflexivity; try assumption; [discriminate | |].
      { cbn [done_state pendingText app]. exact (indexOf_None_app_r _ _ _ F). }
      destruct (settle_quiet st C) as (o & k' & -> & _ & To).
      eexists. split; [reflexivity|].
      rewrite !content_deltas_app, !concat_app, T, To. simpl.
      now rewrite !app_nil_r.
    + destruct (IH st held) as (outs & -> & T); try assumption; [discriminate|].
      exists outs. split; [reflexivity | exact T].
    + set (R := flat_map _ (next :: rest)) in *.
      change (concat ([c] ++ R)) with (c ++ concat R) in *.
      rewrite app_assoc in F. rewrite app_assoc.
      rewrite U in W. cbn [char_at0 firstn] in W.
      pose proof (includes_unit_app x (pendingText st) c) as Ia.
      rewrite I in Ia.
      unfold handle_content. rewrite B, (indexOf_None_app_l _ _ _ F), U.
      cbn [char_at0 firstn]. rewrite Ia.
      destruct (held || includes [x] c) eqn:Hd.
      * match goal with
        | |- context [run_lines m ?s1 (next :: rest)] =>
            destruct (IH s1 true) as (outs & -> & T);
              [discriminate | exact E | reflexivity | exact C | exact Ia
              | discriminate | exact W | exact F |]
        end.
        exists outs. split; [reflexivity | exact T].
      * destruct (push_text_spec (ticks st) (pendingText st ++ c)) as [_ D].
        destruct (push_text (ticks st) (pendingText st ++ c)) as [k o].
        match goal with
        | |- context [run_lines m ?s1 (next :: rest)] =>
            destruct (IH s1 false) as (outs & -> & T);
              [discriminate | exact E | reflexivity | exact C | reflexivity
              | reflexivity | exact W
              | cbn [pendingText app]; exact (indexOf_None_app_r _ _ _ F) |]
        end.
        eexists. split; [reflexivity|].
           cbn [snd] in D. rewrite content_deltas_app, concat_app, D, T.
           reflexivity.
Qed.

(** *** A stream without the marker *)

Lemma stream_text (ls : list jsstring) (st : stream_state) :
  ls <> [] -> orderly_lines m ls = true ->
  isBuffering st = false -> contentBuffer st = [] -> streamEnded st = false ->
  indexOf (TC_START m) (pendingText st ++ concat (upstream_contents ls)) = None ->
  exists outs,
    run_lines m st ls = Some outs
    /\ concat (content_deltas outs)
       = pendingText st ++ concat (upstream_contents ls).
Proof.
  revert st; induction ls as [|l ls IH]; intros st N W B C E F; [contradiction|].
  assert (exists x s, TC_START m = x :: s) as (x & s & U).
  { destruct (TC_START m) as [|x s]; [|eauto].
    now destruct (pendingText st ++ _). }
  unfold upstream_contents in *. cbn [flat_map] in *. cbn [orderly_lines] in W.
  destruct ls as [|next rest].
  - rewrite run_lines_last by assumption. cbn [flat_map] in *.
    destruct (classify l) as [| | |c|]; try discriminate.
    + destruct (settle_quiet st C) as (o & k' & -> & _ & T).
      eexists. split; [reflexivity|].
      rewrite content_deltas_app, concat_app. simpl. now rewrite !app_nil_r.
    + destruct (settle_quiet st C) as (o & k' & -> & _ & T).
      destruct (settle_quiet (done_state m st) eq_refl) as (o' & k'' & -> & _ & T').
      eexists. split; [reflexivity|].
      rewrite !content_deltas_app, !concat_app, T, T'. simpl.
      now rewrite !app_nil_r.
    + destruct (settle_quiet st C) as (o & k' & -> & _ & T).
      eexists. split; [reflexivity|].
      rewrite content_deltas_app, concat_app. simpl. now rewrite !app_nil_r.
    + simpl in F. rewrite app_nil_r in F. simpl. rewrite app_nil_r.
      destruct (handle_content_quiet st c B F)
        as (s' & o & -> & Bs & Cs & Es & _ & D).
      rewrite C in Cs. cbn [fst snd].
      destruct (settle_quiet s' Cs) as (o' & k' & -> & _ & T).
      eexists. split; [reflexivity|].
      rewrite !content_deltas_app, !concat_app. simpl. rewrite !app_nil_r, T.
      destruct D as [[-> ->] | (-> & D & _)]; [reflexivity|].
      now rewrite app_nil_r.
  - rewrite run_lines_cons, processLine_classify.
    destruct (classify l) as [| | |c|]; try discriminate.
    + destruct (IH st) as (outs & -> & T); try assumption; [discriminate|].
      exists outs. split; [reflexivity | exact T].
    + destruct (run_lines_ended_text x s (next :: rest) (done_state m st) false U)
        as (outs & -> & D);
        [discriminate | reflexivity | exact B | reflexivity | reflexivity
        | reflexivity | exact W
        | cbn [done_state pendingText app]; exact (indexOf_None_app_r _ _ _ F) |].
      destruct (settle_quiet st C) as (o & k' & -> & _ & T).
      eexists. split; [reflexivity|].
      rewrite !content_deltas_app, !concat_app, D, T. simpl.
      now rewrite !app_nil_r.
    + destruct (IH st) as (outs & -> & T); try assumption; [discriminate|].
      exists outs. split; [reflexivity | exact T].
    + set (R := flat_map _ (next :: rest)) in *.
      change (concat ([c] ++ R)) with (c ++ concat R) in *.
      rewrite app_assoc in F. rewrite app_assoc.
      destruct (handle_content_quiet st c B (indexOf_None_app_l _ _ _ F))
        as (s' & o & -> & Bs & Cs & Es & _ & D).
      rewrite C in Cs. rewrite E in Es.
      destruct (IH s') as (outs & -> & T); try assumption; [discriminate | |].
      * destruct D as [[-> _] | (-> & _ & _)]; [exact F|].
        exact (indexOf_None_app_r _ _ _ F).
      * eexists. split; [reflexivity|].
        rewrite content_deltas_app, concat_app, T.
        destruct D as [[-> ->] | (-> & D & _)]; [reflexivity|].
        now rewrite D.
Qed.

(** C3, amended.  For an upstream stream that the transformer reads
    without a throw (no data line that it reads is the JSON null or holds
    a content that cannot be converted to a string) and that leaves
    nothing behind its sentinel (once a sentinel line terminated by a line
    feed has come, a content that holds the first unit of [TC_START] is
    followed by another such sentinel line, and the unterminated tail of
    the stream carries no text), and whose [delta.content] strings,
    concatenated, hold no [TC_START], the transformer delivers frames
    whose content deltas, concatenated, the terminal flush included, are
    the concatenation of the upstream [delta.content] strings. *)
Theorem stream_text_preserved (k : nat) (chunks : list jsstring) :
  orderly_stream m chunks = true ->
  indexOf (TC_START m) (upstream_text chunks) = None ->
  exists outs,
    run_stream m k chunks = Some outs
    /\ concat (content_deltas outs) = upstream_text chunks.
Proof.
  intros W F. rewrite run_stream_lines.
  apply (stream_text (split LF (concat chunks)) (initial_state k)); auto.
  apply split_nonempty.
Qed.

End Stream.

Lemma stream_text_preserved_witness :
  exists outs,
    @run_stream sample_host sample_markers 0 plain_stream = Some outs
    /\ concat (content_deltas outs) = @upstream_text sample_host plain_stream.
Proof.
  apply (@stream_text_preserved sample_host sample_markers 0 plain_stream).
  - vm_compute. reflexivity.
  - vm_compute. reflexivity.
Defined.

(** C3 as worded fails on a stream that goes on after its sentinel: the
    content that comes after it and holds the first unit of [TC_START] is
    kept in [pendingText], which [flush] never sends because the stream
    has ended.  The upstream text holds no [TC_START], and the text
    delivered is shorter.  It fails as well on a stream with a data line
    that is the JSON null: [processLine] throws on that line and the
    content that follows is never delivered. *)
Lemma stream_text_counterexample :
  (indexOf (TC_START sample_markers) (@upstream_text sample_host late_stream) = None
   /\ @upstream_text sample_host late_stream
      = lit "a" ++ [3858%N] ++ lit "b" ++ [3858%N]
   /\ exists outs,
        @run_stream sample_host sample_markers 0 late_stream = Some outs
        /\ concat (content_deltas outs) = lit "a" ++ [3858%N]
        /\ concat (content_deltas outs) <> @upstream_text sample_host late_stream)
  /\ (indexOf (TC_START sample_markers) (@upstream_text sample_host null_stream) = None
      /\ @upstream_text sample_host null_stream = lit "ab"
      /\ @run_stream sample_host sample_markers 0 null_stream = None).
Proof.
  split.
  - split; [vm_compute; reflexivity | split; [vm_compute; reflexivity|]].
    eexists. split; [vm_compute; reflexivity|].
    split; [vm_compute; reflexivity | vm_compute; discriminate].
  - repeat split; vm_compute; reflexivity.
Qed.

(** ** A stream that ends with one tool call *)

Lemma indexOf_Some_length (p t : jsstring) (k : nat) :
  indexOf p t = Some k -> k + List.length p <= List.length t.
Proof.
  revert k; induction t as [|c t IH]; intros k E; simpl in E.
  - destruct (startsWith p []) eqn:S; [|discriminate]. injection E as <-.
    apply startsWith_iff in S as [r S]. destruct p; [simpl; lia | discriminate].
  - destruct (startsWith p (c :: t)) eqn:S.
    + injection E as <-. apply startsWith_iff in S as [r S].
      rewrite S, length_app. lia.
    + destruct (indexOf p t) as [k'|]; [|discriminate]. injection E as <-.
      specialize (IH k' eq_refl). simpl. lia.
Qed.

Lemma indexOf_Some_app (p t u : jsstring) (k : nat) :
  indexOf p t = Some k -> indexOf p (t ++ u) = Some k.
Proof.
  revert k; induction t as [|c t IH]; intros k E.
  - simpl in E. destruct (startsWith p []) eqn:S; [|discriminate].
    injection E as <-. destruct p; [|discriminate]. destruct u; reflexivity.
  - pose proof (indexOf_Some_length _ _ _ E) as L. simpl in E.
    change ((c :: t) ++ u) with (c :: (t ++ u)). simpl.
    destruct (startsWith p (c :: t)) eqn:S.
    + apply (startsWith_app_r _ _ u) in S. simpl in S. now rewrite S.
    + destruct (indexOf p t) as [k'|] eqn:I; [|discriminate]. injection E as <-.
      apply indexOf_Some_length in I.
      pose proof (startsWith_long p (c :: t) u S) as F. simpl in F.
      rewrite F by lia. now rewrite (IH k' eq_refl).
Qed.

Lemma includes_unit (x : N) (t : jsstring) :
  includes [x] t = false -> ~ In x t.
Proof.
  unfold includes. induction t as [|c t IH]; intros E I; [contradiction|].
  simpl in E. destruct (N.eqb x c) eqn:X; [discriminate|].
  simpl in E. destruct I as [-> | I]; [now rewrite N.eqb_refl in X|].
  destruct (indexOf [x] t); [discriminate | now apply IH].
Qed.

(** A text without the first unit of the block, put before another text,
    cannot reach into the block. *)
Lemma split_before_unit (a b p e : jsstring) (x : N) :
  ~ In x a -> a ++ b = p ++ x :: e ->
  exists p', p = a ++ p' /\ b = p' ++ x :: e.
Proof.
  intros N E. apply app_eq_app in E as [l [[E1 E2] | [E1 E2]]].
  - destruct l as [|y l].
    + exists []. rewrite app_nil_r in E1. simpl in E2. subst.
      now rewrite app_nil_r.
    + injection E2 as <- _. elim N. rewrite E1. apply in_or_app. right. now left.
  - exists l. now split.
Qed.

Section StreamCall.
Context `{Host}.
Variable m : markers.
Hypothesis WF : markers_wf m = true.
Variables (block block_tail name args : jsstring).
Hypothesis block_start : block = TC_START m ++ block_tail.
Hypothesis block_parse :
  forall k, exists tc, parse m k block = ([tc], [])
                       /\ fn_name tc = name /\ fn_arguments tc = args.

Lemma block_nonempty : is_empty block = false.
Proof.
  destruct (wf_parts m WF) as (_ & _ & _ & S & _). rewrite block_start.
  destruct (TC_START m); [discriminate | reflexivity].
Qed.

Lemma settle_block (st : stream_state) :
  pendingText st = [] -> contentBuffer st = block ->
  map observe (snd (settle m st))
  = [EvToolCall 0 name args; EvFinish (lit "tool_calls"); EvDone].
Proof.
  intros P C. unfold settle. rewrite P, C, block_nonempty. cbn [is_empty].
  destruct (block_parse (ticks st)) as (tc & -> & <- & <-). reflexivity.
Qed.

Lemma handle_content_buffering (st : stream_state) (c : jsstring) :
  isBuffering st = true ->
  exists s, handle_content m st c = (s, [])
            /\ isBuffering s = true /\ streamEnded s = streamEnded st
            /\ pendingText s = pendingText st
            /\ contentBuffer s = contentBuffer st ++ c.
Proof.
  intro B. unfold handle_content. rewrite B. eexists. split; [reflexivity|].
  simpl. auto.
Qed.

(** Inside the block: everything is buffered until the end, where the
    block is parsed. *)
Lemma stream_block (ls : list jsstring) (st : stream_state) :
  ls <> [] -> wf_lines ls = true ->
  isBuffering st = true -> streamEnded st = false -> pendingText st = [] ->
  contentBuffer st ++ concat (upstream_contents ls) = block ->
  exists outs,
    run_lines m st ls = Some outs
    /\ map observe outs
       = [EvToolCall 0 name args; EvFinish (lit "tool_calls"); EvDone].
Proof.
  revert st; induction ls as [|l ls IH]; intros st N W B E P C; [contradiction|].
  unfold upstream_contents in *. cbn [flat_map] in *. cbn [wf_lines] in W.
  destruct ls as [|next rest].
  - rewrite run_lines_last by assumption. cbn [flat_map] in *.
    destruct (classify l) as [| | |c|]; try discriminate.
    + simpl in C. rewrite app_nil_r in C.
      eexists. split; [reflexivity | now apply settle_block].
    + simpl in C. rewrite app_nil_r in C.
      eexists. split; [reflexivity | now apply settle_block].
    + simpl in C. rewrite app_nil_r in C.
      destruct (handle_content_buffering st c B) as (s & -> & Bs & Es & Ps & Cs).
      eexists. split; [reflexivity|]. cbn [fst snd app].
      apply settle_block; congruence.
  - rewrite run_lines_cons, processLine_classify.
    destruct (classify l) as [| | |c|]; try discriminate.
    + destruct (IH st) as (outs & -> & T); try assumption; [discriminate|].
      exists outs. split; [reflexivity | exact T].
    + rewrite run_lines_ended; [|discriminate|reflexivity|exact W].
      fold (upstream_contents (next :: rest)) in C.
      rewrite (upstream_contents_blank _ W) in C. simpl in C.
      rewrite app_nil_r in C.
      eexists. split; [reflexivity|]. rewrite app_nil_r. now apply settle_block.
    + destruct (IH st) as (outs & -> & T); try assumption; [discriminate|].
      exists outs. split; [reflexivity | exact T].
    + set (R := flat_map _ (next :: rest)) in *.
      change (concat ([c] ++ R)) with (c ++ concat R) in *.
      rewrite app_assoc in C.
      destruct (handle_content_buffering st c B) as (s & -> & Bs & Es & Ps & Cs).
      destruct (IH s) as (outs & -> & T); try congruence.
      exists outs. split; [reflexivity | exact T].
Qed.

(** The marker found in [combined] is the start of the block. *)
Lemma block_found (combined rest p : jsstring) (idx : nat) :
  indexOf (TC_START m) combined = Some idx ->
  combined ++ rest = p ++ block ->
  indexOf (TC_START m) p = None ->
  firstn idx combined = p /\ skipn idx combined ++ rest = block.
Proof.
  intros F E Np. destruct (wf_parts m WF) as (U & _).
  pose proof (indexOf_Some_length _ _ _ F) as L.
  apply (indexOf_Some_app _ _ rest) in F.
  rewrite E, block_start, (indexOf_first _ _ _ U Np) in F. injection F as <-.
  split.
  - apply (f_equal (firstn (List.length p))) in E.
    rewrite !firstn_app, firstn_all, Nat.sub_diag in E.
    replace (List.length p - List.length combined) with 0 in E by lia.
    simpl in E. now rewrite !app_nil_r in E.
  - apply (f_equal (skipn (List.length p))) in E.
    rewrite !skipn_app, skipn_all, Nat.sub_diag in E.
    replace (List.length p - List.length combined) with 0 in E by lia.
    exact E.
Qed.

Lemma block_not_hidden (q p : jsstring) :
  indexOf (TC_START m) q = None -> indexOf (TC_START m) p = None ->
  q <> p ++ block.
Proof.
  intros Nq Np ->. destruct (wf_parts m WF) as (U & _).
  rewrite block_start, (indexOf_first _ _ _ U Np) in Nq. discriminate.
Qed.

(** Before the block: the text is passed on (held back while it may be
    the start of a marker), then the block opens. *)
Lemma stream_prefix (ls : list jsstring) (st : stream_state) (p : jsstring) :
  ls <> [] -> wf_lines ls = true ->
  isBuffering st = false -> contentBuffer st = [] -> streamEnded st = false ->
  indexOf (TC_START m) (pendingText st) = None ->
  pendingText st ++ concat (upstream_contents ls) = p ++ block ->
  indexOf (TC_START m) p = None ->
  exists outs texts,
    run_lines m st ls = Some outs
    /\ map observe outs
       = map EvText texts
         ++ [EvToolCall 0 name args; EvFinish (lit "tool_calls"); EvDone]
    /\ concat texts = p.
Proof.
  destruct (wf_parts m WF) as (U & _ & _ & S & _).
  revert st p; induction ls as [|l ls IH]; intros st p N W B C E Np Q Pp;
    [contradiction|].
  unfold upstream_contents in *. cbn [flat_map] in *. cbn [wf_lines] in W.
  destruct ls as [|next rest].
  - rewrite run_lines_last by assumption. cbn [flat_map] in *.
    destruct (classify l) as [| | |c|]; try discriminate;
      try (simpl in Q; rewrite app_nil_r in Q; now elim (block_not_hidden _ _ Np Pp)).
    simpl in Q. rewrite app_nil_r in Q.
    destruct (indexOf (TC_START m) (pendingText st ++ c)) as [idx|] eqn:F;
      [|now elim (block_not_hidden _ _ F Pp)].
    destruct (handle_content_found m st c idx B F)
      as (s & o & -> & Bs & Cs & Ps & Es & O & T).
    rewrite <- (app_nil_r (pendingText st ++ c)) in Q.
    destruct (block_found _ _ _ _ F Q Pp) as [Fp Fb]. rewrite app_nil_r in Fb.
    exists (o ++ snd (settle m s)), (content_deltas o).
    split; [reflexivity|]. cbn [fst snd]. rewrite map_app, O.
    rewrite settle_block by congruence. split; [reflexivity | congruence].
  - rewrite run_lines_cons, processLine_classify.
    destruct (classify l) as [| | |c|]; try discriminate.
    + destruct (IH st p) as (outs & texts & -> & T); try assumption;
        [discriminate|].
      exists outs, texts. split; [reflexivity | exact T].
    + fold (upstream_contents (next :: rest)) in Q.
      rewrite (upstream_contents_blank _ W) in Q. simpl in Q.
      rewrite app_nil_r in Q. now elim (block_not_hidden _ _ Np Pp).
    + destruct (IH st p) as (outs & texts & -> & T); try assumption;
        [discriminate|].
      exists outs, texts. split; [reflexivity | exact T].
    + set (R := flat_map _ (next :: rest)) in *.
      change (concat ([c] ++ R)) with (c ++ concat R) in *.
      rewrite app_assoc in Q.
      destruct (indexOf (TC_START m) (pendingText st ++ c)) as [idx|] eqn:F.
      * destruct (handle_content_found m st c idx B F)
          as (s & o & -> & Bs & Cs & Ps & Es & O & T).
        destruct (block_found _ _ _ _ F Q Pp) as [Fp Fb].
        rewrite <- Cs in Fb. rewrite E in Es.
        destruct (stream_block (next :: rest) s ltac:(discriminate) W Bs Es Ps Fb)
          as (outs & -> & Ob).
        exists (o ++ outs), (content_deltas o).
        split; [reflexivity|]. rewrite map_app, O, Ob.
        split; [reflexivity | congruence].
      * destruct (handle_content_quiet m st c B F)
          as (s & o & -> & Bs & Cs & Es & O & D).
        rewrite C in Cs. rewrite E in Es.
        destruct D as [[Ps ->] | (Ps & T & I)].
        -- rewrite <- Ps in F, Q.
           destruct (IH s p ltac:(discriminate) W Bs Cs Es F Q Pp)
             as (outs & texts & -> & Ot).
           exists outs, texts. split; [reflexivity | exact Ot].
        -- assert (exists x e, block = x :: e
                               /\ char_at0 (TC_START m) = [x]) as (x & e & Bx & Cx).
           { rewrite block_start. destruct (TC_START m) as [|x s']; [discriminate|].
             exists x, (s' ++ block_tail). split; reflexivity. }
           rewrite Cx in I. apply includes_unit in I. rewrite Bx in Q.
           destruct (split_before_unit _ _ _ _ _ I Q) as (p' & -> & Q').
           rewrite <- Bx in Q'.
           assert (indexOf (TC_START m) (pendingText s) = None) as Ns
             by (rewrite Ps; destruct (TC_START m); [discriminate | reflexivity]).
           assert (pendingText s ++ concat R = p' ++ block) as Qs
             by (rewrite Ps; exact Q').
           destruct (IH s p' ltac:(discriminate) W Bs Cs Es Ns Qs
                       (indexOf_None_app_r _ _ _ Pp))
             as (outs & texts & -> & Ot & Ct).
           exists (o ++ outs), (content_deltas o ++ texts).
           split; [reflexivity|]. rewrite !map_app, O, Ot, <- app_assoc.
           split; [reflexivity|]. rewrite concat_app, T, Ct. reflexivity.
Qed.

End StreamCall.

Section StreamRoundTrip.
Context `{Host}.

Lemma parse_envelope (m : markers) (k : nat) (w1 w2 w3 name args : jsstring)
  (v : json) :
  markers_wf m = true ->
  all_space w1 = true -> all_space w2 = true -> all_space w3 = true ->
  indexOf (NAME_END m) name = None -> indexOf (ARGS_END m) args = None ->
  JSON_parse (trim args) = Some v ->
  parse m k (envelope m w1 w2 w3 name args)
  = ([ {| tc_id := call_id (now k) 0; tc_type := lit "function";
          fn_name := trim name; fn_arguments := trim args |} ], []).
Proof.
  intros WF W1 W2 W3 Hn Ha J. unfold parse.
  rewrite <- (app_nil_r (envelope m w1 w2 w3 name args)).
  rewrite (scan_envelope m WF) by assumption.
  assert (scan (tool_regex m) 0 [] = []) as ->.
  { destruct (wf_parts m WF) as (_ & _ & _ & S & _). simpl.
    destruct (TC_START m); [discriminate | reflexivity]. }
  simpl. rewrite J. reflexivity.
Qed.

(** C2, amended.  For a well-formed upstream stream whose [delta.content]
    strings, concatenated, are a text free of [TC_START] followed by one
    tool-call envelope ([TC_START] to [TC_END], white space between its
    parts) and nothing after it, where the name holds no [NAME_END], the
    arguments hold no [ARGS_END] and the arguments without the white space
    around them are JSON: the client observes content deltas whose
    concatenation is the text, then one tool-call delta of index 0 whose
    name and arguments are those of the envelope without the white space
    around them, then a chunk with finish reason [tool_calls], then the
    sentinel, in that order and nothing else. *)
Theorem stream_tool_call (m : markers) (k : nat) (chunks : list jsstring)
  (prefix w1 w2 w3 name args : jsstring) :
  generated m ->
  wf_stream chunks = true ->
  upstream_text chunks = prefix ++ envelope m w1 w2 w3 name args ->
  indexOf (TC_START m) prefix = None ->
  all_space w1 = true -> all_space w2 = true -> all_space w3 = true ->
  indexOf (NAME_END m) name = None -> indexOf (ARGS_END m) args = None ->
  JSON_parse (trim args) <> None ->
  exists outs texts,
    run_stream m k chunks = Some outs
    /\ map observe outs
       = map EvText texts
         ++ [EvToolCall 0 (trim name) (trim args); EvFinish (lit "tool_calls");
             EvDone]
    /\ concat texts = prefix.
Proof.
  intros G W T Np W1 W2 W3 Hn Ha J. apply generated_wf in G.
  destruct (JSON_parse (trim args)) as [v|] eqn:Jv; [|contradiction].
  rewrite run_stream_lines.
  apply (stream_prefix m G (envelope m w1 w2 w3 name args)
           (w1 ++ NAME_START m ++ name ++ NAME_END m ++ w2 ++ ARGS_START m
            ++ args ++ ARGS_END m ++ w3 ++ TC_END m)
           (trim name) (trim args)); auto.
  - intro k'. eexists. split; [now apply (parse_envelope m k' w1 w2 w3 name args v)|].
    split; reflexivity.
  - apply split_nonempty.
  - simpl. destruct (wf_parts m G) as (_ & _ & _ & S & _).
    destruct (TC_START m); [discriminate | reflexivity].
Qed.

End StreamRoundTrip.

Lemma stream_tool_call_witness :
  exists outs texts,
    @run_stream sample_host sample_markers 0 sample_stream = Some outs
    /\ map observe outs
       = map EvText texts
         ++ [EvToolCall 0 (trim (lit "add")) (trim sample_args);
             EvFinish (lit "tool_calls"); EvDone]
    /\ concat texts = lit "Going to call a tool." ++ [LF].
Proof.
  apply (@stream_tool_call sample_host sample_markers 0 sample_stream
           (lit "Going to call a tool." ++ [LF]) [LF] [LF] [LF]
           (lit "add") sample_args).
  - exact sample_generated.
  - vm_compute. reflexivity.
  - vm_compute. reflexivity.
  - reflexivity.
  - reflexivity.
  - reflexivity.
  - reflexivity.
  - reflexivity.
  - vm_compute. reflexivity.
  - vm_compute. discriminate.
Defined.

(** C2 as worded fails on a stream whose text is [Sure.] and a line feed
    followed by the envelope of a call with arguments [{oops}]: the client
    observes the text, a [stop] finish and the sentinel, and no tool-call
    delta. *)
Lemma stream_tool_call_counterexample :
  @wf_stream sample_host malformed_stream = true
  /\ @upstream_text sample_host malformed_stream
     = (lit "Sure." ++ [LF])
       ++ encoded_envelope sample_markers (lit "add") (lit "{oops}")
  /\ indexOf (TC_START sample_markers) (lit "Sure." ++ [LF]) = None
  /\ option_map (map observe)
       (@run_stream sample_host sample_markers 0 malformed_stream)
     = Some [EvText (lit "Sure." ++ [LF]); EvFinish (lit "stop"); EvDone].
Proof. vm_compute. auto. Qed.

(* ================================================================== *)
(** * Further properties of the code *)
(* ================================================================== *)

(** ** [trim] *)

Lemma trimStart_idem (t : jsstring) : trimStart (trimStart t) = trimStart t.
Proof.
  induction t as [|c t IH]; [reflexivity|]. simpl.
  destruct (is_space c) eqn:E; [exact IH|]. simpl. now rewrite E.
Qed.

Lemma trimStart_solid (c : N) (t : jsstring) :
  is_space c = false -> trimStart (c :: t) = c :: t.
Proof. intro E. simpl. now rewrite E. Qed.

Lemma trimStart_head (t : jsstring) :
  trimStart t = [] \/ exists c r, trimStart t = c :: r /\ is_space c = false.
Proof.
  induction t as [|c t IH]; [now left|]. simpl.
  destruct (is_space c) eqn:E; [exact IH|]. right. now exists c, t.
Qed.

Lemma trimStart_snoc (l : jsstring) (c : N) :
  is_space c = false -> trimStart (l ++ [c]) = trimStart l ++ [c].
Proof.
  intro E. induction l as [|x l IH]; simpl; [now rewrite E|].
  destruct (is_space x); [exact IH | reflexivity].
Qed.

Lemma trimEnd_idem (t : jsstring) : trimEnd (trimEnd t) = trimEnd t.
Proof. unfold trimEnd. now rewrite rev_involutive, trimStart_idem. Qed.

Lemma trimEnd_solid_head (c : N) (t : jsstring) :
  is_space c = false -> trimEnd (c :: t) = c :: trimEnd t.
Proof.
  intro E. unfold trimEnd. simpl rev.
  now rewrite trimStart_snoc, rev_app_distr.
Qed.

Lemma trim_idem (t : jsstring) : trim (trim t) = trim t.
Proof.
  unfold trim. destruct (trimStart_head t) as [-> | (c & r & -> & E)].
  - reflexivity.
  - rewrite (trimEnd_solid_head c r E), (trimStart_solid c _ E).
    rewrite <- (trimEnd_solid_head c r E). apply trimEnd_idem.
Qed.

(** ** The parser on any text *)

Section ParserExtras.
Context `{Host}.

Lemma scan_plain (m : markers) (t : jsstring) :
  markers_wf m = true -> plain m t = true ->
  scan (tool_regex m) 0 t = map SegUnit t.
Proof.
  intros WF P. apply plain_spec in P.
  induction t as [|c t IH]; [now apply scan_empty|].
  assert (rx_match (tool_regex m) (c :: t) = None) as F
    by (apply rx_lit_fail; now apply indexOf_None_startsWith).
  cbn [scan]. rewrite F. cbn [map]. f_equal.
  apply IH. exact (indexOf_None_tail _ _ _ P).
Qed.

Lemma scan_blocks_explicit (m : markers) (ps : list (jsstring * envelope_parts)) :
  markers_wf m = true -> blocks_ok m ps = true ->
  scan (tool_regex m) 0 (blocks_text m ps)
  = flat_map (fun p => map SegUnit (fst p)
                       ++ [SegMatch [ep_name (snd p); ep_args (snd p)]]) ps.
Proof.
  intro WF. induction ps as [|[t e] ps IH]; intro B.
  - now apply scan_empty.
  - simpl in B. apply andb_true_iff in B as [B1 B2].
    apply andb_true_iff in B1 as [P D].
    unfold blocks_text. cbn [map concat flat_map fst snd].
    fold (blocks_text m ps). rewrite <- !app_assoc.
    rewrite (scan_block m t e _ WF P D), (IH B2). reflexivity.
Qed.

Lemma exec_all_blocks (ps : list (jsstring * envelope_parts)) :
  exec_all (flat_map (fun p => map SegUnit (fst p)
                               ++ [SegMatch [ep_name (snd p); ep_args (snd p)]]) ps)
  = map (fun p => [ep_name (snd p); ep_args (snd p)]) ps.
Proof.
  induction ps as [|p ps IH]; [reflexivity|]. cbn [flat_map map].
  rewrite !exec_all_app, exec_all_units, IH. reflexivity.
Qed.

Lemma replace_all_blocks (ps : list (jsstring * envelope_parts)) :
  replace_all (flat_map (fun p => map SegUnit (fst p)
                                  ++ [SegMatch [ep_name (snd p); ep_args (snd p)]]) ps)
  = concat (map fst ps).
Proof.
  induction ps as [|p ps IH]; [reflexivity|]. cbn [flat_map map concat].
  rewrite !replace_all_app, replace_all_units, IH. cbn [replace_all].
  now rewrite app_nil_r.
Qed.

Lemma collect_calls_blocks (k idx : nat) (ps : list (jsstring * envelope_parts)) :
  map function_of
    (collect_calls k idx (map (fun p => [ep_name (snd p); ep_args (snd p)]) ps))
  = flat_map (fun p => envelope_function (snd p)) ps.
Proof.
  revert k idx; induction ps as [|p ps IH]; intros k idx; [reflexivity|].
  cbn [map collect_calls flat_map nth]. unfold envelope_function at 1.
  destruct (JSON_parse (trim (ep_args (snd p)))) as [v|]; [|apply IH].
  cbn [map app]. f_equal. apply IH.
Qed.

Lemma parse_blocks (m : markers) (k : nat)
  (ps : list (jsstring * envelope_parts)) (tail : jsstring) :
  markers_wf m = true -> blocks_ok m ps = true -> plain m tail = true ->
  map function_of (fst (parse m k (blocks_text m ps ++ tail)))
  = flat_map (fun p => envelope_function (snd p)) ps
  /\ snd (parse m k (blocks_text m ps ++ tail))
     = trim (concat (map fst ps) ++ tail).
Proof.
  intros G B P. unfold parse. cbn [fst snd].
  rewrite (scan_blocks m ps tail G B), (scan_blocks_explicit m ps G B).
  rewrite (scan_plain m tail G P).
  rewrite exec_all_app, replace_all_app, exec_all_units, replace_all_units.
  rewrite exec_all_blocks, replace_all_blocks, app_nil_r.
  split; [apply collect_calls_blocks | reflexivity].
Qed.

(** X2.  On a text made of well-delimited envelopes, each after a part
    free of [TC_START], and a last part free of [TC_START]: the functions
    [parse] returns are those of the envelopes whose arguments are JSON, in
    the order of the text, with the white space around name and arguments
    removed; the residual text is the parts outside the envelopes, put
    together and trimmed. *)
Theorem parse_segmented (m : markers) (k : nat)
  (ps : list (jsstring * envelope_parts)) (tail : jsstring) :
  generated m -> blocks_ok m ps = true -> plain m tail = true ->
  map function_of (fst (parse m k (blocks_text m ps ++ tail)))
  = flat_map (fun p => envelope_function (snd p)) ps
  /\ snd (parse m k (blocks_text m ps ++ tail))
     = trim (concat (map fst ps) ++ tail).
Proof. intros G B P. apply parse_blocks; auto. now apply generated_wf. Qed.

(** X3.  Whatever the text and the clock, the ids of the tool calls that
    [parse] returns are pairwise distinct. *)
Theorem parse_ids_distinct (m : markers) (k : nat) (content : jsstring) :
  NoDup (map tc_id (fst (parse m k content))).
Proof. unfold parse. cbn [fst]. apply collect_calls_NoDup. Qed.

Lemma collect_calls_shape (k idx : nat) (ms : list (list jsstring))
  (tc : tool_call) :
  In tc (collect_calls k idx ms) ->
  tc_type tc = lit "function"
  /\ JSON_parse (fn_arguments tc) <> None
  /\ trim (fn_name tc) = fn_name tc
  /\ trim (fn_arguments tc) = fn_arguments tc.
Proof.
  revert k idx; induction ms as [|caps ms IH]; intros k idx I; simpl in I.
  - contradiction.
  - destruct (JSON_parse (trim (nth 1 caps []))) as [v|] eqn:J.
    + destruct I as [<- | I]; [|exact (IH _ _ I)].
      cbn [tc_type fn_name fn_arguments].
      rewrite J, !trim_idem. repeat split. discriminate.
    + exact (IH _ _ I).
Qed.

(** X4.  Every tool call that [parse] returns has type [function],
    arguments that [JSON.parse] accepts, and a name and arguments without
    white space around them; the residual text has no white space around
    it either. *)
Theorem parse_output_shape (m : markers) (k : nat) (content : jsstring) :
  (forall tc, In tc (fst (parse m k content)) ->
              tc_type tc = lit "function"
              /\ JSON_parse (fn_arguments tc) <> None
              /\ trim (fn_name tc) = fn_name tc
              /\ trim (fn_arguments tc) = fn_arguments tc)
  /\ trim (snd (parse m k content)) = snd (parse m k content).
Proof.
  unfold parse. cbn [fst snd]. split.
  - intros tc. apply collect_calls_shape.
  - apply trim_idem.
Qed.

End ParserExtras.

Lemma parse_segmented_witness :
  map function_of
    (fst (@parse sample_host sample_markers 0
            (blocks_text sample_markers mixed_blocks ++ lit " end ")))
  = flat_map (fun p => envelope_function (snd p)) mixed_blocks
  /\ snd (@parse sample_host sample_markers 0
            (blocks_text sample_markers mixed_blocks ++ lit " end "))
     = trim (concat (map fst mixed_blocks) ++ lit " end ").
Proof.
  apply (@parse_segmented sample_host sample_markers 0 mixed_blocks (lit " end ")).
  - exact sample_generated.
  - vm_compute. reflexivity.
  - vm_compute. reflexivity.
Defined.

(** ** Merging adjacent messages *)

Lemma join_merge (sep a b : jsstring) (l : list jsstring) :
  join sep ((a ++ sep ++ b) :: l) = join sep (a :: b :: l).
Proof.
  destruct l as [|x l]; [reflexivity|].
  cbn [join]. now rewrite <- !app_assoc.
Qed.

Section MergeExtras.
Context `{Host}.

Lemma merge_from_roles (current : message) (rest : list message) :
  map msg_role (merge_from_pure current rest)
  = collapse (msg_role current :: map msg_role rest).
Proof.
  revert current; induction rest as [|msg rest IH]; intros current;
    [reflexivity|].
  cbn [merge_from_pure map collapse].
  destruct (str_eqb (msg_role msg) (msg_role current)) eqn:E.
  - rewrite IH. cbn [set_content msg_role].
    apply str_eqb_eq in E. now rewrite E.
  - cbn [map]. now rewrite IH.
Qed.

Lemma mergeAdjacentMessages_distinct (messages merged : list message) :
  mergeAdjacentMessages messages = Some merged ->
  adjacent_distinct merged = true.
Proof.
  intro E. apply mergeAdjacentMessages_pure_spec in E. subst merged.
  destruct messages as [|first rest]; [reflexivity | apply merge_from_distinct].
Qed.

(** X5.  The roles of the list that [mergeAdjacentMessages] returns are
    the roles of the input with every run of equal consecutive roles
    reduced to one: merging drops no turn of the conversation and changes
    no order. *)
Theorem mergeAdjacentMessages_roles (messages merged : list message) :
  mergeAdjacentMessages messages = Some merged ->
  map msg_role merged = collapse (map msg_role messages).
Proof.
  intro E. apply mergeAdjacentMessages_pure_spec in E. subst merged.
  destruct messages as [|first rest]; [reflexivity|]. apply merge_from_roles.
Qed.

(** X6.  The lists that merging returns unchanged are exactly those in
    which no two consecutive messages share a role. *)
Theorem mergeAdjacentMessages_fixed (messages : list message) :
  mergeAdjacentMessages messages = Some messages
  <-> adjacent_distinct messages = true.
Proof.
  split; [apply mergeAdjacentMessages_distinct | apply mergeAdjacentMessages_id].
Qed.

(** X7.  Merging is idempotent: the list that [mergeAdjacentMessages]
    returns is returned unchanged by a second pass. *)
Theorem mergeAdjacentMessages_idempotent (messages merged : list message) :
  mergeAdjacentMessages messages = Some merged ->
  mergeAdjacentMessages merged = Some merged.
Proof.
  intro E. apply mergeAdjacentMessages_id.
  exact (mergeAdjacentMessages_distinct _ _ E).
Qed.

Lemma merge_from_join (current : message) (rest : list message)
  (c : jsstring) (ss : list jsstring) :
  msg_content current = Some (JStr c) ->
  same_role (msg_role current) rest = true ->
  map msg_content rest = map (fun s => Some (JStr s)) ss ->
  merge_from current rest
  = Some [set_content current (join [LF; LF] (c :: ss))].
Proof.
  revert current c ss; induction rest as [|msg rest IH];
    intros current c ss C R M.
  - destruct ss; [|discriminate]. destruct current. simpl in C. subst.
    reflexivity.
  - destruct ss as [|s ss]; [discriminate|]. injection M as Ms M.
    simpl in R. apply andb_true_iff in R as [R1 R2].
    cbn [merge_from]. rewrite R1, C, Ms.
    assert (forall t, or_empty (Some (JStr t)) = Some t) as O
      by (intro t; now destruct t).
    rewrite !O.
    rewrite (IH _ (c ++ [LF; LF] ++ s) ss); try assumption; try reflexivity.
    rewrite join_merge. reflexivity.
Qed.

(** X8.  Consecutive messages of one role with string contents become one
    message: the first message with, as content, the contents in order
    joined by two line feeds (an empty content still takes its place
    between separators). *)
Theorem mergeAdjacentMessages_join (first : message) (rest : list message)
  (c : jsstring) (ss : list jsstring) :
  msg_content first = Some (JStr c) ->
  same_role (msg_role first) rest = true ->
  map msg_content rest = map (fun s => Some (JStr s)) ss ->
  mergeAdjacentMessages (first :: rest)
  = Some [set_content first (join [LF; LF] (c :: ss))].
Proof. apply merge_from_join. Qed.

End MergeExtras.

Lemma mergeAdjacentMessages_fixed_witness :
  @mergeAdjacentMessages sample_host (req_messages plain_chat)
  = Some (req_messages plain_chat)
  <-> adjacent_distinct (req_messages plain_chat) = true.
Proof. apply (@mergeAdjacentMessages_fixed sample_host). Defined.

Lemma mergeAdjacentMessages_roles_witness :
  map msg_role [set_content (text_message "user" "a")
                  (join [LF; LF] [lit "a"; lit ""; lit "c"])]
  = collapse (map msg_role three_user_turns).
Proof.
  apply (@mergeAdjacentMessages_roles sample_host three_user_turns).
  reflexivity.
Defined.

Lemma mergeAdjacentMessages_idempotent_witness :
  @mergeAdjacentMessages sample_host
    [set_content (text_message "user" "a")
       (join [LF; LF] [lit "a"; lit ""; lit "c"])]
  = Some [set_content (text_message "user" "a")
            (join [LF; LF] [lit "a"; lit ""; lit "c"])].
Proof.
  apply (@mergeAdjacentMessages_idempotent sample_host three_user_turns).
  reflexivity.
Defined.

Lemma mergeAdjacentMessages_join_witness :
  @mergeAdjacentMessages sample_host three_user_turns
  = Some [set_content (text_message "user" "a")
            (join [LF; LF] [lit "a"; lit ""; lit "c"])].
Proof.
  apply (@mergeAdjacentMessages_join sample_host (text_message "user" "a")
           [text_message "user" ""; text_message "user" "c"]
           (lit "a") [lit ""; lit "c"]).
  - reflexivity.
  - reflexivity.
  - reflexivity.
Defined.

(** ** The request transcoder on any request *)

Lemma generated_solid (m : markers) : generated m -> markers_solid m = true.
Proof. apply all_choices_generated. vm_compute. reflexivity. Qed.

Lemma startsWith_snoc (p t : jsstring) (x : N) :
  startsWith p (t ++ [x]) = true -> startsWith p t = true \/ p = t ++ [x].
Proof.
  revert t; induction p as [|a p IH]; intros t E; [now left|].
  destruct t as [|b t].
  - simpl in E. apply andb_true_iff in E as [E1 E2]. apply N.eqb_eq in E1.
    destruct p; [right; now subst | discriminate].
  - simpl in E. apply andb_true_iff in E as [E1 E2]. apply N.eqb_eq in E1.
    subst b. destruct (IH t E2) as [S | ->].
    + left. simpl. now rewrite N.eqb_refl.
    + now right.
Qed.

(** A white space unit after a text free of [TC_START] completes no
    marker. *)
Lemma plain_snoc (m : markers) (t : jsstring) (x : N) :
  markers_wf m = true -> markers_solid m = true -> is_space x = true ->
  plain m t = true -> plain m (t ++ [x]) = true.
Proof.
  intros WF So X P. unfold plain in *.
  destruct (indexOf (TC_START m) t) eqn:I; [discriminate|]. clear P.
  assert (forall u, startsWith (TC_START m) u = false ->
                    startsWith (TC_START m) (u ++ [x]) = false) as Step.
  { intros u F. destruct (startsWith (TC_START m) (u ++ [x])) eqn:E;
      [|reflexivity].
    apply startsWith_snoc in E as [E | E]; [congruence|].
    unfold markers_solid in So. rewrite forallb_forall in So.
    specialize (So x). rewrite E, X in So. simpl in So.
    assert (false = true); [|discriminate].
    apply So. apply in_or_app. right. now left. }
  induction t as [|c t IH].
  - pose proof (Step [] (indexOf_None_startsWith _ _ I)) as F.
    change (match (if startsWith (TC_START m) ([] ++ [x]) then Some 0
                   else option_map S (indexOf (TC_START m) []))
            with None => true | Some _ => false end = true).
    now rewrite F, I.
  - pose proof (Step _ (indexOf_None_startsWith _ _ I)) as F.
    apply indexOf_None_tail in I. specialize (IH I).
    change (match (if startsWith (TC_START m) ((c :: t) ++ [x]) then Some 0
                   else option_map S (indexOf (TC_START m) (t ++ [x])))
            with None => true | Some _ => false end = true).
    rewrite F. now destruct (indexOf (TC_START m) (t ++ [x])).
Qed.

Lemma trimStart_all_space (w : jsstring) :
  all_space w = true -> trimStart w = [].
Proof.
  induction w as [|c w IH]; [reflexivity|]. simpl. intro A.
  apply andb_true_iff in A as [C A]. rewrite C. now apply IH.
Qed.

Lemma trimStart_app_space (w t : jsstring) :
  all_space w = true -> trimStart (w ++ t) = trimStart t.
Proof.
  induction w as [|c w IH]; [reflexivity|]. simpl. intro A.
  apply andb_true_iff in A as [C A]. rewrite C. now apply IH.
Qed.

Lemma all_space_rev (w : jsstring) : all_space w = true -> all_space (rev w) = true.
Proof.
  unfold all_space. rewrite !forallb_forall. intros A x I. apply A.
  now apply in_rev.
Qed.

Lemma trimEnd_app_space (t w : jsstring) :
  all_space w = true -> trimEnd (t ++ w) = trimEnd t.
Proof.
  intro A. unfold trimEnd. rewrite rev_app_distr.
  now rewrite trimStart_app_space by now apply all_space_rev.
Qed.

(** White space after a text is trimmed away. *)
Lemma trim_app_space (t w : jsstring) :
  all_space w = true -> trim (t ++ w) = trim t.
Proof.
  intro A. unfold trim. induction t as [|c t IH].
  - simpl app. now rewrite trimStart_all_space.
  - simpl. destruct (is_space c); [exact IH|].
    now apply (trimEnd_app_space (c :: t)).
Qed.

Section RequestExtras.
Context `{Host}.

Lemma has_tool_history_free (l : list message) :
  has_tool_history l = false <-> forallb tool_free l = true.
Proof.
  unfold has_tool_history, tool_free. induction l as [|msg l IH]; [now split|].
  simpl. rewrite orb_false_iff, andb_true_iff, negb_true_iff. tauto.
Qed.

Lemma rewrite_message_settled (m : markers) (hasTools : bool)
  (prompt : jsstring) (msg : message) :
  settled (rewrite_message_pure m hasTools prompt msg) = true.
Proof.
  unfold rewrite_message_pure, rewrite_message.
  destruct (str_eqb (msg_role msg) (lit "system")) eqn:S; [reflexivity|].
  destruct (str_eqb (msg_role msg) (lit "assistant") && has_tool_calls msg) eqn:A;
    [reflexivity|].
  destruct (str_eqb (msg_role msg) (lit "tool")) eqn:T; [reflexivity|].
  unfold settled, tool_free, plain_system. now rewrite S, A, T.
Qed.

Lemma settled_set_content (msg : message) (c : jsstring) :
  settled msg = true -> settled (set_content msg c) = true.
Proof.
  unfold settled, tool_free, plain_system, has_tool_calls.
  cbn [set_content msg_role msg_content msg_tool_calls msg_name
       msg_tool_call_id msg_extra].
  intro E. apply andb_true_iff in E as [E1 E2]. rewrite E1. simpl.
  destruct (str_eqb (msg_role msg) (lit "system")); [|reflexivity].
  destruct (msg_content msg) as [[]|]; try discriminate. exact E2.
Qed.

Lemma merge_from_settled (current : message) (rest : list message) :
  settled current = true -> forallb settled rest = true ->
  forallb settled (merge_from_pure current rest) = true.
Proof.
  revert current; induction rest as [|msg rest IH]; intros current C R.
  - simpl. now rewrite C.
  - simpl in R. apply andb_true_iff in R as [R1 R2]. cbn [merge_from_pure].
    destruct (str_eqb (msg_role msg) (msg_role current)).
    + apply IH; [now apply settled_set_content | assumption].
    + cbn [forallb]. rewrite C. now apply IH.
Qed.

Lemma transformRequest_settled (m : markers) (req : request) (hasTools : bool) :
  forallb settled (req_messages (transformRequest_pure m req hasTools)) = true.
Proof.
  unfold transformRequest_pure. cbn [req_messages].
  match goal with
  | |- forallb settled (mergeAdjacentMessages_pure ?l) = true =>
      assert (forallb settled l = true) as S; [|destruct l as [|first rest]]
  end.
  - match goal with
    | |- forallb settled (if ?c then _ :: ?l else ?l) = true =>
        assert (forallb settled l = true) as S
          by (apply forallb_forall; intros x I; apply in_map_iff in I
              as (msg & <- & _); apply rewrite_message_settled);
        destruct c; [cbn [forallb]; now rewrite S | exact S]
    end.
  - reflexivity.
  - simpl in S. apply andb_true_iff in S as [S1 S2].
    now apply merge_from_settled.
Qed.

(** X9.  Whatever the request and the flag, the request that
    [transformRequest] returns holds no tool history: no message has role
    [tool] and no assistant message carries tool calls. *)
Theorem transformRequest_no_tool_history (m : markers) (req out : request)
  (hasTools : bool) :
  transformRequest m req hasTools = Some out ->
  has_tool_history (req_messages out) = false.
Proof.
  intro E. apply transformRequest_pure_spec in E. subst out.
  apply has_tool_history_free.
  pose proof (transformRequest_settled m req hasTools) as S.
  rewrite forallb_forall in *. intros msg I. specialize (S msg I).
  unfold settled in S. now apply andb_true_iff in S as [S _].
Qed.

Lemma plain_system_spec (msg : message) :
  plain_system msg = true -> msg_role msg = lit "system" ->
  exists s, msg = plain_message (lit "system") s.
Proof.
  unfold plain_system. intros P R. rewrite R in P. simpl in P.
  destruct msg as [r [[]|] [tc|] [n|] [i|] [|e ex]]; try discriminate.
  simpl in R. subst r. now exists s.
Qed.

(** X10.  Rewriting is idempotent: a request that [transformRequest]
    has returned goes through [transformRequest] again unchanged, whatever
    the flag of the second pass. *)
Theorem transformRequest_idempotent (m : markers) (req out : request)
  (hasTools again : bool) :
  transformRequest m req hasTools = Some out ->
  transformRequest m out again = Some out.
Proof.
  intro E. apply transformRequest_pure_spec in E.
  pose proof (transformRequest_settled m req hasTools) as S.
  pose proof (transformRequest_pure_distinct m req hasTools) as D.
  rewrite <- E in S, D.
  assert (req_tools out = None /\ req_tool_choice out = None) as [T C]
    by (rewrite E; split; reflexivity).
  clear E. unfold transformRequest. rewrite T. cbn [List.length Nat.eqb negb].
  rewrite andb_false_r. cbn [is_empty]. rewrite andb_false_r.
  rewrite all_some_map_id.
  - rewrite (mergeAdjacentMessages_id _ D).
    destruct out as [ms ts tc ex]. simpl in T, C. now subst.
  - intros msg I. rewrite forallb_forall in S. specialize (S msg I).
    unfold settled in S. apply andb_true_iff in S as [S1 S2].
    apply rewrite_message_id.
    + unfold tool_free in S1. now apply negb_true_iff in S1.
    + now apply plain_system_spec.
Qed.

Lemma merge_from_first (current : message) (rest : list message) :
  existsb (fun msg => str_eqb (msg_role msg) (msg_role current)) rest = false ->
  hd_error (merge_from_pure current rest) = Some current.
Proof.
  destruct rest as [|msg rest]; [reflexivity|]. simpl. intro E.
  apply orb_false_iff in E as [E _]. now rewrite E.
Qed.

Lemma rewrite_message_system (m : markers) (hasTools : bool) (prompt : jsstring)
  (msg : message) :
  str_eqb (msg_role msg) (lit "system") = false ->
  str_eqb (msg_role (rewrite_message_pure m hasTools prompt msg)) (lit "system")
  = false.
Proof.
  intro S. unfold rewrite_message_pure, rewrite_message. rewrite S.
  destruct (str_eqb (msg_role msg) (lit "assistant") && has_tool_calls msg);
    [reflexivity|].
  destruct (str_eqb (msg_role msg) (lit "tool")); [reflexivity | exact S].
Qed.

(** X11.  When the request declares tools and has no system message, the
    request that [transformRequest] returns opens with a system message
    whose content is the tool protocol prompt. *)
Theorem transformRequest_prompt_first (m : markers) (req out : request)
  (tool : tool_spec) (tools : list tool_spec) :
  req_tools req = Some (tool :: tools) ->
  existsb (fun msg => str_eqb (msg_role msg) (lit "system")) (req_messages req)
  = false ->
  transformRequest m req true = Some out ->
  hd_error (req_messages out)
  = Some (plain_message (lit "system") (getSystemPrompt m (tool :: tools))).
Proof.
  intros T S E. apply transformRequest_pure_spec in E. subst out.
  unfold transformRequest_pure. rewrite T, S. cbn [req_messages].
  cbn [List.length Nat.eqb negb andb].
  assert (is_empty (getSystemPrompt m (tool :: tools)) = false) as ->
    by reflexivity.
  cbn [negb andb]. unfold mergeAdjacentMessages_pure. apply merge_from_first.
  cbn [plain_message msg_role].
  induction (req_messages req) as [|msg l IH]; [reflexivity|].
  simpl in S. apply orb_false_iff in S as [S1 S2]. cbn [map existsb].
  rewrite (rewrite_message_system _ _ _ _ S1). now apply IH.
Qed.

Lemma encode_call_envelope (m : markers) (tc : tool_call) :
  encode_call m tc = [LF] ++ envelope_text m (call_envelope tc).
Proof. reflexivity. Qed.

Lemma encode_calls_blocks (m : markers) (c : jsstring) (tc : tool_call)
  (L : list tool_call) :
  c ++ encode_calls m (tc :: L)
  = blocks_text m
      ((c ++ [LF], call_envelope tc)
       :: map (fun t => ([LF], call_envelope t)) L).
Proof.
  unfold encode_calls, blocks_text. cbn [map concat fst snd].
  rewrite encode_call_envelope, <- !app_assoc. do 3 f_equal.
  induction L as [|t L IH]; [reflexivity|].
  cbn [map concat fst snd]. now rewrite IH, encode_call_envelope.
Qed.

Lemma readable_blocks (m : markers) (L : list tool_call) :
  markers_wf m = true ->
  forallb (readable_call m) L = true ->
  blocks_ok m (map (fun t => ([LF], call_envelope t)) L) = true
  /\ flat_map (fun p => envelope_function (snd p))
       (map (fun t => ([LF], call_envelope t)) L)
     = map trimmed_function L.
Proof.
  intros WF. induction L as [|t L IH]; intro R; [now split|].
  simpl in R. apply andb_true_iff in R as [R1 R2].
  destruct (IH R2) as [B F]. unfold blocks_ok in *.
  cbn [map forallb flat_map fst snd]. rewrite B, F.
  unfold readable_call in R1.
  unfold plain, delimited, envelope_function, call_envelope.
  cbn [ep_w1 ep_w2 ep_w3 ep_name ep_args].
  rewrite (line_feed_free m WF).
  destruct (indexOf (NAME_END m) (fn_name t)); [discriminate|].
  destruct (indexOf (ARGS_END m) (fn_arguments t)); [discriminate|].
  destruct (JSON_parse (trim (fn_arguments t))); [|discriminate].
  split; reflexivity.
Qed.

(** X12.  What the rewriter writes into the history, the parser reads
    back.  For an assistant message with a string content free of
    [TC_START] and tool calls that are readable (no closing marker inside,
    JSON arguments), the content rewritten with [hasTools] true parses
    into the functions of those calls, in order and trimmed, and leaves
    the original content, trimmed, as residual text. *)
Theorem assistant_turn_roundtrip (m : markers) (k : nat) (prompt c : jsstring)
  (tc : tool_call) (L : list tool_call) :
  generated m ->
  plain m c = true ->
  forallb (readable_call m) (tc :: L) = true ->
  exists text,
    rewrite_message m true prompt (assistant_turn c (tc :: L))
    = Some (plain_message (lit "assistant") text)
    /\ map function_of (fst (parse m k text)) = map trimmed_function (tc :: L)
    /\ snd (parse m k text) = trim c.
Proof.
  intros G P R. pose proof (generated_solid m G) as So.
  apply generated_wf in G.
  exists (c ++ encode_calls m (tc :: L)). split.
  - unfold rewrite_message, assistant_turn, or_empty.
    cbn [msg_role msg_content msg_tool_calls has_tool_calls truthy value_text
         ToString].
    change (str_eqb (lit "assistant") (lit "system")) with false.
    change (str_eqb (lit "assistant") (lit "assistant")) with true.
    cbn [andb]. now destruct c.
  - destruct (readable_blocks m (tc :: L) G R) as [B F].
    cbn [map] in B, F.
    rewrite encode_calls_blocks.
    set (ps := (c ++ [LF], call_envelope tc)
               :: map (fun t => ([LF], call_envelope t)) L).
    assert (blocks_ok m ps = true) as Bp.
    { unfold ps. unfold blocks_ok in *. cbn [forallb fst snd] in *.
      apply andb_true_iff in B as [B1 B2]. rewrite B2.
      apply andb_true_iff in B1 as [_ B1]. rewrite B1.
      now rewrite (plain_snoc m c LF G So eq_refl P). }
    rewrite <- (app_nil_r (blocks_text m ps)).
    unfold parse. cbn [fst snd].
    rewrite (scan_blocks m ps [] G Bp), (scan_blocks_explicit m ps G Bp).
    rewrite (scan_empty m G), app_nil_r.
    rewrite exec_all_blocks, replace_all_blocks. split.
    + rewrite collect_calls_blocks. unfold ps. cbn [flat_map snd].
      cbn [flat_map map snd] in F. exact F.
    + unfold ps. cbn [map concat fst]. rewrite map_map. cbn [fst].
      rewrite <- app_assoc. apply trim_app_space.
      unfold all_space. cbn [app forallb]. change (is_space LF) with true.
      cbn [andb]. clear. induction L; [reflexivity|]. simpl. exact IHL.
Qed.

End RequestExtras.

Lemma transformRequest_no_tool_history_witness :
  has_tool_history (req_messages (rewritten_conversation true)) = false.
Proof.
  apply (@transformRequest_no_tool_history sample_host sample_markers
           tool_conversation (rewritten_conversation true) true).
  vm_compute. reflexivity.
Defined.

Lemma transformRequest_idempotent_witness :
  @transformRequest sample_host sample_markers (rewritten_conversation true) false
  = Some (rewritten_conversation true).
Proof.
  apply (@transformRequest_idempotent sample_host sample_markers
           tool_conversation (rewritten_conversation true) true false).
  vm_compute. reflexivity.
Defined.

Lemma transformRequest_prompt_first_witness :
  hd_error (req_messages (rewritten_conversation true))
  = Some (plain_message (lit "system")
            (@getSystemPrompt sample_host sample_markers [sample_tool])).
Proof.
  apply (@transformRequest_prompt_first sample_host sample_markers
           tool_conversation (rewritten_conversation true) sample_tool []).
  - reflexivity.
  - reflexivity.
  - vm_compute. reflexivity.
Defined.

Lemma assistant_turn_roundtrip_witness :
  exists text,
    @rewrite_message sample_host sample_markers true []
      (assistant_turn (lit "On it.") two_calls)
    = Some (plain_message (lit "assistant") text)
    /\ map function_of (fst (@parse sample_host sample_markers 0 text))
       = map trimmed_function two_calls
    /\ snd (@parse sample_host sample_markers 0 text) = trim (lit "On it.").
Proof.
  apply (@assistant_turn_roundtrip sample_host sample_markers 0 [] (lit "On it.")
           (make_call "add" sample_args) [make_call " lookup" (lit " [1, 2] ")]).
  - exact sample_generated.
  - vm_compute. reflexivity.
  - vm_compute. reflexivity.
Defined.

(** ** A text that lacks a marker *)

Lemma strip_prefix_Some (p t r : jsstring) :
  strip_prefix p t = Some r -> t = p ++ r.
Proof.
  revert t; induction p as [|x p IH]; intros t E; simpl in E.
  - now injection E as ->.
  - destruct t as [|y t]; [discriminate|].
    destruct (N.eqb x y) eqn:X; [|discriminate].
    apply N.eqb_eq in X. subst y. simpl. f_equal. now apply IH.
Qed.

(** A match of a pattern holds every literal of the pattern. *)
Lemma rx_match_lit (s : jsstring) (p : list rx) :
  In (RxLit s) p ->
  forall t r, rx_match p t = Some r -> exists a b, t = a ++ s ++ b.
Proof.
  induction p as [|x p IH]; intro I; [contradiction|].
  destruct x as [s0| |].
  - intros t r E. simpl in E.
    destruct (strip_prefix s0 t) as [t'|] eqn:P; [|discriminate].
    apply strip_prefix_Some in P. subst t.
    destruct I as [I | I].
    + injection I as ->. now exists [], t'.
    + destruct (IH I _ _ E) as (a & b & ->).
      exists (s0 ++ a), b. now rewrite <- app_assoc.
  - destruct I as [I | I]; [discriminate|].
    induction t as [|c t IHt]; intros r E.
    + exact (IH I _ _ E).
    + rewrite rx_spaces_cons in E.
      destruct (is_space c); [|exact (IH I _ _ E)].
      destruct (rx_match (RxSpaces :: p) t) as [r'|] eqn:M; [|exact (IH I _ _ E)].
      destruct (IHt _ eq_refl) as (a & b & ->). now exists (c :: a), b.
  - destruct I as [I | I]; [discriminate|].
    induction t as [|c t IHt]; intros r E.
    + simpl in E. destruct (rx_match p []) as [[caps rest]|] eqn:M; [|discriminate].
      exact (IH I _ _ M).
    + change (rx_match (RxGroup :: p) (c :: t))
        with (match rx_match p (c :: t) with
              | Some (caps, rest) => Some ([] :: caps, rest)
              | None =>
                  match rx_match (RxGroup :: p) t with
                  | Some (cap :: caps, rest) => Some ((c :: cap) :: caps, rest)
                  | _ => None
                  end
              end) in E.
      destruct (rx_match p (c :: t)) as [[caps rest]|] eqn:M; [exact (IH I _ _ M)|].
      destruct (rx_match (RxGroup :: p) t) as [r'|] eqn:M'; [|discriminate].
      destruct (IHt _ eq_refl) as (a & b & ->). now exists (c :: a), b.
Qed.

Lemma indexOf_occurs (p a b : jsstring) : indexOf p (a ++ p ++ b) <> None.
Proof.
  induction a as [|c a IH].
  - simpl app. pose proof (startsWith_app p b) as S.
    destruct (p ++ b) as [|y t] eqn:E; simpl; rewrite S; discriminate.
  - simpl. destruct (startsWith p (c :: a ++ p ++ b)); [discriminate|].
    destruct (indexOf p (a ++ p ++ b)); [discriminate | contradiction].
Qed.

(** A text that lacks a literal of the pattern is left as it is by the
    pass of the regex. *)
Lemma scan_unmatched (p : list rx) (s t : jsstring) :
  In (RxLit s) p -> indexOf s t = None -> scan p 0 t = map SegUnit t.
Proof.
  intros I.
  assert (forall u, indexOf s u = None -> rx_match p u = None) as F.
  { intros u N. destruct (rx_match p u) as [r|] eqn:M; [|reflexivity].
    destruct (rx_match_lit s p I _ _ M) as (a & b & ->).
    now elim (indexOf_occurs s a b). }
  induction t as [|c t IH]; intro N.
  - simpl. now rewrite (F [] N).
  - cbn [scan]. rewrite (F _ N). cbn [map]. f_equal.
    apply IH. exact (indexOf_None_tail _ _ _ N).
Qed.

Lemma envelope_markers_regex (m : markers) (s : jsstring) :
  In s (envelope_markers m) -> In (RxLit s) (tool_regex m).
Proof.
  unfold envelope_markers, tool_regex. simpl. intuition (subst; auto 12).
Qed.

Section Unmatched.
Context `{Host}.

Lemma parse_unmatched (m : markers) (k : nat) (content s : jsstring) :
  In s (envelope_markers m) -> indexOf s content = None ->
  parse m k content = ([], trim content).
Proof.
  intros I N. unfold parse.
  rewrite (scan_unmatched _ s content (envelope_markers_regex m s I) N).
  now rewrite exec_all_units, replace_all_units.
Qed.

End Unmatched.

(** X1.  A text that lacks any one of the six markers of the envelope
    holds no tool call: [parse] returns no call and the text without the
    white space around it.  An unclosed or cut block is text. *)
Theorem parse_needs_every_marker `{Host} (m : markers) (k : nat)
  (content s : jsstring) :
  In s (envelope_markers m) -> indexOf s content = None ->
  parse m k content = ([], trim content).
Proof. apply parse_unmatched. Qed.

Lemma parse_needs_every_marker_witness :
  In (TC_END sample_markers) (envelope_markers sample_markers)
  /\ @parse sample_host sample_markers 0
       (lit " x" ++ TC_START sample_markers ++ NAME_START sample_markers
        ++ lit "add" ++ NAME_END sample_markers ++ ARGS_START sample_markers
        ++ lit "{}" ++ ARGS_END sample_markers ++ [LF])
     = ([], trim (lit " x" ++ TC_START sample_markers ++ NAME_START sample_markers
                  ++ lit "add" ++ NAME_END sample_markers
                  ++ ARGS_START sample_markers ++ lit "{}"
                  ++ ARGS_END sample_markers ++ [LF])).
Proof.
  assert (In (TC_END sample_markers) (envelope_markers sample_markers)) as I
    by (simpl; auto 10).
  split; [exact I|].
  apply (@parse_needs_every_marker sample_host sample_markers 0 _
           (TC_END sample_markers) I).
  vm_compute. reflexivity.
Defined.

(** ** What the transformer sends *)

Section StreamExtras.
Context `{Host}.
Variable m : markers.

Lemma call_chunks_observed (k i : nat) (tcs : list tool_call) :
  map observe (map OutChunk (toolCallChunks_from k i tcs))
  = call_events i (map function_of tcs).
Proof.
  revert k i; induction tcs as [|tc tcs IH]; intros k i; [reflexivity|].
  cbn [toolCallChunks_from map call_events function_of]. f_equal. apply IH.
Qed.

Lemma push_text_observed (k : nat) (t : jsstring) :
  map observe (snd (push_text k t)) = text_event t.
Proof. destruct t; reflexivity. Qed.

Lemma parse_tick (k : nat) (t : jsstring) :
  map function_of (fst (parse m k t)) = map function_of (fst (parse m 0 t))
  /\ snd (parse m k t) = snd (parse m 0 t).
Proof.
  unfold parse. cbn [fst snd]. split; [apply collect_calls_functions | reflexivity].
Qed.

(** What the client observes of the frames of [settle]. *)
Lemma settle_observed (st : stream_state) :
  map observe (snd (settle m st)) = settle_events m st.
Proof.
  unfold settle, settle_events.
  assert (forall k, map observe
                      (snd (if is_empty (pendingText st) then (k, [])
                            else push_text k (pendingText st)))
                    = text_event (pendingText st)) as P.
  { intro k. destruct (pendingText st); reflexivity. }
  specialize (P (ticks st)).
  destruct (if is_empty (pendingText st) then (ticks st, [])
            else push_text (ticks st) (pendingText st)) as [k1 out1].
  cbn [snd] in P.
  destruct (is_empty (contentBuffer st)).
  - cbn [snd]. rewrite map_app, P. reflexivity.
  - destruct (parse_tick k1 (contentBuffer st)) as [F C].
    destruct (parse m k1 (contentBuffer st)) as [tcs clean]. cbn [fst snd] in F, C.
    rewrite <- F, <- C. unfold block_events.
    assert (forall k, map observe
                        (snd (if is_empty clean then (k, [])
                              else push_text k clean))
                      = text_event clean) as Q.
    { intro k. destruct clean; reflexivity. }
    specialize (Q (List.length tcs + k1)).
    destruct (if is_empty clean then (List.length tcs + k1, [])
              else push_text (List.length tcs + k1) clean) as [kb outb].
    cbn [snd] in Q.
    destruct tcs as [|tc tcs].
    + cbn [snd]. rewrite !map_app, P, Q. reflexivity.
    + cbn [snd]. rewrite !map_app, P, Q. unfold toolCallChunks.
      rewrite call_chunks_observed. reflexivity.
Qed.

(** *** The state between two chunks *)

Lemma handle_content_fields (st : stream_state) (c : jsstring) :
  lineBuffer (fst (handle_content m st c)) = lineBuffer st
  /\ streamEnded (fst (handle_content m st c)) = streamEnded st.
Proof.
  unfold handle_content. destruct (isBuffering st); [auto|].
  destruct (indexOf (TC_START m) (pendingText st ++ c)).
  - destruct (is_empty _); [auto|]. destruct (push_text _ _); auto.
  - destruct (includes _ _); [auto|]. destruct (push_text _ _); auto.
Qed.

Lemma indexOf_Some_startsWith (p t : jsstring) (k : nat) :
  indexOf p t = Some k -> startsWith p (skipn k t) = true.
Proof.
  revert k; induction t as [|c t IH]; intros k E; simpl in E.
  - destruct (startsWith p []) eqn:S; [|discriminate]. injection E as <-. exact S.
  - destruct (startsWith p (c :: t)) eqn:S.
    + injection E as <-. exact S.
    + destruct (indexOf p t) as [k'|]; [|discriminate]. injection E as <-.
      simpl. now apply IH.
Qed.

Lemma handle_content_inv (st : stream_state) (c : jsstring) :
  stream_inv m st -> stream_inv m (fst (handle_content m st c)).
Proof.
  intros [L I]. destruct (handle_content_fields st c) as [Lf Ef].
  split; [now rewrite Lf|]. rewrite Ef. intro E. specialize (I E).
  unfold handle_content, slice_from. destruct (isBuffering st).
  - cbn [fst isBuffering contentBuffer pendingText]. destruct I as [S P].
    split; [now apply startsWith_app_r | exact P].
  - destruct I as [C P].
    assert (indexOf (TC_START m) [] = None) as P0.
    { rewrite <- (app_nil_r (pendingText st)) in P.
      exact (indexOf_None_app_r _ _ _ P). }
    destruct (indexOf (TC_START m) (pendingText st ++ c)) as [idx|] eqn:F.
    + assert (startsWith (TC_START m) (skipn idx (pendingText st ++ c)) = true)
        as S by now apply indexOf_Some_startsWith.
      destruct (is_empty _); [now split|].
      destruct (push_text _ _). now split.
    + destruct (includes _ _); [now split|].
      destruct (push_text _ _). now split.
Qed.

Lemma processLine_inv (st s : stream_state) (line : jsstring) (o : list sse_out) :
  stream_inv m st -> processLine m st line = Some (s, o) ->
  stream_inv m s /\ lineBuffer s = lineBuffer st.
Proof.
  intros I. rewrite processLine_classify.
  destruct (classify line) as [| | |c|]; intro E; try discriminate;
    try (injection E as <- <-; now split).
  - injection E as <- <-. split; [|reflexivity].
    split; [exact (proj1 I) | discriminate].
  - destruct (handle_content_fields st c) as [Lf _].
    pose proof (handle_content_inv st c I) as I'.
    destruct (handle_content m st c) as [s' o']. injection E as <- <-.
    now split.
Qed.

Lemma process_lines_inv (ls : list jsstring) (st s : stream_state)
  (o : list sse_out) :
  stream_inv m st -> process_lines m st ls = Some (s, o) ->
  stream_inv m s /\ lineBuffer s = lineBuffer st.
Proof.
  revert st o; induction ls as [|l ls IH]; intros st o I E; simpl in E.
  - injection E as <- <-. now split.
  - destruct (processLine m st l) as [[s1 o1]|] eqn:P; [|discriminate].
    destruct (processLine_inv _ _ _ _ I P) as [I1 L1].
    destruct (process_lines m s1 ls) as [[s2 o2]|] eqn:Q; [|discriminate].
    injection E as <- <-.
    destruct (IH _ _ I1 Q) as [I2 L2]. split; [exact I2 | congruence].
Qed.

Lemma set_lineBuffer_inv (st : stream_state) (b : jsstring) :
  stream_inv m st -> ~ In LF b -> stream_inv m (set_lineBuffer st b).
Proof. intros [_ I] N. split; [exact N | exact I]. Qed.

Lemma write_all_inv (chunks : list jsstring) (st s : stream_state)
  (o : list sse_out) :
  stream_inv m st -> write_all m st chunks = Some (s, o) -> stream_inv m s.
Proof.
  revert st o; induction chunks as [|c chunks IH]; intros st o I E; simpl in E.
  - now injection E as <- <-.
  - unfold transform in E.
    destruct (process_lines m _ _) as [[s1 o1]|] eqn:P; [|discriminate].
    destruct (write_all m s1 chunks) as [[s2 o2]|] eqn:Q; [|discriminate].
    injection E as <- <-.
    apply (IH s1 o2); [|exact Q].
    apply (process_lines_inv _ _ _ _ (set_lineBuffer_inv st _ I
             (split_last_no_sep _ _)) P).
Qed.

End StreamExtras.

Section StreamConservation.
Context `{Host}.
Variable m : markers.

Lemma initial_state_inv (k : nat) :
  markers_wf m = true -> stream_inv m (initial_state k).
Proof.
  intro WF. destruct (wf_parts m WF) as (_ & _ & _ & S & _).
  split; [simpl; tauto|]. intros _. simpl. split; [reflexivity|].
  destruct (TC_START m); [discriminate | reflexivity].
Qed.

Lemma handle_content_conserved (st : stream_state) (c : jsstring) :
  stream_inv m st -> streamEnded st = false ->
  map observe (snd (handle_content m st c))
  = map EvText (content_deltas (snd (handle_content m st c)))
  /\ concat (content_deltas (snd (handle_content m st c)))
     ++ pendingText (fst (handle_content m st c))
     ++ contentBuffer (fst (handle_content m st c))
     = pendingText st ++ contentBuffer st ++ c.
Proof.
  intros [_ I] E. specialize (I E). destruct (isBuffering st) eqn:B.
  - unfold handle_content. rewrite B. simpl. auto.
  - destruct I as [C P]. rewrite C. simpl app.
    destruct (indexOf (TC_START m) (pendingText st ++ c)) as [idx|] eqn:F.
    + destruct (handle_content_found m st c idx B F)
        as (s & o & -> & Bs & Cs & Ps & Es & O & T).
      cbn [fst snd]. split; [exact O|].
      rewrite T, Ps, Cs. simpl. apply firstn_skipn.
    + destruct (handle_content_quiet m st c B F)
        as (s & o & -> & Bs & Cs & Es & O & D).
      cbn [fst snd]. split; [exact O|]. rewrite Cs, C, app_nil_r.
      destruct D as [[-> ->] | (-> & D & _)]; [reflexivity|].
      now rewrite app_nil_r.
Qed.

Lemma processLine_ended (st s : stream_state) (line : jsstring) (o : list sse_out) :
  processLine m st line = Some (s, o) -> streamEnded s = false ->
  streamEnded st = false /\ is_sentinel line = false.
Proof.
  rewrite processLine_classify. unfold is_sentinel.
  destruct (classify line) as [| | |c|]; intros E F; try discriminate;
    try (injection E as <- <-; now split).
  destruct (handle_content_fields m st c) as [_ Ef].
  destruct (handle_content m st c) as [s' o']. injection E as <- <-.
  cbn [fst] in Ef. split; [congruence | reflexivity].
Qed.

Lemma process_lines_conserved (ls : list jsstring) (st s : stream_state)
  (o : list sse_out) :
  stream_inv m st -> process_lines m st ls = Some (s, o) ->
  streamEnded s = false ->
  map observe o = map EvText (content_deltas o)
  /\ concat (content_deltas o) ++ pendingText s ++ contentBuffer s
     = pendingText st ++ contentBuffer st ++ concat (upstream_contents ls).
Proof.
  revert st o; induction ls as [|l ls IH]; intros st o I E F; simpl in E.
  - injection E as <- <-. simpl. now rewrite app_nil_r.
  - destruct (processLine m st l) as [[s1 o1]|] eqn:P; [|discriminate].
    destruct (process_lines m s1 ls) as [[s2 o2]|] eqn:Q; [|discriminate].
    injection E as <- <-.
    destruct (processLine_inv m _ _ _ _ I P) as [I1 _].
    destruct (IH _ _ I1 Q F) as [O2 C2].
    assert (streamEnded s1 = false) as F1.
    { destruct (streamEnded s1) eqn:E1; [|reflexivity].
      clear - Q E1 F. revert s1 o2 Q E1.
      induction ls as [|l' ls IHl]; intros s1 o2 Q E1; simpl in Q.
      - injection Q as <- <-. congruence.
      - destruct (processLine m s1 l') as [[s3 o3]|] eqn:P'; [|discriminate].
        destruct (process_lines m s3 ls) as [[s4 o4]|] eqn:Q'; [|discriminate].
        injection Q as <- <-.
        destruct (streamEnded s3) eqn:E3; [exact (IHl _ _ Q' E3)|].
        destruct (processLine_ended _ _ _ _ P' E3). congruence. }
    destruct (processLine_ended _ _ _ _ P F1) as [F0 _].
    rewrite processLine_classify in P.
    unfold upstream_contents in *. cbn [flat_map].
    rewrite map_app, content_deltas_app, map_app, concat_app.
    destruct (classify l) as [| | |c|]; try discriminate;
      try (injection P as <- <-; simpl; split; [exact O2 | exact C2]).
    + injection P as <- <-. discriminate.
    + destruct (handle_content_conserved st c I F0) as [O1 C1].
      destruct (handle_content m st c) as [s' o']. injection P as <- <-.
      cbn [fst snd] in O1, C1. split; [now rewrite O1, O2|].
      rewrite <- app_assoc, C2. cbn [app concat].
      rewrite !app_assoc. f_equal. rewrite <- !app_assoc. exact C1.
Qed.

(** X13.  Cutting the upstream text into chunks at other places changes
    nothing: the frames sent for two lists of chunks that hold the same
    text are the same. *)
Theorem run_stream_rechunk (k : nat) (chunks chunks' : list jsstring) :
  concat chunks = concat chunks' ->
  run_stream m k chunks = run_stream m k chunks'.
Proof. intro E. rewrite !run_stream_lines. now rewrite E. Qed.

(** X14.  After any chunks, the state of the transformer is as follows:
    the line buffer holds no line feed, and until the sentinel has been
    read, either it is buffering, the content buffer starts with
    [TC_START] and no text is pending, or it is not buffering, the content
    buffer is empty and the pending text holds no [TC_START]. *)
Theorem transformer_state_invariant (k : nat) (chunks : list jsstring)
  (st : stream_state) (out : list sse_out) :
  generated m ->
  write_all m (initial_state k) chunks = Some (st, out) ->
  stream_inv m st.
Proof.
  intros G E. apply generated_wf in G.
  exact (write_all_inv m chunks _ _ _ (initial_state_inv k G) E).
Qed.

(** X15.  Until the sentinel has been read no text is lost or made up:
    the frames sent so far are content deltas only, and their text
    followed by the text held back ([pendingText], then [contentBuffer])
    is the text of the [delta.content] strings of the complete lines read
    so far. *)
Theorem transformer_conserves_text (k : nat) (chunks : list jsstring)
  (st : stream_state) (out : list sse_out) :
  generated m ->
  write_all m (initial_state k) chunks = Some (st, out) ->
  streamEnded st = false ->
  map observe out = map EvText (content_deltas out)
  /\ concat (content_deltas out) ++ pendingText st ++ contentBuffer st
     = concat (upstream_contents (removelast (split LF (concat chunks)))).
Proof.
  intros G E F. apply generated_wf in G.
  rewrite write_all_lines in E by (simpl; tauto). simpl app in E.
  destruct (process_lines m (initial_state k) _) as [[s o]|] eqn:P; [|discriminate].
  injection E as <- <-.
  apply (process_lines_conserved _ _ _ _ (initial_state_inv k G) P F).
Qed.

End StreamConservation.

Lemma run_stream_rechunk_witness :
  @run_stream sample_host sample_markers 0 sample_stream
  = @run_stream sample_host sample_markers 0 recut_stream.
Proof.
  apply (@run_stream_rechunk sample_host sample_markers 0 sample_stream recut_stream).
  vm_compute. reflexivity.
Defined.

Lemma transformer_state_invariant_witness :
  stream_inv sample_markers (fst sample_partial).
Proof.
  apply (@transformer_state_invariant sample_host sample_markers 0
           (firstn 3 sample_stream) (fst sample_partial) (snd sample_partial)).
  - exact sample_generated.
  - vm_compute. reflexivity.
Defined.

Lemma transformer_conserves_text_witness :
  map observe (snd sample_partial)
  = map EvText (content_deltas (snd sample_partial))
  /\ concat (content_deltas (snd sample_partial))
     ++ pendingText (fst sample_partial) ++ contentBuffer (fst sample_partial)
     = concat (@upstream_contents sample_host
                 (removelast (split LF (concat (firstn 3 sample_stream))))).
Proof.
  apply (@transformer_conserves_text sample_host sample_markers 0
           (firstn 3 sample_stream) (fst sample_partial) (snd sample_partial)).
  - exact sample_generated.
  - vm_compute. reflexivity.
  - vm_compute. reflexivity.
Defined.

(** ** A stream with a block *)

Section StreamBlock.
Context `{Host}.
Variable m : markers.
Hypothesis WF : markers_wf m = true.
Variables (block block_tail : jsstring).
Hypothesis block_start : block = TC_START m ++ block_tail.

Lemma settle_buffered (st : stream_state) :
  pendingText st = [] -> contentBuffer st = block ->
  map observe (snd (settle m st)) = closing_events m block.
Proof.
  intros P C. rewrite settle_observed. unfold settle_events.
  rewrite P, C, (block_nonempty m WF block block_tail block_start).
  reflexivity.
Qed.

(** Inside the block everything is buffered until the end, where the
    block is parsed as a whole. *)
Lemma stream_buffered (ls : list jsstring) (st : stream_state) :
  ls <> [] -> wf_lines ls = true ->
  isBuffering st = true -> streamEnded st = false -> pendingText st = [] ->
  contentBuffer st ++ concat (upstream_contents ls) = block ->
  exists outs, run_lines m st ls = Some outs /\ map observe outs = closing_events m block.
Proof.
  revert st; induction ls as [|l ls IH]; intros st N W B E P C; [contradiction|].
  unfold upstream_contents in *. cbn [flat_map] in *. cbn [wf_lines] in W.
  destruct ls as [|next rest].
  - rewrite run_lines_last by assumption. cbn [flat_map] in *.
    destruct (classify l) as [| | |c|]; try discriminate.
    + simpl in C. rewrite app_nil_r in C.
      eexists. split; [reflexivity | now apply settle_buffered].
    + simpl in C. rewrite app_nil_r in C.
      eexists. split; [reflexivity | now apply settle_buffered].
    + simpl in C. rewrite app_nil_r in C.
      destruct (handle_content_buffering m st c B) as (s & -> & Bs & Es & Ps & Cs).
      eexists. split; [reflexivity|]. cbn [fst snd app].
      apply settle_buffered; congruence.
  - rewrite run_lines_cons, processLine_classify.
    destruct (classify l) as [| | |c|]; try discriminate.
    + destruct (IH st) as (outs & -> & T); try assumption; [discriminate|].
      exists outs. split; [reflexivity | exact T].
    + rewrite run_lines_ended; [|discriminate|reflexivity|exact W].
      fold (upstream_contents (next :: rest)) in C.
      rewrite (upstream_contents_blank _ W) in C. simpl in C.
      rewrite app_nil_r in C.
      eexists. split; [reflexivity|]. rewrite app_nil_r. now apply settle_buffered.
    + destruct (IH st) as (outs & -> & T); try assumption; [discriminate|].
      exists outs. split; [reflexivity | exact T].
    + set (R := flat_map _ (next :: rest)) in *.
      change (concat ([c] ++ R)) with (c ++ concat R) in *.
      rewrite app_assoc in C.
      destruct (handle_content_buffering m st c B) as (s & -> & Bs & Es & Ps & Cs).
      destruct (IH s) as (outs & -> & T); try congruence.
      exists outs. split; [reflexivity | exact T].
Qed.

(** Before the block the text is passed on (held back while it may be the
    start of a marker), then the block opens. *)
Lemma stream_leading (ls : list jsstring) (st : stream_state) (p : jsstring) :
  ls <> [] -> wf_lines ls = true ->
  isBuffering st = false -> contentBuffer st = [] -> streamEnded st = false ->
  indexOf (TC_START m) (pendingText st) = None ->
  pendingText st ++ concat (upstream_contents ls) = p ++ block ->
  indexOf (TC_START m) p = None ->
  exists outs texts,
    run_lines m st ls = Some outs
    /\ map observe outs = map EvText texts ++ closing_events m block
    /\ concat texts = p.
Proof.
  pose proof (block_found m WF block block_tail block_start) as Found.
  pose proof (block_not_hidden m WF block block_tail block_start) as Hidden.
  destruct (wf_parts m WF) as (U & _ & _ & S & _).
  revert st p; induction ls as [|l ls IH]; intros st p N W B C E Np Q Pp;
    [contradiction|].
  unfold upstream_contents in *. cbn [flat_map] in *. cbn [wf_lines] in W.
  destruct ls as [|next rest].
  - rewrite run_lines_last by assumption. cbn [flat_map] in *.
    destruct (classify l) as [| | |c|]; try discriminate;
      try (simpl in Q; rewrite app_nil_r in Q; now elim (Hidden _ _ Np Pp)).
    simpl in Q. rewrite app_nil_r in Q.
    destruct (indexOf (TC_START m) (pendingText st ++ c)) as [idx|] eqn:F;
      [|now elim (Hidden _ _ F Pp)].
    destruct (handle_content_found m st c idx B F)
      as (s & o & -> & Bs & Cs & Ps & Es & O & T).
    rewrite <- (app_nil_r (pendingText st ++ c)) in Q.
    destruct (Found _ _ _ _ F Q Pp) as [Fp Fb]. rewrite app_nil_r in Fb.
    exists (o ++ snd (settle m s)), (content_deltas o).
    split; [reflexivity|]. cbn [fst snd]. rewrite map_app, O.
    rewrite settle_buffered by congruence. split; [reflexivity | congruence].
  - rewrite run_lines_cons, processLine_classify.
    destruct (classify l) as [| | |c|]; try discriminate.
    + destruct (IH st p) as (outs & texts & -> & T); try assumption;
        [discriminate|].
      exists outs, texts. split; [reflexivity | exact T].
    + fold (upstream_contents (next :: rest)) in Q.
      rewrite (upstream_contents_blank _ W) in Q. simpl in Q.
      rewrite app_nil_r in Q. now elim (Hidden _ _ Np Pp).
    + destruct (IH st p) as (outs & texts & -> & T); try assumption;
        [discriminate|].
      exists outs, texts. split; [reflexivity | exact T].
    + set (R := flat_map _ (next :: rest)) in *.
      change (concat ([c] ++ R)) with (c ++ concat R) in *.
      rewrite app_assoc in Q.
      destruct (indexOf (TC_START m) (pendingText st ++ c)) as [idx|] eqn:F.
      * destruct (handle_content_found m st c idx B F)
          as (s & o & -> & Bs & Cs & Ps & Es & O & T).
        destruct (Found _ _ _ _ F Q Pp) as [Fp Fb].
        rewrite <- Cs in Fb. rewrite E in Es.
        destruct (stream_buffered (next :: rest) s ltac:(discriminate) W Bs Es Ps Fb)
          as (outs & -> & Ob).
        exists (o ++ outs), (content_deltas o).
        split; [reflexivity|]. rewrite map_app, O, Ob.
        split; [reflexivity | congruence].
      * destruct (handle_content_quiet m st c B F)
          as (s & o & -> & Bs & Cs & Es & O & D).
        rewrite C in Cs. rewrite E in Es.
        destruct D as [[Ps ->] | (Ps & T & I)].
        -- rewrite <- Ps in F, Q.
           destruct (IH s p ltac:(discriminate) W Bs Cs Es F Q Pp)
             as (outs & texts & -> & Ot).
           exists outs, texts. split; [reflexivity | exact Ot].
        -- assert (exists x e, block = x :: e
                               /\ char_at0 (TC_START m) = [x]) as (x & e & Bx & Cx).
           { rewrite block_start. destruct (TC_START m) as [|x s']; [discriminate|].
             exists x, (s' ++ block_tail). split; reflexivity. }
           rewrite Cx in I. apply includes_unit in I. rewrite Bx in Q.
           destruct (split_before_unit _ _ _ _ _ I Q) as (p' & -> & Q').
           rewrite <- Bx in Q'.
           assert (indexOf (TC_START m) (pendingText s) = None) as Ns
             by (rewrite Ps; destruct (TC_START m); [discriminate | reflexivity]).
           assert (pendingText s ++ concat R = p' ++ block) as Qs
             by (rewrite Ps; exact Q').
           destruct (IH s p' ltac:(discriminate) W Bs Cs Es Ns Qs
                       (indexOf_None_app_r _ _ _ Pp))
             as (outs & texts & -> & Ot & Ct).
           exists (o ++ outs), (content_deltas o ++ texts).
           split; [reflexivity|]. rewrite !map_app, O, Ot, <- app_assoc.
           split; [reflexivity|]. rewrite concat_app, T, Ct. reflexivity.
Qed.

End StreamBlock.

Section StreamBlockTheorems.
Context `{Host}.

Lemma stream_block_events (m : markers) (k : nat) (chunks : list jsstring)
  (p rest : jsstring) :
  markers_wf m = true ->
  wf_stream chunks = true ->
  upstream_text chunks = p ++ TC_START m ++ rest ->
  plain m p = true ->
  exists outs texts,
    run_stream m k chunks = Some outs
    /\ map observe outs
       = map EvText texts
         ++ block_events
              (map function_of (fst (parse m 0 (TC_START m ++ rest))))
              (snd (parse m 0 (TC_START m ++ rest)))
         ++ [EvDone]
    /\ concat texts = p.
Proof.
  intros WF W T P. apply plain_spec in P. rewrite run_stream_lines.
  apply (stream_leading m WF (TC_START m ++ rest) rest eq_refl
           (split LF (concat chunks)) (initial_state k) p); auto.
  - apply split_nonempty.
  - simpl. destruct (wf_parts m WF) as (_ & _ & _ & S & _).
    destruct (TC_START m); [discriminate | reflexivity].
Qed.

(** X16.  A well-formed stream whose text holds [TC_START]: the client
    gets the text before the first [TC_START] in content deltas, then
    what [parse] makes of everything from that [TC_START] on, taken as a
    whole: its residual text if any, its calls numbered from 0, one finish
    chunk, with reason [tool_calls] if there is a call and [stop] if
    none, and the sentinel. *)
Theorem stream_block_parsed (m : markers) (k : nat) (chunks : list jsstring)
  (p rest : jsstring) :
  generated m ->
  wf_stream chunks = true ->
  upstream_text chunks = p ++ TC_START m ++ rest ->
  plain m p = true ->
  exists outs texts,
    run_stream m k chunks = Some outs
    /\ map observe outs
       = map EvText texts
         ++ block_events
              (map function_of (fst (parse m 0 (TC_START m ++ rest))))
              (snd (parse m 0 (TC_START m ++ rest)))
         ++ [EvDone]
    /\ concat texts = p.
Proof. intros G. apply stream_block_events. now apply generated_wf. Qed.

End StreamBlockTheorems.

Lemma trim_solid_head (c : N) (t : jsstring) :
  is_space c = false -> trim (c :: t) = c :: trimEnd t.
Proof.
  intro S. unfold trim. rewrite (trimStart_solid c t S).
  now apply trimEnd_solid_head.
Qed.

Lemma includes_unit_false (x : N) (t : jsstring) :
  ~ In x t -> includes [x] t = false.
Proof.
  unfold includes. induction t as [|c t IH]; intro N; [reflexivity|].
  simpl. destruct (N.eqb x c) eqn:X.
  - apply N.eqb_eq in X. subst c. elim N. now left.
  - simpl. destruct (indexOf [x] t) eqn:I; [|reflexivity].
    assert (~ In x t) as N' by (intro; apply N; now right).
    specialize (IH N'). discriminate.
Qed.

Lemma indexOf_without_head (x : N) (s t : jsstring) :
  ~ In x t -> indexOf (x :: s) t = None.
Proof.
  induction t as [|c t IH]; intro N; [reflexivity|].
  simpl. destruct (N.eqb x c) eqn:X.
  - apply N.eqb_eq in X. subst c. elim N. now left.
  - simpl. rewrite IH; [reflexivity|]. intro; apply N; now right.
Qed.

Section StreamShapes.
Context `{Host}.
Variable m : markers.
Hypothesis G : generated m.

Lemma settle_plain (st : stream_state) :
  contentBuffer st = [] ->
  map observe (snd (settle m st))
  = text_event (pendingText st) ++ [EvFinish (lit "stop"); EvDone].
Proof.
  intro C. rewrite settle_observed. unfold settle_events. now rewrite C.
Qed.

Lemma text_event_texts (t : jsstring) :
  exists texts, text_event t = map EvText texts /\ concat texts = t.
Proof.
  destruct t as [|c t]; [now exists []|].
  exists [c :: t]. simpl. now rewrite app_nil_r.
Qed.

(** Without the marker: text deltas, a [stop] finish, the sentinel. *)
Lemma stream_quiet (ls : list jsstring) (st : stream_state) :
  ls <> [] -> wf_lines ls = true ->
  isBuffering st = false -> contentBuffer st = [] -> streamEnded st = false ->
  indexOf (TC_START m) (pendingText st ++ concat (upstream_contents ls)) = None ->
  exists outs texts,
    run_lines m st ls = Some outs
    /\ map observe outs = map EvText texts ++ [EvFinish (lit "stop"); EvDone]
    /\ concat texts = pendingText st ++ concat (upstream_contents ls).
Proof.
  revert st; induction ls as [|l ls IH]; intros st N W B C E F; [contradiction|].
  unfold upstream_contents in *. cbn [flat_map] in *. cbn [wf_lines] in W.
  destruct ls as [|next rest].
  - rewrite run_lines_last by assumption. cbn [flat_map] in *.
    destruct (classify l) as [| | |c|]; try discriminate.
    + destruct (text_event_texts (pendingText st)) as (texts & T1 & T2).
      exists (snd (settle m st)), texts. split; [reflexivity|].
      rewrite (settle_plain st C), T1. simpl. now rewrite app_nil_r.
    + destruct (text_event_texts (pendingText st)) as (texts & T1 & T2).
      exists (snd (settle m st)), texts. split; [reflexivity|].
      rewrite (settle_plain st C), T1. simpl. now rewrite app_nil_r.
    + simpl in F. rewrite app_nil_r in F. simpl. rewrite app_nil_r.
      destruct (handle_content_quiet m st c B F)
        as (s & o & -> & Bs & Cs & Es & O & D).
      rewrite C in Cs. cbn [fst snd].
      destruct (text_event_texts (pendingText s)) as (texts & T1 & T2).
      exists (o ++ snd (settle m s)), (content_deltas o ++ texts).
      split; [reflexivity|].
      rewrite !map_app, O, (settle_plain s Cs), T1, <- app_assoc.
      split; [reflexivity|]. rewrite concat_app, T2.
      destruct D as [[-> ->] | (-> & D & _)]; [reflexivity|].
      now rewrite app_nil_r.
  - rewrite run_lines_cons, processLine_classify.
    destruct (classify l) as [| | |c|]; try discriminate.
    + destruct (IH st) as (outs & texts & -> & T); try assumption; [discriminate|].
      exists outs, texts. split; [reflexivity | exact T].
    + rewrite run_lines_ended; [|discriminate|reflexivity|exact W].
      fold (upstream_contents (next :: rest)).
      rewrite (upstream_contents_blank _ W).
      destruct (text_event_texts (pendingText st)) as (texts & T1 & T2).
      exists (snd (settle m st) ++ []), texts. split; [reflexivity|].
      rewrite app_nil_r, (settle_plain st C), T1. simpl. now rewrite app_nil_r.
    + destruct (IH st) as (outs & texts & -> & T); try assumption; [discriminate|].
      exists outs, texts. split; [reflexivity | exact T].
    + set (R := flat_map _ (next :: rest)) in *.
      change (concat ([c] ++ R)) with (c ++ concat R) in *.
      rewrite app_assoc in F. rewrite app_assoc.
      destruct (handle_content_quiet m st c B (indexOf_None_app_l _ _ _ F))
        as (s & o & -> & Bs & Cs & Es & O & D).
      rewrite C in Cs. rewrite E in Es.
      destruct (IH s) as (outs & texts & -> & Ot & Ct); try assumption;
        [discriminate | |].
      * destruct D as [[-> _] | (-> & _ & _)]; [exact F|].
        exact (indexOf_None_app_r _ _ _ F).
      * exists (o ++ outs), (content_deltas o ++ texts).
        split; [reflexivity|]. rewrite map_app, O, Ot, map_app, <- app_assoc.
        split; [reflexivity|]. rewrite concat_app, Ct.
        destruct D as [[-> ->] | (-> & D & _)]; [reflexivity|].
        now rewrite D.
Qed.

(** Without the first unit of the marker: one delta for one. *)
Lemma stream_forwarded (ls : list jsstring) (st : stream_state) :
  ls <> [] -> wf_lines ls = true ->
  isBuffering st = false -> contentBuffer st = [] -> streamEnded st = false ->
  pendingText st = [] ->
  includes (char_at0 (TC_START m)) (concat (upstream_contents ls)) = false ->
  exists outs,
    run_lines m st ls = Some outs
    /\ map observe outs
       = flat_map text_event (upstream_contents ls)
         ++ [EvFinish (lit "stop"); EvDone].
Proof.
  pose proof (generated_wf m G) as WF.
  destruct (wf_parts m WF) as (_ & _ & _ & S & _).
  destruct (TC_START m) as [|x s'] eqn:Sx; [discriminate|]. clear S.
  change (char_at0 (x :: s')) with [x].
  assert (forall st c, isBuffering st = false -> pendingText st = [] ->
            ~ In x c ->
            exists s o, handle_content m st c = (s, o)
              /\ isBuffering s = false /\ contentBuffer s = contentBuffer st
              /\ streamEnded s = streamEnded st /\ pendingText s = []
              /\ map observe o = text_event c) as Step.
  { intros s0 c B P N. unfold handle_content. rewrite B, P, Sx. simpl app.
    rewrite (indexOf_without_head x s' c N).
    change (char_at0 (x :: s')) with [x]. rewrite (includes_unit_false x c N).
    pose proof (push_text_observed (ticks s0) c) as O.
    destruct (push_text (ticks s0) c) as [k o]. eexists _, _.
    split; [reflexivity|]. simpl. auto. }
  revert st; induction ls as [|l ls IH]; intros st N W B C E P F; [contradiction|].
  unfold upstream_contents in *. cbn [flat_map] in *. cbn [wf_lines] in W.
  destruct ls as [|next rest].
  - rewrite run_lines_last by assumption. cbn [flat_map] in *.
    destruct (classify l) as [| | |c|]; try discriminate.
    + eexists. split; [reflexivity|]. rewrite (settle_plain st C), P. reflexivity.
    + eexists. split; [reflexivity|]. rewrite (settle_plain st C), P. reflexivity.
    + simpl in F. rewrite app_nil_r in F. apply includes_unit in F.
      destruct (Step st c B P F) as (s & o & -> & Bs & Cs & Es & Ps & O).
      rewrite C in Cs. cbn [fst snd]. eexists. split; [reflexivity|].
      rewrite map_app, O, (settle_plain s Cs), Ps. simpl. now rewrite app_nil_r.
  - rewrite run_lines_cons, processLine_classify.
    destruct (classify l) as [| | |c|]; try discriminate.
    + destruct (IH st) as (outs & -> & T); try assumption; [discriminate|].
      exists outs. split; [reflexivity | exact T].
    + rewrite run_lines_ended; [|discriminate|reflexivity|exact W].
      fold (upstream_contents (next :: rest)).
      rewrite (upstream_contents_blank _ W).
      eexists. split; [reflexivity|].
      rewrite app_nil_r, (settle_plain st C), P. reflexivity.
    + destruct (IH st) as (outs & -> & T); try assumption; [discriminate|].
      exists outs. split; [reflexivity | exact T].
    + set (R := flat_map _ (next :: rest)) in *.
      change (concat ([c] ++ R)) with (c ++ concat R) in *.
      apply includes_unit in F.
      assert (~ In x c) as Fc by (intro I; apply F; apply in_or_app; now left).
      assert (~ In x (concat R)) as Fr
        by (intro I; apply F; apply in_or_app; now right).
      destruct (Step st c B P Fc) as (s & o & -> & Bs & Cs & Es & Ps & O).
      rewrite C in Cs. rewrite E in Es.
      destruct (IH s ltac:(discriminate) W Bs Cs Es Ps
                  (includes_unit_false _ _ Fr)) as (outs & -> & Ot).
      eexists. split; [reflexivity|]. rewrite map_app, O, Ot.
      cbn [app flat_map]. now rewrite <- app_assoc.
Qed.

(** X17.  A well-formed stream whose text holds no [TC_START]: the client
    gets content deltas whose text is the upstream text, then one finish
    chunk with reason [stop], then the sentinel, and nothing else. *)
Theorem stream_plain_events (k : nat) (chunks : list jsstring) :
  wf_stream chunks = true ->
  plain m (upstream_text chunks) = true ->
  exists outs texts,
    run_stream m k chunks = Some outs
    /\ map observe outs = map EvText texts ++ [EvFinish (lit "stop"); EvDone]
    /\ concat texts = upstream_text chunks.
Proof.
  intros W P. apply plain_spec in P. rewrite run_stream_lines.
  apply (stream_quiet (split LF (concat chunks)) (initial_state k)); auto.
  apply split_nonempty.
Qed.

(** X18.  A well-formed stream whose text does not hold the first unit
    of [TC_START]: nothing is held back or regrouped.  Every
    [delta.content] that is not empty gives one content delta with the
    same text, in order; then come the [stop] finish and the sentinel. *)
Theorem stream_forwarded_as_is (k : nat) (chunks : list jsstring) :
  wf_stream chunks = true ->
  includes (char_at0 (TC_START m)) (upstream_text chunks) = false ->
  exists outs,
    run_stream m k chunks = Some outs
    /\ map observe outs
       = flat_map text_event (upstream_contents (split LF (concat chunks)))
         ++ [EvFinish (lit "stop"); EvDone].
Proof.
  intros W P. rewrite run_stream_lines.
  apply (stream_forwarded (split LF (concat chunks)) (initial_state k)); auto.
  apply split_nonempty.
Qed.

(** X19.  A well-formed stream whose text is a part free of [TC_START],
    then well-delimited envelopes with parts free of [TC_START] between
    them, then a last such part: the client gets the first part in
    content deltas, then the other parts, put together and trimmed, in
    one content delta if not empty, then one tool-call delta for each
    envelope whose arguments are JSON, in the order of the text and
    numbered from 0, then one finish chunk, with reason [tool_calls] if
    there is such an envelope and [stop] if none, then the sentinel. *)
Theorem stream_segmented (k : nat) (chunks : list jsstring)
  (p tail : jsstring) (e : envelope_parts)
  (ps : list (jsstring * envelope_parts)) :
  wf_stream chunks = true ->
  upstream_text chunks = blocks_text m ((p, e) :: ps) ++ tail ->
  blocks_ok m ((p, e) :: ps) = true -> plain m tail = true ->
  exists outs texts,
    run_stream m k chunks = Some outs
    /\ map observe outs
       = map EvText texts
         ++ block_events (flat_map envelope_function (e :: map snd ps))
              (trim (concat (map fst ps) ++ tail))
         ++ [EvDone]
    /\ concat texts = p.
Proof.
  pose proof (generated_wf m G) as WF.
  intros W T B P.
  assert (blocks_text m ((p, e) :: ps) ++ tail
          = p ++ blocks_text m (([], e) :: ps) ++ tail) as E.
  { unfold blocks_text. cbn [map concat fst snd app]. now rewrite <- !app_assoc. }
  assert (blocks_ok m (([], e) :: ps) = true) as B'.
  { cbn [blocks_ok forallb fst snd] in *.
    apply andb_true_iff in B as [B1 B2]. apply andb_true_iff in B1 as [_ D].
    rewrite D, B2. unfold plain.
    destruct (wf_parts m WF) as (_ & _ & _ & S & _).
    destruct (TC_START m); [discriminate | reflexivity]. }
  assert (plain m p = true) as Pp.
  { cbn [blocks_ok forallb fst snd] in B.
    apply andb_true_iff in B as [B1 _]. now apply andb_true_iff in B1 as [Pp _]. }
  destruct (parse_blocks m 0 (([], e) :: ps) tail WF B' P) as [F C].
  assert (blocks_text m (([], e) :: ps) ++ tail
          = TC_START m ++ skipn 3 (blocks_text m (([], e) :: ps) ++ tail)) as R.
  { destruct (wf_parts m WF) as (_ & _ & _ & _ & _ & _ & _ & L).
    unfold blocks_text, envelope_text, envelope.
    cbn [map concat fst snd app]. rewrite <- !app_assoc.
    rewrite <- L, skipn_app, skipn_all, Nat.sub_diag. reflexivity. }
  rewrite E, R in T.
  destruct (stream_block_events m k chunks p _ WF W T Pp)
    as (outs & texts & Ro & O & Ct).
  exists outs, texts. split; [exact Ro|]. split; [|exact Ct].
  rewrite O, <- R, F, C. cbn [map fst concat app flat_map snd].
  rewrite !flat_map_concat_map, map_map. reflexivity.
Qed.

(** X20.  A well-formed stream whose text, from the first [TC_START] on,
    lacks one of the markers of an envelope (a block that is never
    closed): nothing is lost.  The client gets the text before the
    [TC_START] in content deltas, then everything from the [TC_START] on,
    trimmed, in one content delta, then the [stop] finish and the
    sentinel. *)
Theorem stream_unclosed (k : nat) (chunks : list jsstring)
  (p rest s : jsstring) :
  wf_stream chunks = true ->
  upstream_text chunks = p ++ TC_START m ++ rest ->
  plain m p = true ->
  In s (envelope_markers m) -> indexOf s (TC_START m ++ rest) = None ->
  exists outs texts,
    run_stream m k chunks = Some outs
    /\ map observe outs
       = map EvText texts
         ++ [EvText (trim (TC_START m ++ rest)); EvFinish (lit "stop"); EvDone]
    /\ concat texts = p.
Proof.
  pose proof (generated_wf m G) as WF.
  intros W T P I N.
  destruct (stream_block_events m k chunks p rest WF W T P)
    as (outs & texts & Ro & O & Ct).
  exists outs, texts. split; [exact Ro|]. split; [|exact Ct].
  rewrite O, (parse_unmatched m 0 _ s I N). cbn [fst snd map].
  unfold block_events. cbn [call_events app].
  destruct (wf_parts m WF) as (_ & _ & _ & S & _).
  destruct (TC_START m) as [|x s']; [discriminate|].
  simpl in S. apply negb_true_iff in S.
  change ((x :: s') ++ rest) with (x :: (s' ++ rest)).
  rewrite (trim_solid_head x _ S). reflexivity.
Qed.

End StreamShapes.

Lemma indexOf_Some_split (p t : jsstring) (k : nat) :
  p <> [] -> indexOf p t = Some k ->
  t = firstn k t ++ p ++ skipn (k + List.length p) t
  /\ indexOf p (firstn k t) = None.
Proof.
  intro Np. revert k; induction t as [|c t IH]; intros k E; simpl in E.
  - destruct p; [contradiction | discriminate].
  - destruct (startsWith p (c :: t)) eqn:St.
    + injection E as <-. apply startsWith_iff in St as [r St]. rewrite St.
      cbn [firstn app Nat.add]. rewrite skipn_app, skipn_all, Nat.sub_diag.
      split; [reflexivity|]. destruct p; [contradiction | reflexivity].
    + destruct (indexOf p t) as [k'|] eqn:I; [|discriminate]. injection E as <-.
      destruct (IH k' eq_refl) as [E1 E2]. cbn [firstn Nat.add skipn].
      split; [simpl; now rewrite <- E1|].
      simpl. rewrite E2.
      destruct (startsWith p (c :: firstn k' t)) eqn:St'; [|reflexivity].
      change (c :: firstn k' t) with (firstn (S k') (c :: t)) in St'.
      apply startsWith_iff in St' as [r St'].
      rewrite <- (firstn_skipn (S k') (c :: t)), St', <- app_assoc in St.
      now rewrite startsWith_app in St.
Qed.

Section StreamEnd.
Context `{Host}.
Variable m : markers.
Hypothesis G : generated m.

Lemma run_stream_shape (k : nat) (chunks : list jsstring) :
  wf_stream chunks = true ->
  exists outs texts fs,
    run_stream m k chunks = Some outs
    /\ map observe outs
       = map EvText texts ++ call_events 0 fs
         ++ [EvFinish (match fs with
                       | [] => lit "stop"
                       | _ :: _ => lit "tool_calls"
                       end); EvDone].
Proof.
  pose proof (generated_wf m G) as WF.
  intro W. destruct (indexOf (TC_START m) (upstream_text chunks)) as [idx|] eqn:F.
  - destruct (wf_parts m WF) as (_ & _ & _ & S & _).
    assert (TC_START m <> []) as Ns by (destruct (TC_START m); discriminate).
    destruct (indexOf_Some_split _ _ _ Ns F) as [E P].
    assert (plain m (firstn idx (upstream_text chunks)) = true) as Pp
      by (unfold plain; now rewrite P).
    destruct (stream_block_events m k chunks _ _ WF W E Pp)
      as (outs & texts & Ro & O & _).
    set (fs := map function_of (fst (parse m 0 _))) in O.
    set (clean := snd (parse m 0 _)) in O.
    destruct (text_event_texts clean) as (texts' & T1 & _).
    exists outs, (texts ++ texts'), fs. split; [exact Ro|].
    rewrite O. unfold block_events. rewrite T1, map_app, <- !app_assoc.
    reflexivity.
  - destruct (stream_quiet m (split LF (concat chunks)) (initial_state k))
      as (outs & texts & Ro & O & _); auto.
    + apply split_nonempty.
    + exists outs, texts, []. rewrite run_stream_lines. now split.
Qed.

(** X21.  Every well-formed stream is answered: the client gets content
    deltas, then tool-call deltas numbered from 0, then one finish chunk,
    whose reason is [tool_calls] if there is a tool-call delta and [stop]
    if none, then the sentinel, and nothing else. *)
Theorem stream_shape (k : nat) (chunks : list jsstring) :
  wf_stream chunks = true ->
  exists outs texts fs,
    run_stream m k chunks = Some outs
    /\ map observe outs
       = map EvText texts ++ call_events 0 fs
         ++ [EvFinish (match fs with
                       | [] => lit "stop"
                       | _ :: _ => lit "tool_calls"
                       end); EvDone].
Proof. apply run_stream_shape. Qed.

Lemma settle_done (st : stream_state) :
  map observe (snd (settle m (done_state m st)))
  = [EvFinish (lit "stop"); EvDone].
Proof. rewrite settle_observed. reflexivity. Qed.

Lemma settle_ends (st : stream_state) :
  exists body, map observe (snd (settle m st)) = body ++ [EvDone].
Proof.
  rewrite settle_observed. unfold settle_events.
  eexists. rewrite app_assoc. reflexivity.
Qed.

Lemma run_lines_unterminated (ls : list jsstring) (st : stream_state)
  (tail : jsstring) :
  streamEnded st = false -> quiet_lines ls = true -> is_sentinel tail = true ->
  exists outs body,
    run_lines m st (ls ++ [tail]) = Some outs
    /\ map observe outs = body ++ [EvDone; EvFinish (lit "stop"); EvDone].
Proof.
  intros E Q T. revert st E; induction ls as [|l ls IH]; intros st E.
  - cbn [app]. rewrite run_lines_last by assumption.
    unfold is_sentinel in T. destruct (classify tail); try discriminate.
    destruct (settle_ends st) as [body B].
    eexists _, body. split; [reflexivity|].
    rewrite map_app, B, settle_done, <- app_assoc. reflexivity.
  - cbn [quiet_lines forallb] in Q. apply andb_true_iff in Q as [Q1 Q2].
    apply andb_true_iff in Q1 as [Q1 Q1'].
    specialize (IH Q2). cbn [app].
    destruct (ls ++ [tail]) as [|next rest] eqn:L;
      [now destruct ls|].
    rewrite run_lines_cons, processLine_classify.
    unfold is_sentinel, is_throwing in Q1, Q1'.
    destruct (classify l) as [| | |c|]; try discriminate.
    + destruct (IH st E) as (outs & body & -> & O).
      now exists outs, body.
    + destruct (IH st E) as (outs & body & -> & O).
      now exists outs, body.
    + destruct (handle_content_fields m st c) as [_ Ef].
      destruct (handle_content m st c) as [s o]. cbn [fst] in Ef.
      rewrite E in Ef.
      destruct (IH s Ef) as (outs & body & -> & O).
      exists (o ++ outs), (map observe o ++ body). split; [reflexivity|].
      now rewrite map_app, O, <- app_assoc.
Qed.

(** X22.  When the upstream text ends with the sentinel line and no line
    feed after it, the sentinel is answered twice: [processLine] settles
    the stream on the sentinel that [flush] finds in the line buffer, and
    [flush] settles it again.  The client gets the sentinel, then a second
    finish chunk with reason [stop] and a second sentinel. *)
Theorem stream_unterminated_sentinel (k : nat) (chunks : list jsstring) :
  quiet_lines (removelast (split LF (concat chunks))) = true ->
  is_sentinel (last (split LF (concat chunks)) []) = true ->
  exists outs body,
    run_stream m k chunks = Some outs
    /\ map observe outs = body ++ [EvDone; EvFinish (lit "stop"); EvDone].
Proof.
  intros Q T. rewrite run_stream_lines.
  rewrite (app_removelast_last [] (split_nonempty LF (concat chunks))).
  now apply run_lines_unterminated.
Qed.

End StreamEnd.

Lemma stream_block_parsed_witness :
  exists outs texts,
    @run_stream sample_host sample_markers 0 mixed_stream = Some outs
    /\ map observe outs
       = map EvText texts
         ++ block_events
              (map function_of
                 (fst (@parse sample_host sample_markers 0
                         (TC_START sample_markers
                          ++ skipn 9 (@upstream_text sample_host mixed_stream)))))
              (snd (@parse sample_host sample_markers 0
                      (TC_START sample_markers
                       ++ skipn 9 (@upstream_text sample_host mixed_stream))))
         ++ [EvDone]
    /\ concat texts = lit "Sure." ++ [LF].
Proof.
  apply (@stream_block_parsed sample_host sample_markers 0 mixed_stream
           (lit "Sure." ++ [LF])
           (skipn 9 (@upstream_text sample_host mixed_stream))).
  - exact sample_generated.
  - vm_compute. reflexivity.
  - vm_compute. reflexivity.
  - vm_compute. reflexivity.
Defined.

Lemma stream_plain_events_witness :
  exists outs texts,
    @run_stream sample_host sample_markers 0 plain_stream = Some outs
    /\ map observe outs = map EvText texts ++ [EvFinish (lit "stop"); EvDone]
    /\ concat texts = @upstream_text sample_host plain_stream.
Proof.
  apply (@stream_plain_events sample_host sample_markers 0 plain_stream).
  - vm_compute. reflexivity.
  - vm_compute. reflexivity.
Defined.

Lemma stream_forwarded_as_is_witness :
  exists outs,
    @run_stream sample_host sample_markers 0 simple_stream = Some outs
    /\ map observe outs
       = flat_map text_event
           (@upstream_contents sample_host (split LF (concat simple_stream)))
         ++ [EvFinish (lit "stop"); EvDone].
Proof.
  apply (@stream_forwarded_as_is sample_host sample_markers sample_generated 0
           simple_stream).
  - vm_compute. reflexivity.
  - vm_compute. reflexivity.
Defined.

Lemma stream_segmented_witness :
  exists outs texts,
    @run_stream sample_host sample_markers 0 mixed_stream = Some outs
    /\ map observe outs
       = map EvText texts
         ++ block_events
              (flat_map envelope_function
                 (sample_envelope " add " sample_args
                  :: map snd (tl mixed_blocks)))
              (trim (concat (map fst (tl mixed_blocks)) ++ lit " end "))
         ++ [EvDone]
    /\ concat texts = lit "Sure." ++ [LF].
Proof.
  apply (@stream_segmented sample_host sample_markers sample_generated 0 mixed_stream
           (lit "Sure." ++ [LF]) (lit " end ")
           (sample_envelope " add " sample_args) (tl mixed_blocks)).
  - vm_compute. reflexivity.
  - vm_compute. reflexivity.
  - vm_compute. reflexivity.
  - vm_compute. reflexivity.
Defined.

Lemma stream_unclosed_witness :
  exists outs texts,
    @run_stream sample_host sample_markers 0 unclosed_stream = Some outs
    /\ map observe outs
       = map EvText texts
         ++ [EvText (trim (TC_START sample_markers
                           ++ skipn 15 (@upstream_text sample_host
                                          unclosed_stream)));
             EvFinish (lit "stop"); EvDone]
    /\ concat texts = lit "Let me see. ".
Proof.
  apply (@stream_unclosed sample_host sample_markers sample_generated 0 unclosed_stream
           (lit "Let me see. ")
           (skipn 15 (@upstream_text sample_host unclosed_stream))
           (TC_END sample_markers)).
  - vm_compute. reflexivity.
  - vm_compute. reflexivity.
  - vm_compute. reflexivity.
  - simpl. auto 10.
  - vm_compute. reflexivity.
Defined.

Lemma stream_shape_witness :
  exists outs texts fs,
    @run_stream sample_host sample_markers 0 mixed_stream = Some outs
    /\ map observe outs
       = map EvText texts ++ call_events 0 fs
         ++ [EvFinish (match fs with
                       | [] => lit "stop"
                       | _ :: _ => lit "tool_calls"
                       end); EvDone].
Proof.
  apply (@stream_shape sample_host sample_markers sample_generated 0 mixed_stream).
  vm_compute. reflexivity.
Defined.

Lemma stream_unterminated_sentinel_witness :
  exists outs body,
    @run_stream sample_host sample_markers 0 unterminated_stream = Some outs
    /\ map observe outs = body ++ [EvDone; EvFinish (lit "stop"); EvDone].
Proof.
  apply (@stream_unterminated_sentinel sample_host sample_markers 0
           unterminated_stream).
  - vm_compute. reflexivity.
  - vm_compute. reflexivity.
Defined.

(** ** Further properties of the HTTP edge *)

Lemma private_range_exact (a b c d : N) :
  private_range (dotted a b c d) = None <-> ~ in_private_range a b.
Proof.
  unfold private_range, in_private_range. rewrite split_dotted. simpl map.
  rewrite !Number_of_dec. cbn [List.length Nat.eqb nth num_is num_between].
  destruct (N.eqb_spec a 10); [split; [discriminate | tauto]|].
  destruct (N.eqb_spec a 172).
  - subst a. cbn [andb].
    destruct (N.leb_spec 16 b); destruct (N.leb_spec b 31); cbn [andb];
      try (split; [discriminate | intro R; elim R; right; left; lia]);
      (split; [intros _ R; lia | reflexivity]).
  - cbn [andb]. destruct (N.eqb_spec a 192).
    + subst a. destruct (N.eqb_spec b 168); cbn [andb].
      * split; [discriminate | tauto].
      * split; [intros _ R; lia | reflexivity].
    + cbn [andb]. destruct (N.eqb_spec a 127).
      * split; [discriminate | tauto].
      * split; [intros _ R; lia | reflexivity].
Qed.

Section EdgeExtras.
Context `{Host} `{Network}.

(** X23.  [extractUpstream] answers with the request path without its
    first slash, and only for a path that is a slash, then [http://] or
    [https://], then at least one unit, with no line terminator after the
    scheme. *)
Theorem extractUpstream_spec (reqUrl u : jsstring) :
  extractUpstream reqUrl = Some u
  <-> reqUrl = lit "/" ++ u
      /\ exists r, (u = lit "https://" ++ r \/ u = lit "http://" ++ r)
                   /\ r <> [] /\ existsb is_line_terminator r = false.
Proof.
  unfold extractUpstream. split.
  - destruct reqUrl as [|c t]; [discriminate|].
    destruct (N.eqb_spec c 47); [|discriminate]. subst c. cbn [negb].
    destruct (strip_prefix (lit "https://") t) as [r|] eqn:P1.
    + apply strip_prefix_Some in P1. destruct r as [|x r]; [discriminate|].
      destruct (existsb is_line_terminator (x :: r)) eqn:L; [discriminate|].
      intro E. injection E as <-. split; [reflexivity|].
      exists (x :: r). split; [now left | split; [discriminate | exact L]].
    + destruct (strip_prefix (lit "http://") t) as [r|] eqn:P2; [|discriminate].
      apply strip_prefix_Some in P2. destruct r as [|x r]; [discriminate|].
      destruct (existsb is_line_terminator (x :: r)) eqn:L; [discriminate|].
      intro E. injection E as <-. split; [reflexivity|].
      exists (x :: r). split; [now right | split; [discriminate | exact L]].
  - intros (-> & r & [-> | ->] & Nr & L); destruct r as [|x r]; try contradiction.
    + change (lit "/" ++ lit "https://" ++ x :: r)
        with (47%N :: (lit "https://" ++ x :: r)).
      cbn [N.eqb Pos.eqb negb]. rewrite strip_prefix_app, L. reflexivity.
    + change (lit "/" ++ lit "http://" ++ x :: r)
        with (47%N :: (lit "http://" ++ x :: r)).
      cbn [N.eqb Pos.eqb negb].
      assert (strip_prefix (lit "https://") (lit "http://" ++ x :: r) = None) as ->.
      { simpl. destruct (N.eqb 115 58) eqn:E; [discriminate | reflexivity]. }
      rewrite strip_prefix_app, L. reflexivity.
Qed.

(** X24.  With [ALLOW_LOCAL_NET] off, an http or https URL whose host is
    not one of the local names and resolves to the IPv4 address
    [a.b.c.d] is valid exactly when the address is outside 10/8,
    172.16/12, 192.168/16 and 127/8. *)
Theorem validateUpstream_ipv4 (u : jsstring) (parsed : parsed_url)
  (a b c d : N) :
  u <> [] ->
  URL_parse u = Some parsed ->
  In (protocol parsed) [lit "http:"; lit "https:"] ->
  ~ In (hostname parsed)
      [lit "localhost"; lit "127.0.0.1"; lit "::1"; lit "0.0.0.0"] ->
  dns_lookup (hostname parsed) = Some (dotted a b c d) ->
  validateUpstream false (Some u) = Valid <-> ~ in_private_range a b.
Proof.
  intros Nu P S L D. unfold validateUpstream.
  destruct u as [|x u]; [contradiction|]. rewrite P.
  apply one_of_In in S. rewrite S. cbn [negb].
  match goal with
  | |- context [one_of (hostname parsed) ?l] =>
      destruct (one_of (hostname parsed) l) eqn:O
  end.
  - apply one_of_In in O. contradiction.
  - rewrite D, <- (private_range_exact a b c d).
    destruct (private_range (dotted a b c d)); split; intro I;
      try discriminate; reflexivity.
Qed.

(** X25.  A valid request that declares no tools, or whose path is not a
    chat completion, is answered with what the upstream answers, as it is,
    provided that [transformRequest], when the handler calls it (a chat
    completion with a tool history), returns; if moreover its messages
    hold no tool call and no tool result, or its path is not a chat
    completion, its body goes upstream as it is.  There is one call, to
    the URL of the path, with the method of the request. *)
Theorem handleRequest_transparent (m : markers) (allow : bool)
  (req : http_request) (u : jsstring) :
  extractUpstream (originalUrl req) = Some u ->
  validateUpstream allow (Some u) = Valid ->
  includes (lit "/chat/completions") u = false
  \/ declares_no_tools (body req) = true ->
  (includes (lit "/chat/completions") u
   && has_tool_history (req_messages (body req)) = true ->
   transformRequest m (body req) false <> None) ->
  exists call,
    handleRequest m allow req = ([call], relayed (is_stream (body req)) (fetch call))
    /\ f_url call = u /\ f_method call = method req
    /\ (includes (lit "/chat/completions") u = false
        \/ has_tool_history (req_messages (body req)) = false ->
        f_body call = relayed_body req).
Proof.
  intros E V T R. unfold handleRequest. rewrite E, V.
  set (hasTools := includes (lit "/chat/completions") u
                  && match req_tools (body req) with
                     | Some (_ :: _) => true
                     | _ => false
                     end).
  assert (hasTools = false) as Ht.
  { unfold hasTools. destruct T as [-> | T]; [reflexivity|].
    unfold declares_no_tools in T.
    destruct (req_tools (body req)) as [[|t ts]|]; try discriminate;
      apply andb_false_r. }
  rewrite Ht, !andb_false_r. cbn [orb].
  destruct (if includes (lit "/chat/completions") u
               && has_tool_history (req_messages (body req))
            then transformRequest m (body req) false
            else Some (body req)) as [body'|] eqn:B.
  2:{ destruct (includes (lit "/chat/completions") u
                && has_tool_history (req_messages (body req)));
        [now elim R | discriminate]. }
  match goal with |- context [fetch ?c] => exists c end.
  split; [|split; [reflexivity | split; [reflexivity|]]].
  - unfold relayed, is_stream.
    destruct (fetch _) as [up|message]; [|reflexivity].
    destruct (up_ok up); cbn [negb]; [|reflexivity].
    destruct (match lookup_last _ _ with Some (JBool true) => true | _ => false end);
      [reflexivity|].
    destruct (up_json up); reflexivity.
  - intro N. unfold relayed_body. cbn [f_body].
    assert (includes (lit "/chat/completions") u
            && has_tool_history (req_messages (body req)) = false) as F
      by (destruct N as [-> | ->]; [reflexivity | apply andb_false_r]).
    rewrite F in B. now injection B as <-.
Qed.

(** X26.  A valid chat-completion request that declares tools and asks
    for a stream, whose body [transformRequest] rewrites without throwing,
    answered by an upstream whose stream is well formed, gets a stream of
    content deltas, then tool-call deltas numbered from 0, then one finish
    chunk, whose reason is [tool_calls] if there is a tool-call delta and
    [stop] if none, then the sentinel. *)
Theorem handleRequest_stream (m : markers) (allow : bool) (req : http_request)
  (u : jsstring) (tool : tool_spec) (tools : list tool_spec)
  (up : upstream_response) :
  generated m ->
  extractUpstream (originalUrl req) = Some u ->
  validateUpstream allow (Some u) = Valid ->
  includes (lit "/chat/completions") u = true ->
  req_tools (body req) = Some (tool :: tools) ->
  is_stream (body req) = true ->
  transformRequest m (body req) true <> None ->
  (forall call, fetch call = inl up) ->
  up_ok up = true ->
  wf_stream (up_chunks up) = true ->
  exists outs texts fs,
    snd (handleRequest m allow req) = RespEvents outs
    /\ map observe outs
       = map EvText texts ++ call_events 0 fs
         ++ [EvFinish (match fs with
                       | [] => lit "stop"
                       | _ :: _ => lit "tool_calls"
                       end); EvDone].
Proof.
  intros G E V C T S N F O W.
  destruct (run_stream_shape m G 0 (up_chunks up) W) as (outs & texts & fs & R & Ob).
  exists outs, texts, fs. split; [|exact Ob].
  unfold handleRequest. unfold is_stream in S.
  rewrite E, V, C, T, S. cbn [andb orb negb].
  destruct (transformRequest m (body req) true) as [body'|]; [|now elim N].
  rewrite F, O. cbn [andb negb]. now rewrite R.
Qed.

End EdgeExtras.

Lemma validateUpstream_ipv4_witness :
  let net := sample_network "https:" "api.example.com"
               (Some (lit "172.32.0.1")) sample_answer in
  @validateUpstream net false (Some (lit "https://api.example.com/v1")) = Valid
  <-> ~ in_private_range 172 32.
Proof.
  intro net.
  apply (@validateUpstream_ipv4 net (lit "https://api.example.com/v1")
           {| protocol := lit "https:"; hostname := lit "api.example.com" |}
           172 32 0 1).
  - discriminate.
  - reflexivity.
  - simpl. auto.
  - simpl. intros [E | [E | [E | [E | []]]]]; discriminate.
  - reflexivity.
Defined.

Lemma handleRequest_transparent_witness :
  let net := sample_network "https:" "api.example.com"
               (Some (lit "93.184.216.34")) sample_answer in
  exists call,
    @handleRequest sample_host net sample_markers false embeddings_request
    = ([call], relayed (is_stream (body embeddings_request)) (@fetch net call))
    /\ f_url call = lit "https://api.example.com/v1/embeddings"
    /\ f_method call = method embeddings_request
    /\ (includes (lit "/chat/completions") (lit "https://api.example.com/v1/embeddings")
        = false
        \/ has_tool_history (req_messages (body embeddings_request)) = false ->
        f_body call = relayed_body embeddings_request).
Proof.
  intro net.
  apply (@handleRequest_transparent sample_host net sample_markers false
           embeddings_request (lit "https://api.example.com/v1/embeddings")).
  - reflexivity.
  - vm_compute. reflexivity.
  - left. vm_compute. reflexivity.
  - vm_compute. discriminate.
Defined.

Lemma handleRequest_stream_witness :
  exists outs texts fs,
    snd (@handleRequest sample_host (stream_network mixed_stream) sample_markers
           false stream_http_request)
    = RespEvents outs
    /\ map observe outs
       = map EvText texts ++ call_events 0 fs
         ++ [EvFinish (match fs with
                       | [] => lit "stop"
                       | _ :: _ => lit "tool_calls"
                       end); EvDone].
Proof.
  apply (@handleRequest_stream sample_host (stream_network mixed_stream)
           sample_markers false stream_http_request
           (lit "https://api.example.com/v1/chat/completions") sample_tool []
           {| up_ok := true; up_status := 200; up_text := [];
              up_json := inr (lit "Unexpected token d");
              up_chunks := mixed_stream |}).
  - exact sample_generated.
  - reflexivity.
  - vm_compute. reflexivity.
  - vm_compute. reflexivity.
  - reflexivity.
  - reflexivity.
  - vm_compute. discriminate.
  - reflexivity.
  - reflexivity.
  - vm_compute. reflexivity.
Defined.

(** ** The system prompt *)

Lemma generated_prompt (m : markers) : generated m -> prompt_check m = true.
Proof. apply all_choices_generated. vm_compute. reflexivity. Qed.

Lemma existsb_eqb_false (x : N) (t : jsstring) :
  existsb (N.eqb x) t = false -> ~ In x t.
Proof.
  induction t as [|c t IH]; intros E I; [contradiction|].
  simpl in E. apply orb_false_iff in E as [E1 E2].
  destruct I as [-> | I]; [now rewrite N.eqb_refl in E1 | now apply IH].
Qed.

Section Prompt.
Context `{Host}.

Lemma getSystemPrompt_blocks (m : markers) (tools : list tool_spec) :
  getSystemPrompt m tools
  = blocks_text m
      [ (prompt_head ++ join [LF] (map describe_tool tools) ++ prompt_how,
         prompt_format_block);
        (prompt_between, prompt_example_block) ]
    ++ prompt_rules m.
Proof.
  unfold getSystemPrompt, blocks_text, envelope_text, envelope, prompt_head,
    prompt_how, prompt_between, prompt_rules, prompt_format_block,
    prompt_example_block.
  cbn [map concat fst snd ep_w1 ep_w2 ep_w3 ep_name ep_args].
  rewrite <- !app_assoc. reflexivity.
Qed.

(** X27.  The format that the system prompt shows is the format that the
    parser reads: when the descriptions of the tools do not hold the first
    unit of [TC_START], [parse] finds in the prompt the two blocks it
    shows, [function_name] and [web_search] with their arguments, and no
    other call. *)
Theorem getSystemPrompt_parses (m : markers) (k : nat) (tools : list tool_spec) :
  generated m ->
  includes (char_at0 (TC_START m)) (join [LF] (map describe_tool tools)) = false ->
  map function_of (fst (parse m k (getSystemPrompt m tools)))
  = [ (ep_name prompt_format_block, ep_args prompt_format_block);
      (ep_name prompt_example_block, ep_args prompt_example_block) ].
Proof.
  intros G D. pose proof (generated_prompt m G) as C.
  pose proof (generated_wf m G) as WF. unfold prompt_check in C.
  apply andb_true_iff in C as [C D2]. apply andb_true_iff in C as [C D1].
  apply andb_true_iff in C as [C P3]. apply andb_true_iff in C as [C P2].
  destruct (TC_START m) as [|x s] eqn:Sx; [discriminate|].
  change (char_at0 (x :: s)) with [x] in D. apply includes_unit in D.
  apply negb_true_iff, existsb_eqb_false in C.
  assert (plain m (prompt_head ++ join [LF] (map describe_tool tools)
                   ++ prompt_how) = true) as P1.
  { unfold plain. rewrite Sx, indexOf_without_head; [reflexivity|].
    intro I. apply in_app_or in I as [I | I].
    - apply C. apply in_or_app. now left.
    - apply in_app_or in I as [I | I]; [contradiction|].
      apply C. apply in_or_app. now right. }
  rewrite getSystemPrompt_blocks.
  assert (blocks_ok m
            [ (prompt_head ++ join [LF] (map describe_tool tools) ++ prompt_how,
               prompt_format_block);
              (prompt_between, prompt_example_block) ] = true) as B.
  { cbn [blocks_ok forallb fst snd]. now rewrite P1, P2, D1, D2. }
  destruct (parse_blocks m k _ _ WF B P3) as [F _]. rewrite F. reflexivity.
Qed.

End Prompt.

Lemma getSystemPrompt_parses_witness :
  map function_of
    (fst (@parse sample_host sample_markers 0
            (@getSystemPrompt sample_host sample_markers
               [described_tool; sample_tool])))
  = [ (ep_name prompt_format_block, ep_args prompt_format_block);
      (ep_name prompt_example_block, ep_args prompt_example_block) ].
Proof.
  apply (@getSystemPrompt_parses sample_host sample_markers 0
           [described_tool; sample_tool]).
  - exact sample_generated.
  - vm_compute. reflexivity.
Defined.

